(** * The mhfa front end: slug generation, the icon sprite loader, the
      Toggle class, the text rotation, the sticky column and the language
      observer, embedded from [src/config/slm.js] and [src/js/default.js].

    JavaScript strings are modelled by [string]: sequences of code units
    below 256 (the Latin-1 range).  Effects on the page are explicit state;
    exceptions are an outcome of their own. *)

From Stdlib Require Import ZArith NArith Ascii String Bool.
From Stdlib Require QArith.
From stdpp Require Import base decidable option list gmap strings pretty.

Open Scope string_scope.
Open Scope list_scope.

(** ** [createSlug] of [src/config/slm.js] *)

Module Slug.

(** Code unit of a character. *)
Definition code (c : ascii) : N := N_of_ascii c.

(** A character-class range [lo-hi], as written between the brackets of a
    regular expression. *)
Definition in_range (lo hi c : ascii) : bool :=
  (code lo <=? code c)%N && (code c <=? code hi)%N.

Definition in_ranges (rs : list (ascii * ascii)) (c : ascii) : bool :=
  existsb (fun r => in_range (fst r) (snd r) c) rs.

(** [String.prototype.toLowerCase] on code units below 256: the letters A-Z
    and the Latin-1 capitals U+00C0-U+00DE (without the sign U+00D7) move up
    by 32, every other code unit is its own lower case. *)
Definition lower_char (c : ascii) : ascii :=
  if in_range "A" "Z" c
     || (in_range (ascii_of_N 192) (ascii_of_N 222) c
         && negb (code c =? 215)%N)
  then ascii_of_N (code c + 32)
  else c.

Fixpoint toLowerCase (s : string) : string :=
  match s with
  | EmptyString => EmptyString
  | String c s' => String (lower_char c) (toLowerCase s')
  end.

(** [s.replace(/C+/g, r)] for a one-character class [C]: every maximal run
    of characters of the class is replaced by [r].  [in_run] records that
    the previous character belonged to the run being replaced. *)
Fixpoint replace_runs_from (C : ascii -> bool) (r : string) (in_run : bool)
    (s : string) : string :=
  match s with
  | EmptyString => EmptyString
  | String c s' =>
      if C c
      then if in_run
           then replace_runs_from C r true s'
           else r +:+ replace_runs_from C r true s'
      else String c (replace_runs_from C r false s')
  end.

Definition replace_runs (C : ascii -> bool) (r s : string) : string :=
  replace_runs_from C r false s.

(** The class of [/[^0-9a-zA-Z - _]+/g], atom by atom: [0-9], [a-z], [A-Z],
    then [ - ] which is the range from the space to the space, and [_].
    The hyphen is the range operator there, not a member. *)
Definition kept_ranges : list (ascii * ascii) :=
  [("0", "9"); ("a", "z"); ("A", "Z"); (" ", " "); ("_", "_")]%char.

Definition stripped (c : ascii) : bool := negb (in_ranges kept_ranges c).

(** [\s] on code units below 256: TAB, LF, VT, FF, CR, the space and the
    no-break space. *)
Definition white_space (c : ascii) : bool :=
  let n := code c in
  ((9 <=? n) && (n <=? 13) || (n =? 32) || (n =? 160))%N.

Definition hyphen (c : ascii) : bool := (code c =? 45)%N.

Definition createSlug (s : string) : string :=
  replace_runs hyphen "-"
    (replace_runs white_space "-"
       (replace_runs stripped "" (toLowerCase s))).

End Slug.

(** ** The [Icons] class of [src/js/default.js] *)

Module Icons.

(** What [response.text()] settles to. *)
Inductive Body :=
  | BodyText (markup : string)
  | BodyError (reason : string).

Record Response := mkResponse { ok : bool; status : nat; text : Body }.

(** What [fetch(path)] settles to: a response, or a rejection when the
    request itself fails. *)
Inductive Fetched :=
  | Responded (r : Response)
  | NetworkError (reason : string).

(** The values that travel down the promise chain. *)
Inductive Value :=
  | VUndefined
  | VText (s : string)
  | VResponse (r : Response)
  | VError (reason : string).

(** A settled promise. *)
Inductive Settled :=
  | Fulfilled (v : Value)
  | Rejected (e : Value).

(** The hidden container appended to the body. *)
Record Sprite := mkSprite {
  innerHTML : string;
  attributes : list (string * string)
}.

Record Page := mkPage {
  console : list Value;       (* arguments of console.dir, oldest first *)
  body : list Sprite          (* children appended to document.body *)
}.

(** A reaction registered with [then] or [catch]. *)
Definition Reaction := Value -> Page -> Settled * Page.

(** [p.then(f)]: runs [f] on fulfilment, lets a rejection through. *)
Definition then_ (f : Reaction) (p : Settled * Page) : Settled * Page :=
  match fst p with
  | Fulfilled v => f v (snd p)
  | Rejected e => (Rejected e, snd p)
  end.

(** [p.catch(f)]: runs [f] on rejection, lets a fulfilment through. *)
Definition catch_ (f : Reaction) (p : Settled * Page) : Settled * Page :=
  match fst p with
  | Fulfilled v => (Fulfilled v, snd p)
  | Rejected e => f e (snd p)
  end.

(** [console.dir(v)]; its result is [undefined]. *)
Definition console_dir (v : Value) (pg : Page) : Settled * Page :=
  (Fulfilled VUndefined, mkPage (console pg ++ [v]) (body pg)).

(** The string a value becomes when assigned to [innerHTML]. *)
Definition to_markup (v : Value) : string :=
  match v with
  | VUndefined => "undefined"
  | VText s => s
  | VResponse _ => "[object Response]"
  | VError reason => reason
  end.

(** First reaction: the text of an OK response, otherwise the response is
    logged and the reaction returns nothing. *)
Definition on_response : Reaction := fun v pg =>
  match v with
  | VResponse r =>
      if ok r
      then match text r with
           | BodyText s => (Fulfilled (VText s), pg)
           | BodyError reason => (Rejected (VError reason), pg)
           end
      else console_dir (VResponse r) pg
  | _ => (Rejected (VError "TypeError"), pg)
  end.

(** Second reaction: the error is logged. *)
Definition on_error : Reaction := fun e pg => console_dir e pg.

(** Third reaction: builds the container and appends it to the body. *)
Definition on_data : Reaction := fun data pg =>
  let sprite :=
    mkSprite (to_markup data)
             [("aria-hidden", "true"); ("style", "display: none;")] in
  (Fulfilled VUndefined, mkPage (console pg) (body pg ++ [sprite])).

Definition path : string := "svg/icons.svg".

Definition start (f : Fetched) (pg : Page) : Settled * Page :=
  match f with
  | Responded r => (Fulfilled (VResponse r), pg)
  | NetworkError reason => (Rejected (VError reason), pg)
  end.

(** [new Icons(path)] against a network [fetch], once the chain has
    settled.  A missing or empty path is the class default. *)
Definition constructor (fetch : string -> Fetched) (p : option string)
    (pg : Page) : Settled * Page :=
  let p := match p with
           | Some s => if String.eqb s "" then path else s
           | None => path
           end in
  then_ on_data (catch_ on_error (then_ on_response (start (fetch p) pg))).

(** The fetch did not deliver the text of an OK response. *)
Definition failed (f : Fetched) : bool :=
  match f with
  | Responded r => negb (ok r)
  | NetworkError _ => true
  end.

End Icons.

(** ** The [Toggle] class of [src/js/default.js] *)

Module Toggle.

Abbreviation NodeId := nat (only parsing).  (* identity of an element object *)
Abbreviation HookId := nat (only parsing).  (* identity of a caller's function *)
Abbreviation InstId := nat (only parsing).  (* identity of a Toggle object *)

(** *** JavaScript values *)

(** The values settings and fields hold.  [JNum] stands for the integral
    numbers; fractions are not represented. *)
Inductive JSValue :=
  | JUndefined
  | JNull
  | JBool (b : bool)
  | JNum (z : Z)
  | JNaN
  | JStr (s : string)
  | JFun (h : HookId)
  | JElem (n : NodeId).

#[global] Instance JSValue_eq_dec : EqDecision JSValue.
Proof. solve_decision. Defined.

(** ToBoolean. *)
Definition truthy (v : JSValue) : bool :=
  match v with
  | JUndefined | JNull | JNaN => false
  | JBool b => b
  | JNum z => negb (z =? 0)%Z
  | JStr s => negb (String.eqb s "")
  | JFun _ | JElem _ => true
  end.

(** ToString on the primitive values.  The text of a function or of an
    element object is not represented. *)
Definition ToString (v : JSValue) : option string :=
  match v with
  | JUndefined => Some "undefined"
  | JNull => Some "null"
  | JBool true => Some "true"
  | JBool false => Some "false"
  | JNum z => Some (pretty z)
  | JNaN => Some "NaN"
  | JStr s => Some s
  | JFun _ | JElem _ => None
  end.

(** The string a nullable attribute value becomes in a template literal or
    as a DOMString argument. *)
Definition text_of (o : option string) : string := default "null" o.

(** *** Elements, events, instances, the window *)

Record Element := mkElement {
  tagName : string;                    (* upper case: an HTML element *)
  attached : bool;                     (* connected to the document *)
  parentNode : option NodeId;
  attributes : gmap string string;     (* all attributes but [class] *)
  classList : list string;             (* the tokens of [class], in order *)
  validity : option bool               (* checkValidity(), on form controls *)
}.

Record Event := mkEvent {
  ev_type : string;
  ev_target : JSValue
}.

Record Settings := mkSettings {
  selector : JSValue;
  namespace : JSValue;
  inactiveClass : JSValue;
  activeClass : JSValue;
  before : JSValue;
  after : JSValue;
  valid : JSValue;
  focusable : JSValue;
  jump : JSValue
}.

(** A Toggle object.  [this.target], [this.others], [this.focusable] and
    [this.event] do not exist until they are first assigned. *)
Record Instance := mkInstance {
  settings : Settings;
  this_element : JSValue;
  this_target : JSValue;
  this_others : option (list NodeId);
  this_focusable : option (list NodeId);
  this_event : option Event
}.

(** The functions registered as listeners, as closures over their free
    variables. *)
Inductive Handler :=
  | OnElementClick (this : InstId)                  (* constructor, l. 47 *)
  | Delegated (this : InstId)                       (* constructor, l. 58 *)
  | Undo (this : InstId) (element target : JSValue) (* toggle, l. 182 *).

(** [on = None] is the body element. *)
Record Listener := mkListener {
  on : option NodeId;
  on_type : string;
  handler : Handler
}.

(** The array stored in [window.TogglesCallback]: its [length] and its
    other own properties. *)
Record JSArray := mkArray {
  arr_length : N;
  arr_props : gmap string JSValue
}.

Record Window := mkWindow {
  elements : list Element;          (* element objects; document order *)
  toggles : list Instance;          (* Toggle objects, by identity *)
  listeners : list Listener;        (* in order of registration *)
  TogglesCallback : option JSArray; (* None: window has no such property *)
  pathname : string;
  search : string;
  hash : string;
  history_length : nat;
  activeElement : option NodeId;
  prevented : list Event            (* events whose default was prevented *)
}.

Definition with_elements (els : list Element) (w : Window) : Window :=
  mkWindow els (toggles w) (listeners w) (TogglesCallback w) (pathname w)
    (search w) (hash w) (history_length w) (activeElement w) (prevented w).

Definition with_toggles (ts : list Instance) (w : Window) : Window :=
  mkWindow (elements w) ts (listeners w) (TogglesCallback w) (pathname w)
    (search w) (hash w) (history_length w) (activeElement w) (prevented w).

Definition with_listeners (ls : list Listener) (w : Window) : Window :=
  mkWindow (elements w) (toggles w) ls (TogglesCallback w) (pathname w)
    (search w) (hash w) (history_length w) (activeElement w) (prevented w).

Definition with_registry (r : option JSArray) (w : Window) : Window :=
  mkWindow (elements w) (toggles w) (listeners w) r (pathname w)
    (search w) (hash w) (history_length w) (activeElement w) (prevented w).

Definition with_location (h : string) (n : nat) (w : Window) : Window :=
  mkWindow (elements w) (toggles w) (listeners w) (TogglesCallback w)
    (pathname w) (search w) h n (activeElement w) (prevented w).

Definition with_focus (f : option NodeId) (w : Window) : Window :=
  mkWindow (elements w) (toggles w) (listeners w) (TogglesCallback w)
    (pathname w) (search w) (hash w) (history_length w) f (prevented w).

Definition with_prevented (p : list Event) (w : Window) : Window :=
  mkWindow (elements w) (toggles w) (listeners w) (TogglesCallback w)
    (pathname w) (search w) (hash w) (history_length w) (activeElement w) p.

(** *** Computations: a state and exception monad *)

Inductive Exception :=
  | TypeError
  | SyntaxError
  | InvalidCharacterError
  | Unsupported              (* input outside the embedded fragment *)
  | Raised (what : string)   (* thrown by a caller-supplied function *).

Inductive Outcome (A : Type) :=
  | Ret (a : A) (w : Window)
  | Throw (e : Exception) (w : Window).
Arguments Ret {A} a w.
Arguments Throw {A} e w.

Definition M (A : Type) : Type := Window -> Outcome A.

#[global] Instance M_ret : MRet M := fun A a w => Ret a w.
#[global] Instance M_bind : MBind M := fun A B k m w =>
  match m w with
  | Ret a w' => k a w'
  | Throw e w' => Throw e w'
  end.

Definition throw {A} (e : Exception) : M A := fun w => Throw e w.
Definition gets {A} (f : Window -> A) : M A := fun w => Ret (f w) w.
Definition modify (f : Window -> Window) : M unit := fun w => Ret tt (f w).

(** The window an outcome ends in. *)
Definition final {A} (o : Outcome A) : Window :=
  match o with Ret _ w | Throw _ w => w end.

(** [xs.forEach(f)]. *)
Fixpoint forEach {A} (xs : list A) (f : A -> M unit) : M unit :=
  match xs with
  | [] => mret tt
  | x :: xs' => f x ;; forEach xs' f
  end.

(** *** Selectors *)

(** The selector texts the embedding interprets are comma-separated lists
    of simple selectors of these five forms, with attribute names in lower
    case; they cover every selector the class builds itself.  Any other
    text is reported as [Unsupported]: the engine would either raise a
    SyntaxError or evaluate a selector form that is not represented here.
    The document is an HTML document in no-quirks mode, where ids and the
    values of the attributes admitted below compare case-sensitively. *)
Inductive Simple :=
  | ById (id : string)                       (* #id *)
  | ByType (name : string)                   (* name *)
  | HasAttribute (name : string)             (* [name] *)
  | AttributeIs (name value : string)        (* [name="value"] *)
  | AttributeContains (name value : string)  (* [name*="value"] *).

(** The double quote, and a text between double quotes. *)
Definition quote : ascii := ascii_of_N 34.

Definition quoted (s : string) : string :=
  String quote (s +:+ String quote "").

Definition letter (c : ascii) : bool :=
  Slug.in_range "a" "z" c || Slug.in_range "A" "Z" c.

Definition ident_start (c : ascii) : bool :=
  letter c || Ascii.eqb c "_".

Definition ident_char (c : ascii) : bool :=
  ident_start c || Slug.in_range "0" "9" c || Ascii.eqb c "-".

(** The characters of an attribute name. *)
Definition name_start (c : ascii) : bool :=
  Slug.in_range "a" "z" c || Ascii.eqb c "_".

Definition name_char (c : ascii) : bool :=
  name_start c || Slug.in_range "0" "9" c || Ascii.eqb c "-".

(** Characters that may stand as themselves inside a double-quoted CSS
    string: not the quote, the backslash or a line break. *)
Definition plain_char (c : ascii) : bool :=
  negb (Ascii.eqb c quote || Ascii.eqb c "\"
        || Ascii.eqb c "010" || Ascii.eqb c "012" || Ascii.eqb c "013").

Fixpoint css_plain (s : string) : bool :=
  match s with
  | EmptyString => true
  | String c s' => plain_char c && css_plain s'
  end.

Definition snoc (s : string) (c : ascii) : string := s +:+ String c "".

(** Where the reader is inside the selector text. *)
Inductive Reading :=
  | AtSimple                                      (* a simple selector starts *)
  | AfterHash                                     (* read '#' *)
  | InIdent (id : bool) (acc : string)            (* inside #acc or acc *)
  | AfterBracket                                  (* read '[' *)
  | InName (acc : string)                         (* inside [acc *)
  | AfterStar (name : string)                     (* read [name* *)
  | AfterEquals (sub : bool) (name : string)      (* read [name= or [name*= *)
  | InValue (sub : bool) (name acc : string)      (* inside the quotes *)
  | AfterValue (sub : bool) (name value : string) (* read the closing quote *)
  | AfterSimple.                                  (* a simple selector ended *)

Definition ident_selector (id : bool) (acc : string) : Simple :=
  if id then ById acc else ByType acc.

Definition value_selector (sub : bool) (name value : string) : Simple :=
  if sub then AttributeContains name value else AttributeIs name value.

Definition read_char (r : Reading) (done : list Simple) (c : ascii)
    : option (Reading * list Simple) :=
  match r with
  | AtSimple =>
      if Ascii.eqb c " " then Some (AtSimple, done)
      else if Ascii.eqb c "#" then Some (AfterHash, done)
      else if Ascii.eqb c "[" then Some (AfterBracket, done)
      else if ident_start c then Some (InIdent false (String c ""), done)
      else None
  | AfterHash =>
      if ident_start c then Some (InIdent true (String c ""), done) else None
  | InIdent id acc =>
      if ident_char c then Some (InIdent id (snoc acc c), done)
      else if Ascii.eqb c " "
      then Some (AfterSimple, done ++ [ident_selector id acc])
      else if Ascii.eqb c ","
      then Some (AtSimple, done ++ [ident_selector id acc])
      else None
  | AfterBracket =>
      if name_start c then Some (InName (String c ""), done) else None
  | InName acc =>
      if name_char c then Some (InName (snoc acc c), done)
      else if Ascii.eqb c "]"
      then Some (AfterSimple, done ++ [HasAttribute acc])
      else if Ascii.eqb c "=" then Some (AfterEquals false acc, done)
      else if Ascii.eqb c "*" then Some (AfterStar acc, done)
      else None
  | AfterStar name =>
      if Ascii.eqb c "=" then Some (AfterEquals true name, done) else None
  | AfterEquals sub name =>
      if Ascii.eqb c quote then Some (InValue sub name "", done) else None
  | InValue sub name acc =>
      if Ascii.eqb c quote then Some (AfterValue sub name acc, done)
      else if plain_char c then Some (InValue sub name (snoc acc c), done)
      else None
  | AfterValue sub name value =>
      if Ascii.eqb c "]"
      then Some (AfterSimple, done ++ [value_selector sub name value])
      else None
  | AfterSimple =>
      if Ascii.eqb c " " then Some (AfterSimple, done)
      else if Ascii.eqb c "," then Some (AtSimple, done)
      else None
  end.

Definition read_end (r : Reading) (done : list Simple)
    : option (list Simple) :=
  match r with
  | InIdent id acc => Some (done ++ [ident_selector id acc])
  | AfterSimple => Some done
  | _ => None
  end.

Fixpoint read_from (r : Reading) (done : list Simple) (s : string)
    : option (list Simple) :=
  match s with
  | EmptyString => read_end r done
  | String c s' =>
      match read_char r done c with
      | Some (r', done') => read_from r' done' s'
      | None => None
      end
  end.

(** The element record keeps the class attribute as its token list and
    every other attribute in its map, so an attribute selector on [class]
    has no counterpart there.  For the attribute names below an HTML
    document compares the selector's value without regard to case.
    Selectors of either kind are left to [Unsupported]. *)
Definition folds_case : list string :=
  [ "accept"; "accept-charset"; "align"; "alink"; "axis"; "bgcolor";
    "charset"; "checked"; "clear"; "codetype"; "color"; "compact";
    "declare"; "defer"; "dir"; "direction"; "disabled"; "enctype"; "face";
    "frame"; "hreflang"; "http-equiv"; "lang"; "language"; "link"; "media";
    "method"; "multiple"; "nohref"; "noresize"; "noshade"; "nowrap";
    "readonly"; "rel"; "rev"; "rules"; "scope"; "scrolling"; "selected";
    "shape"; "target"; "text"; "type"; "valign"; "valuetype"; "vlink" ].

Definition named_in (n : string) (ns : list string) : bool :=
  existsb (String.eqb n) ns.

Definition represented (s : Simple) : bool :=
  match s with
  | ById _ | ByType _ => true
  | HasAttribute n => negb (String.eqb n "class")
  | AttributeIs n _ | AttributeContains n _ =>
      negb (String.eqb n "class") && negb (named_in n folds_case)
  end.

Definition parse_selector (s : string) : option (list Simple) :=
  match read_from AtSimple [] s with
  | Some sel => if forallb represented sel then Some sel else None
  | None => None
  end.

(** ASCII lower case, for the case-insensitive match of type selectors. *)
Definition ascii_lower (c : ascii) : ascii :=
  if Slug.in_range "A" "Z" c then ascii_of_N (Slug.code c + 32) else c.

Fixpoint lower (s : string) : string :=
  match s with
  | EmptyString => EmptyString
  | String c s' => String (ascii_lower c) (lower s')
  end.

(** [needle] starts [s]; [needle] occurs in [s]. *)
Fixpoint starts_with (needle s : string) : bool :=
  match needle, s with
  | EmptyString, _ => true
  | String a n', String b s' => Ascii.eqb a b && starts_with n' s'
  | String _ _, EmptyString => false
  end.

Fixpoint contains (needle s : string) : bool :=
  starts_with needle s
  || match s with
     | EmptyString => false
     | String _ s' => contains needle s'
     end.

Definition matches_simple (e : Element) (s : Simple) : bool :=
  match s with
  | ById i => bool_decide (attributes e !! "id" = Some i)
  | ByType t => String.eqb (lower (tagName e)) (lower t)
  | HasAttribute n => bool_decide (is_Some (attributes e !! n))
  | AttributeIs n v => bool_decide (attributes e !! n = Some v)
  | AttributeContains n v =>
      match attributes e !! n with
      | Some x => negb (String.eqb v "") && contains v x
      | None => false
      end
  end.

Definition matches_any (sel : list Simple) (e : Element) : bool :=
  existsb (matches_simple e) sel.

(** The indices of the elements of [els] that satisfy [p], in order;
    [from] is the index of the head of [els]. *)
Fixpoint indices_from (from : nat) (p : Element -> bool) (els : list Element)
    : list NodeId :=
  match els with
  | [] => []
  | e :: els' =>
      if p e then from :: indices_from (S from) p els'
      else indices_from (S from) p els'
  end.

(** [a] is a proper ancestor of [n], following at most [fuel] parent
    links. *)
Fixpoint has_ancestor (fuel : nat) (els : list Element) (a n : NodeId)
    : bool :=
  match fuel with
  | O => false
  | S fuel' =>
      match els !! n with
      | Some e =>
          match parentNode e with
          | Some p => Nat.eqb p a || has_ancestor fuel' els a p
          | None => false
          end
      | None => false
      end
  end.

(** The attached elements a selector list selects, in document order. *)
Definition select_all (sel : list Simple) (els : list Element)
    : list NodeId :=
  indices_from 0 (fun e => attached e && matches_any sel e) els.

(** The descendants of [root] a selector list selects. *)
Definition select_within (root : NodeId) (sel : list Simple)
    (els : list Element) : list NodeId :=
  filter (fun n => has_ancestor (length els) els root n)
         (indices_from 0 (matches_any sel) els).

(** *** The DOM operations the class calls *)

(** The element object a value denotes; any other value has none of the
    element's methods. *)
Definition element_of (v : JSValue) : M (NodeId * Element) := fun w =>
  match v with
  | JElem n =>
      match elements w !! n with
      | Some e => Ret (n, e) w
      | None => Throw TypeError w
      end
  | _ => Throw TypeError w
  end.

Definition toString (v : JSValue) : M string := fun w =>
  match ToString v with
  | Some s => Ret s w
  | None => Throw Unsupported w
  end.

Definition update_element (n : NodeId) (e : Element) : M unit :=
  modify (fun w => with_elements (<[n := e]> (elements w)) w).

Definition with_attributes (a : gmap string string) (e : Element) : Element :=
  mkElement (tagName e) (attached e) (parentNode e) a (classList e)
            (validity e).

Definition with_classList (c : list string) (e : Element) : Element :=
  mkElement (tagName e) (attached e) (parentNode e) (attributes e) c
            (validity e).

Definition hasAttribute (v : JSValue) (name : string) : M bool :=
  '(_, e) ← element_of v;
  mret (bool_decide (is_Some (attributes e !! name))).

(** [None] is [null]. *)
Definition getAttribute (v : JSValue) (name : string) : M (option string) :=
  '(_, e) ← element_of v;
  mret (attributes e !! name).

Definition setAttribute (v : JSValue) (name value : string) : M unit :=
  '(n, e) ← element_of v;
  update_element n (with_attributes (<[name := value]> (attributes e)) e).

Definition removeAttribute (v : JSValue) (name : string) : M unit :=
  '(n, e) ← element_of v;
  update_element n (with_attributes (delete name (attributes e)) e).

Definition classList_contains (v token : JSValue) : M bool :=
  '(_, e) ← element_of v;
  t ← toString token;
  mret (bool_decide (t ∈ classList e)).

(** ASCII whitespace, which a class token must not contain. *)
Definition token_space (c : ascii) : bool :=
  Ascii.eqb c "009" || Ascii.eqb c "010" || Ascii.eqb c "012"
  || Ascii.eqb c "013" || Ascii.eqb c " ".

Fixpoint has_token_space (s : string) : bool :=
  match s with
  | EmptyString => false
  | String c s' => token_space c || has_token_space s'
  end.

Definition toggle_token (t : string) (c : list string) : list string :=
  if bool_decide (t ∈ c) then filter (fun x => x ≠ t) c else c ++ [t].

(** [classList.toggle(token)]: the empty token is a SyntaxError, a token
    with whitespace an InvalidCharacterError. *)
Definition classList_toggle (v token : JSValue) : M unit :=
  '(n, e) ← element_of v;
  t ← toString token;
  if String.eqb t "" then throw SyntaxError
  else if has_token_space t then throw InvalidCharacterError
  else update_element n (with_classList (toggle_token t (classList e)) e).

Definition parsed (sel : string) : M (list Simple) := fun w =>
  match parse_selector sel with
  | Some s => Ret s w
  | None => Throw Unsupported w
  end.

(** [document.querySelectorAll(sel)]. *)
Definition document_querySelectorAll (sel : string) : M (list NodeId) :=
  s ← parsed sel;
  gets (fun w => select_all s (elements w)).

(** [document.querySelector(sel)]: the first match, or [null]. *)
Definition document_querySelector (sel : string) : M JSValue :=
  ns ← document_querySelectorAll sel;
  mret (match ns with n :: _ => JElem n | [] => JNull end).

(** [v.querySelectorAll(sel)]. *)
Definition querySelectorAll (v : JSValue) (sel : string) : M (list NodeId) :=
  '(n, _) ← element_of v;
  s ← parsed sel;
  gets (fun w => select_within n s (elements w)).

(** The attribute behind [element.dataset[key]]: each upper-case letter of
    the key stands for a hyphen and its lower case.  A key with a hyphen
    before a lower-case letter names no attribute. *)
Fixpoint dataset_name (key : string) : string :=
  match key with
  | EmptyString => EmptyString
  | String c key' =>
      if Slug.in_range "A" "Z" c
      then String "-" (String (ascii_lower c) (dataset_name key'))
      else String c (dataset_name key')
  end.

Fixpoint hyphen_lower (key : string) : bool :=
  match key with
  | String a ((String b _) as key') =>
      (Ascii.eqb a "-" && Slug.in_range "a" "z" b) || hyphen_lower key'
  | _ => false
  end.

(** [None] is [undefined]. *)
Definition dataset (v : JSValue) (key : string) : M (option string) :=
  '(_, e) ← element_of v;
  mret (if hyphen_lower key then None
        else attributes e !! ("data-" +:+ dataset_name key)).

Definition addEventListener (on : option NodeId) (type : string)
    (h : Handler) : M unit :=
  modify (fun w => with_listeners (listeners w ++ [mkListener on type h]) w).

(** [event.preventDefault()]. *)
Definition preventDefault (event : Event) : M unit :=
  modify (fun w => with_prevented (prevented w ++ [event]) w).

(** [history.pushState('', '', pathname + search)]: a new entry whose URL
    has no fragment. *)
Definition history_pushState : M unit :=
  modify (fun w => with_location "" (S (history_length w)) w).

(** The fragment a text becomes in the URL: one leading [#] is dropped,
    tabs and line breaks are removed, and the characters of the fragment
    percent-encode set are written as the bytes of their UTF-8 encoding.
    A character stands for the code point of its number, below 256. *)
Definition hex_digit (n : N) : ascii :=
  if (n <? 10)%N then ascii_of_N (48 + n) else ascii_of_N (55 + n).

Definition percent (byte : N) : string :=
  String "%" (String (hex_digit (byte / 16))
                     (String (hex_digit (byte mod 16)) "")).

Definition fragment_escaped (c : ascii) : bool :=
  (Slug.code c <=? 32)%N || (126 <? Slug.code c)%N || Ascii.eqb c quote
  || Ascii.eqb c "<" || Ascii.eqb c ">" || Ascii.eqb c "`".

Definition fragment_char (c : ascii) : string :=
  if Ascii.eqb c "009" || Ascii.eqb c "010" || Ascii.eqb c "013" then ""
  else if fragment_escaped c
  then if (Slug.code c <? 128)%N then percent (Slug.code c)
       else percent (192 + Slug.code c / 64)
            +:+ percent (128 + Slug.code c mod 64)
  else String c "".

Fixpoint fragment_chars (s : string) : string :=
  match s with
  | EmptyString => EmptyString
  | String c s' => fragment_char c +:+ fragment_chars s'
  end.

Definition fragment (value : string) : string :=
  match value with
  | String c rest => if Ascii.eqb c "#" then fragment_chars rest
                     else fragment_chars value
  | EmptyString => EmptyString
  end.

(** The field [hash] holds the fragment part of the URL: empty when the
    URL has none, otherwise [#] and the fragment. *)
Definition url_fragment (w : Window) : string :=
  match hash w with
  | String _ f => f
  | EmptyString => EmptyString
  end.

(** [window.location.hash = value], in a document that has finished
    loading.  A fragment that differs from the present one, where no
    fragment counts as the empty one, navigates and adds a history entry;
    the same fragment changes nothing.  The navigation also scrolls to the
    element the fragment indicates; the embedding has no scroll position,
    and it leaves the focus to [focus]. *)
Definition set_location_hash (value : string) : M unit :=
  modify (fun w =>
    let f := fragment value in
    if String.eqb f (url_fragment w) then w
    else with_location ("#" +:+ f) (S (history_length w)) w).

(** What [window.location.hash] reads: the empty text for no fragment and
    for the empty fragment. *)
Definition location_hash (w : Window) : string :=
  if String.eqb (hash w) "#" then "" else hash w.

(** [v.focus()]: nothing happens for an element outside the document.
    The embedding has no style sheet and no disabled or inert state: an
    attached element is rendered, and the class calls [focus] only on an
    element to which it has just given a [tabindex]. *)
Definition focus (v : JSValue) : M unit :=
  '(n, e) ← element_of v;
  if attached e then modify (with_focus (Some n)) else mret tt.

(** [v.checkValidity()]; elements without the method raise. *)
Definition checkValidity (v : JSValue) : M bool :=
  '(_, e) ← element_of v;
  match validity e with
  | Some b => mret b
  | None => throw TypeError
  end.

(** *** The array in [window.TogglesCallback] *)

Fixpoint digits_from (acc : N) (s : string) : option N :=
  match s with
  | EmptyString => Some acc
  | String c s' =>
      if Slug.in_range "0" "9" c
      then digits_from (10 * acc + (Slug.code c - 48))%N s'
      else None
  end.

(** The array index a property key denotes: the key is the canonical
    decimal text of an integer below 2^32 - 1. *)
Definition array_index (key : string) : option N :=
  match key with
  | EmptyString => None
  | _ =>
      match digits_from 0 key with
      | Some n =>
          if String.eqb (pretty n) key && (n <? 4294967295)%N
          then Some n else None
      | None => None
      end
  end.

(** [arr.hasOwnProperty(key)]: every array owns [length]. *)
Definition array_hasOwnProperty (arr : JSArray) (key : string) : bool :=
  String.eqb key "length" || bool_decide (is_Some (arr_props arr !! key)).

Definition index_from (bound : N) (key : string) : bool :=
  match array_index key with
  | Some i => (bound <=? i)%N
  | None => false
  end.

(** [arr[key] = true].  Under the key [length] the value is the new
    length 1 and the elements from index 1 on are deleted; under an array
    index the length grows to cover it. *)
Definition array_set_true (arr : JSArray) (key : string) : JSArray :=
  if String.eqb key "length"
  then mkArray 1 (filter (fun kv => index_from 1 (fst kv) = false)
                         (arr_props arr))
  else
    mkArray (match array_index key with
             | Some i => N.max (arr_length arr) (i + 1)
             | None => arr_length arr
             end)
            (<[key := JBool true]> (arr_props arr)).

(** *** Class constants ([Toggle.selector] and the like) *)

Module Static.
Definition selector : string := "[data-js*=" +:+ quoted "toggle" +:+ "]".
Definition namespace : string := "toggle".
Definition inactiveClass : string := "hidden".
Definition activeClass : string := "active".
Definition elAriaRoles : list string := ["aria-pressed"; "aria-expanded"].
Definition targetAriaRoles : list string := ["aria-hidden"].
Definition elFocusable : list string :=
  ["a"; "button"; "input"; "select"; "textarea"; "object"; "embed"; "form";
   "fieldset"; "legend"; "label"; "area"; "audio"; "video"; "iframe"; "svg";
   "details"; "table"; "[tabindex]"; "[contenteditable]"; "[usemap]"].
(** The key [Toggle.callback] denotes as a property name. *)
Definition callback : string := "TogglesCallback".
Definition events : list string := ["click"; "change"].
(** [Toggle.elements], under the upper-cased event type. *)
Definition elements (type : string) : option (list string) :=
  if String.eqb type "CLICK" then Some ["A"; "BUTTON"]
  else if String.eqb type "CHANGE" then Some ["SELECT"; "INPUT"; "TEXTAREA"]
  else None.
End Static.

(** [xs.join(sep)]. *)
Fixpoint join (sep : string) (xs : list string) : string :=
  match xs with
  | [] => ""
  | [x] => x
  | x :: xs' => x +:+ sep +:+ join sep xs'
  end.

(** *** Instances *)

Definition self (this : InstId) : M Instance := fun w =>
  match toggles w !! this with
  | Some i => Ret i w
  | None => Throw TypeError w
  end.

Definition this_settings (this : InstId) : M Settings :=
  i ← self this; mret (settings i).

Definition assign (this : InstId) (f : Instance -> Instance) : M unit :=
  i ← self this;
  modify (fun w => with_toggles (<[this := f i]> (toggles w)) w).

Definition set_element (v : JSValue) (i : Instance) : Instance :=
  mkInstance (settings i) v (this_target i) (this_others i)
             (this_focusable i) (this_event i).

Definition set_target (v : JSValue) (i : Instance) : Instance :=
  mkInstance (settings i) (this_element i) v (this_others i)
             (this_focusable i) (this_event i).

Definition set_others (ns : list NodeId) (i : Instance) : Instance :=
  mkInstance (settings i) (this_element i) (this_target i) (Some ns)
             (this_focusable i) (this_event i).

Definition set_focusable (ns : list NodeId) (i : Instance) : Instance :=
  mkInstance (settings i) (this_element i) (this_target i) (this_others i)
             (Some ns) (this_event i).

Definition set_event (ev : Event) (i : Instance) : Instance :=
  mkInstance (settings i) (this_element i) (this_target i) (this_others i)
             (this_focusable i) (Some ev).

(** [this.others] and [this.focusable] as receivers of [forEach]. *)
Definition the_list (o : option (list NodeId)) : M (list NodeId) :=
  match o with
  | Some ns => mret ns
  | None => throw TypeError
  end.

(** ["true"] becomes ["false"], anything else ["true"]. *)
Definition flipped (value : option string) : string :=
  if bool_decide (value = Some "true") then "false" else "true".

(** [value != '' && value] on an attribute value. *)
Definition present (value : option string) : bool :=
  match value with
  | Some s => negb (String.eqb s "")
  | None => false
  end.

Section Methods.

(** The caller-supplied functions: what the function [h] does when it is
    called with the instance [this]. *)
Variable callback : HookId -> InstId -> M JSValue.

(** [f(this)] *)
Definition call (f : JSValue) (this : InstId) : M JSValue :=
  match f with
  | JFun h => callback h this
  | _ => throw TypeError
  end.

(** l. 113-131 *)
Definition isActive (this : InstId) (element : JSValue) : M bool :=
  s ← this_settings this;
  if truthy (activeClass s)
  then classList_contains element (activeClass s)
  else mret false.

(** l. 138-150 *)
Definition getTarget (this : InstId) (element : JSValue) : M JSValue :=
  let target := JBool false in
  (* Anchor Links *)
  h ← hasAttribute element "href";
  target ← (if h : bool
            then v ← getAttribute element "href";
                 document_querySelector (text_of v)
            else mret target);
  (* Toggle Controls *)
  a ← hasAttribute element "aria-controls";
  target ← (if a : bool
            then v ← getAttribute element "aria-controls";
                 document_querySelector ("#" +:+ text_of v)
            else mret target);
  mret target.

(** l. 200-210 *)
Definition getOthers (this : InstId) (element : JSValue)
    : M (list NodeId) :=
  h ← hasAttribute element "href";
  selector ← (if h : bool
              then v ← getAttribute element "href";
                   mret (Some ("[href=" +:+ quoted (text_of v) +:+ "]"))
              else
                a ← hasAttribute element "aria-controls";
                if a : bool
                then v ← getAttribute element "aria-controls";
                     mret (Some ("[aria-controls=" +:+ quoted (text_of v)
                                +:+ "]"))
                else mret None);
  match selector with
  | Some sel => document_querySelectorAll sel
  | None => mret []
  end.

(** l. 221-240 *)
Definition toggleFocusable (this : InstId) (elements : list NodeId)
    : M unit :=
  forEach elements (fun element =>
    tabindex ← getAttribute (JElem element) "tabindex";
    if bool_decide (tabindex = Some "-1")
    then
      dataDefault ← getAttribute (JElem element)
                      ("data-" +:+ Static.namespace +:+ "-tabindex");
      if present dataDefault
      then setAttribute (JElem element) "tabindex" (text_of dataDefault)
      else removeAttribute (JElem element) "tabindex"
    else setAttribute (JElem element) "tabindex" "-1").

(** l. 251-268 *)
Definition jumpTo (this : InstId) (element target : JSValue) : M unit :=
  history_pushState ;;
  s ← this_settings this;
  active ← classList_contains target (activeClass s);
  if active : bool
  then
    href ← getAttribute element "href";
    set_location_hash (text_of href) ;;
    setAttribute target "tabindex" "0" ;;
    focus target
  else removeAttribute target "tabindex".

(** l. 311-323: the classes of the element, the target and the others. *)
Definition toggle_classes (this : InstId) (target : JSValue) : M unit :=
  s ← this_settings this;
  (if truthy (activeClass s)
   then
     i ← self this;
     classList_toggle (this_element i) (activeClass s) ;;
     i ← self this;
     classList_toggle (this_target i) (activeClass s) ;;
     i ← self this;
     others ← the_list (this_others i);
     forEach others (fun other =>
       i ← self this;
       if bool_decide (JElem other ≠ this_element i)
       then classList_toggle (JElem other) (activeClass s)
       else mret tt)
   else mret tt) ;;
  s ← this_settings this;
  if truthy (inactiveClass s)
  then classList_toggle target (inactiveClass s)
  else mret tt.

(** l. 329-335: the ARIA attributes of the target. *)
Definition toggle_target_aria (this : InstId) : M unit :=
  forEach Static.targetAriaRoles (fun attr =>
    i ← self this;
    value ← getAttribute (this_target i) attr;
    if present value
    then i ← self this;
         setAttribute (this_target i) attr (flipped value)
    else mret tt).

(** l. 355-367: the ARIA attributes of the element and of the others. *)
Definition toggle_element_aria (this : InstId) : M unit :=
  forEach Static.elAriaRoles (fun attr =>
    i ← self this;
    value ← getAttribute (this_element i) attr;
    (if present value
     then i ← self this;
          setAttribute (this_element i) attr (flipped value)
     else mret tt) ;;
    i ← self this;
    others ← the_list (this_others i);
    forEach others (fun other =>
      i ← self this;
      if bool_decide (JElem other ≠ this_element i)
      then
        own ← getAttribute (JElem other) attr;
        if present own
        then setAttribute (JElem other) attr (flipped value)
        else mret tt
      else mret tt)).

(** l. 279-377 *)
Definition elementToggle (this : InstId) (element target : JSValue)
    (focusable : list NodeId) : M unit :=
  (* Store elements for potential use in callbacks *)
  assign this (set_element element) ;;
  assign this (set_target target) ;;
  others ← getOthers this element;
  assign this (set_others others) ;;
  assign this (set_focusable focusable) ;;
  (* Validity method property that will cancel the toggle *)
  s ← this_settings this;
  declined ← (if truthy (valid s)
              then r ← call (valid s) this; mret (negb (truthy r))
              else mret false);
  if declined : bool then mret tt
  else
    (* Toggling before hook *)
    s ← this_settings this;
    (if truthy (before s) then call (before s) this ;; mret tt
     else mret tt) ;;
    (* Toggle Element and Target classes *)
    toggle_classes this target ;;
    (* Target Element Aria Attributes *)
    toggle_target_aria this ;;
    (* Toggle the target's focusable children tabindex *)
    s ← this_settings this;
    (if truthy (Toggle.focusable s)
     then i ← self this;
          ns ← the_list (this_focusable i);
          toggleFocusable this ns
     else mret tt) ;;
    (* Jump to Target Element if Toggle Element is an anchor link *)
    s ← this_settings this;
    (if truthy (jump s)
     then i ← self this;
          h ← hasAttribute (this_element i) "href";
          if h : bool
          then i ← self this;
               jumpTo this (this_element i) (this_target i)
          else mret tt
     else mret tt) ;;
    (* Toggle Element (including multi toggles) Aria Attributes *)
    toggle_element_aria this ;;
    (* Toggling complete hook *)
    s ← this_settings this;
    if truthy (after s) then call (after s) this ;; mret tt
    else mret tt.

(** l. 159-190 *)
Definition toggle (this : InstId) (event : Event) : M unit :=
  let element := ev_target event in
  preventDefault event ;;
  target ← getTarget this element;
  (* Focusable Children *)
  focusable ← (if truthy target
               then querySelectorAll target (join ", " Static.elFocusable)
               else mret []);
  (* Main Functionality *)
  if negb (truthy target) then mret tt
  else
    elementToggle this element target focusable ;;
    (* Undo *)
    s ← this_settings this;
    ns ← toString (namespace s);
    undo ← dataset element (ns +:+ "Undo");
    if present undo
    then
      u ← document_querySelector (text_of undo);
      '(n, _) ← element_of u;
      addEventListener (Some n) "click" (Undo this element target)
    else mret tt.

(** l. 88-90 *)
Definition click (this : InstId) (event : Event) : M unit :=
  toggle this event.

(** l. 98-106 *)
Definition change (this : InstId) (event : Event) : M unit :=
  valid ← checkValidity (ev_target event);
  active ← isActive this (ev_target event);
  if valid && negb active then toggle this event        (* show *)
  else if negb valid && active then toggle this event   (* hide *)
  else mret tt.

(** [v.matches(sel)] *)
Definition matches (v : JSValue) (sel : string) : M bool :=
  '(_, e) ← element_of v;
  s ← parsed sel;
  mret (matches_any s e).

(** ASCII upper case; the event types are ASCII words. *)
Definition ascii_upper (c : ascii) : ascii :=
  if Slug.in_range "a" "z" c then ascii_of_N (Slug.code c - 32) else c.

Fixpoint toUpperCase (s : string) : string :=
  match s with
  | EmptyString => EmptyString
  | String c s' => String (ascii_upper c) (toUpperCase s')
  end.

(** The bodies of the three listeners.  The delegated listener is only
    registered for the types [click] and [change], for which [this] has a
    method.  [removeEventListener] is called with one argument where two
    are required; the call raises. *)
Definition handle (h : Handler) (event : Event) : M unit :=
  match h with
  | OnElementClick this => toggle this event
  | Delegated this =>
      s ← this_settings this;
      sel ← toString (selector s);
      m ← matches (ev_target event) sel;
      if negb m then mret tt
      else
        assign this (set_event event) ;;
        let type := toUpperCase (ev_type event) in
        '(_, e) ← element_of (ev_target event);
        match Static.elements type with
        | Some tags =>
            if bool_decide (tagName e ∈ tags)
            then if String.eqb (ev_type event) "click" then click this event
                 else if String.eqb (ev_type event) "change"
                      then change this event
                      else mret tt
            else mret tt
        | None => mret tt
        end
  | Undo this element target =>
      preventDefault event ;;
      elementToggle this element target [] ;;
      throw TypeError
  end.

(** [s.name] for an own property of the settings argument. *)
Definition own (s : gmap string JSValue) (name : string) : JSValue :=
  default JUndefined (s !! name).

Definition or_else (v d : JSValue) : JSValue := if truthy v then v else d.

(** The settings of l. 31-41. *)
Definition merged (s : gmap string JSValue) : Settings :=
  mkSettings
    (or_else (own s "selector") (JStr Static.selector))
    (or_else (own s "namespace") (JStr Static.namespace))
    (or_else (own s "inactiveClass") (JStr Static.inactiveClass))
    (or_else (own s "activeClass") (JStr Static.activeClass))
    (or_else (own s "before") (JBool false))
    (or_else (own s "after") (JBool false))
    (or_else (own s "valid") (JBool false))
    (if bool_decide (is_Some (s !! "focusable")) then own s "focusable"
     else JBool true)
    (if bool_decide (is_Some (s !! "jump")) then own s "jump"
     else JBool true).

Definition the_registry : M JSArray := fun w =>
  match TogglesCallback w with
  | Some arr => Ret arr w
  | None => Throw TypeError w
  end.

(** l. 26-27: the registry is created when the window has none. *)
Definition create_registry : M unit :=
  r ← gets TogglesCallback;
  if r is None then modify (with_registry (Some (mkArray 0 ∅)))
  else mret tt.

(** l. 29-44: the new object, with its settings and its element. *)
Definition create (s : option (gmap string JSValue)) : M InstId :=
  let s := default ∅ s in
  this ← gets (fun w => length (toggles w));
  modify (fun w =>
    with_toggles
      (toggles w ++ [mkInstance (merged s)
                       (or_else (own s "element") (JBool false))
                       JUndefined None None None]) w) ;;
  mret this.

(** l. 46-74: the click listener on the element, or else the delegated
    listeners on the body unless the selector is already registered. *)
Definition attach (this : InstId) : M unit :=
  i ← self this;
  if truthy (this_element i)
  then
    '(n, _) ← element_of (this_element i);
    addEventListener (Some n) "click" (OnElementClick this)
  else
    st ← this_settings this;
    key ← toString (selector st);
    arr ← the_registry;
    if negb (array_hasOwnProperty arr key)
    then forEach Static.events (fun tggleEvent =>
           addEventListener None tggleEvent (Delegated this))
    else mret tt.

(** l. 78: the selector is recorded in the registry. *)
Definition record (this : InstId) : M unit :=
  st ← this_settings this;
  key ← toString (selector st);
  arr ← the_registry;
  modify (with_registry (Some (array_set_true arr key))).

(** l. 24-81: [new Toggle(s)]; [None] is a missing or falsy argument.  The
    result is the new object. *)
Definition constructor (s : option (gmap string JSValue)) : M InstId :=
  create_registry ;;
  this ← create s;
  attach this ;;
  record this ;;
  mret this.

End Methods.

End Toggle.

(** ** The text rotation of [src/js/default.js] *)

Module Animations.

(** An element: its rendered text and its classes. *)
Record Node := mkNode { innerText : string; classList : list string }.

(** The closures the timers hold, with the variables they capture: the
    controller element, and for the rotation the terms and the index. *)
Inductive Callback :=
  | FadeOut (controller : nat)
  | Rotate (terms : list string) (i : nat) (controller : nat).

(** A pending timer: when it is due, its period when it was set with
    [setInterval], its closure. *)
Record Timer := mkTimer {
  due : nat;
  period : option nat;
  callback : Callback
}.

Record Page := mkPage {
  nodes : list Node;
  querySelectorAll : string -> list nat;  (* the matches of a selector *)
  querySelector : string -> option nat;   (* its first match, or null *)
  now : nat;                               (* milliseconds *)
  timers : list Timer                      (* in order of creation *)
}.

Inductive Outcome :=
  | Done (p : Page)
  | TypeError (p : Page).

(** [String.prototype.trim]: white space and line terminators are removed
    at both ends. *)
Fixpoint trimStart (s : string) : string :=
  match s with
  | EmptyString => EmptyString
  | String c s' => if Slug.white_space c then trimStart s' else s
  end.

Fixpoint trimEnd (s : string) : string :=
  match s with
  | EmptyString => EmptyString
  | String c s' =>
      match trimEnd s' with
      | EmptyString =>
          if Slug.white_space c then EmptyString else String c EmptyString
      | r => String c r
      end
  end.

Definition trim (s : string) : string := trimEnd (trimStart s).

(** [classList.add] and [classList.remove]. *)
Definition add (t : string) (n : Node) : Node :=
  mkNode (innerText n)
         (if bool_decide (t ∈ classList n) then classList n
          else classList n ++ [t]).

Definition remove (t : string) (n : Node) : Node :=
  mkNode (innerText n) (filter (fun x => x ≠ t) (classList n)).

Definition set_innerText (s : string) (n : Node) : Node :=
  mkNode s (classList n).

Definition update (c : nat) (f : Node -> Node) (p : Page) : Page :=
  mkPage (alter f c (nodes p)) (querySelectorAll p) (querySelector p) (now p)
         (timers p).

Definition add_timer (t : Timer) (p : Page) : Page :=
  mkPage (nodes p) (querySelectorAll p) (querySelector p) (now p)
         (timers p ++ [t]).

Definition setTimeout (f : Callback) (delay : nat) (p : Page) : Page :=
  add_timer (mkTimer (now p + delay) None f) p.

Definition setInterval (f : Callback) (delay : nat) (p : Page) : Page :=
  add_timer (mkTimer (now p + delay) (Some delay) f) p.

Definition speed : nat := 1500.
Definition selector : string :=
  "[data-js*=" +:+ Toggle.quoted "rotate-text" +:+ "]".
Definition controller : string :=
  "[data-js*=" +:+ Toggle.quoted "rotate-controller" +:+ "]".

(** l. 772-779, for an element. *)
Definition fadeInOut (controller : nat) (p : Page) : Page :=
  setTimeout (FadeOut controller) 2000 (update controller (add "fadeIn") p).

(** l. 750-766.  The third parameter is not used by the body. *)
Definition rotateTerms (terms : list string) (control : string) (speed : nat)
    (p : Page) : Outcome :=
  match querySelector p control, terms !! 0 with
  | Some controller, Some t =>
      Done (setInterval (Rotate terms 1 controller) 3000
              (fadeInOut controller
                 (update controller (set_innerText (trim t)) p)))
  | _, _ => TypeError p
  end.

(** l. 717-737: the terms are the texts of the selected elements that are
    not blank. *)
Definition constructor (p : Page) : Outcome :=
  let rotating := querySelectorAll p selector in
  let terms :=
    omap (fun term =>
            match nodes p !! term with
            | Some n =>
                if negb (String.eqb (trim (innerText n)) "")
                then Some (innerText n) else None
            | None => None
            end) rotating in
  rotateTerms terms controller speed p.

(** One call of a closure: the closure as it is afterwards, and the
    outcome. *)
Definition call (f : Callback) (p : Page) : Callback * Outcome :=
  match f with
  | FadeOut controller =>
      (f, Done (update controller
                  (fun n => remove "fadeIn" (add "fadeOut" n)) p))
  | Rotate terms i controller =>
      let i := if Nat.eqb i (length terms) then 0 else i in
      match terms !! i with
      | Some t =>
          (Rotate terms (S i) controller,
           Done (fadeInOut controller
                   (update controller (set_innerText (trim t)) p)))
      | None => (Rotate terms i controller, TypeError p)
      end
  end.

(** The pending timer that is due first, the one created first among
    equals, and the others. *)
Fixpoint pick (ts : list Timer) : option (Timer * list Timer) :=
  match ts with
  | [] => None
  | t :: ts' =>
      match pick ts' with
      | Some (u, rest) =>
          if Nat.ltb (due u) (due t) then Some (u, t :: rest) else Some (t, ts')
      | None => Some (t, [])
      end
  end.

Definition on_page (f : Page -> Page) (o : Outcome) : Outcome :=
  match o with
  | Done p => Done (f p)
  | TypeError p => TypeError (f p)
  end.

(** One turn of the event loop: the timer that is due first fires at its
    time; an interval is set again, one period later. *)
Definition turn (p : Page) : Outcome :=
  match pick (timers p) with
  | None => Done p
  | Some (t, rest) =>
      let '(f, o) :=
        call (callback t)
             (mkPage (nodes p) (querySelectorAll p) (querySelector p)
                     (Nat.max (now p) (due t)) rest) in
      match period t with
      | Some d => on_page (add_timer (mkTimer (due t + d) (Some d) f)) o
      | None => o
      end
  end.

(** [n] turns, up to the first exception. *)
Fixpoint turns (n : nat) (p : Page) : Outcome :=
  match n with
  | O => Done p
  | S n' =>
      match turn p with
      | Done p' => turns n' p'
      | TypeError p' => TypeError p'
      end
  end.

End Animations.

(** ** The sticky column of [src/js/default.js] *)

Module StaticColumn.

Abbreviation Q := QArith_base.Q (only parsing).

(** What the layout reports for the parent of the sticky element:
    [getBoundingClientRect().top], a fraction of a pixel, and
    [clientHeight], a whole number.  The double-precision values of the
    page are rationals; the differences of l. 691-695 are compared with 0,
    and the sign of a rounded difference is that of the exact one, so that
    the comparisons are taken on the exact values. *)
Record Box := mkBox { top : Q; clientHeight : Z }.

Definition selector : string := "js-static".
Definition notStickyClass : string := "is-not-sticky".
Definition bottomClass : string := "is-bottom".

(** [q > 0] *)
Definition positive (q : Q) : bool := (0 <? QArith_base.Qnum q)%Z.

(** [classList.add] and [classList.remove]. *)
Definition add (t : string) (c : list string) : list string :=
  if bool_decide (t ∈ c) then c else c ++ [t].

Definition remove (t : string) (c : list string) : list string :=
  filter (fun x => x ≠ t) c.

(** l. 689-709, on the class list of the sticky element; [None] for the
    parent is an element without parent element, on which the function
    raises, and [None] as a result is that TypeError. *)
Definition calcWindowPos (innerHeight : Z) (parentElement : option Box)
    (classList : list string) : option (list string) :=
  match parentElement with
  | Some parent =>
      let elemTop := top parent in
      let isPastBottom :=
        positive
          (QArith_base.Qminus
             (QArith_base.Qminus (QArith_base.inject_Z innerHeight)
                (QArith_base.inject_Z (clientHeight parent)))
             (top parent)) in
      let classList :=
        if positive elemTop then add notStickyClass classList
        else remove notStickyClass classList in
      Some (if isPastBottom then add bottomClass classList
            else remove bottomClass classList)
  | None => None
  end.

End StaticColumn.

(** ** The language observer of [src/js/default.js] *)

Module TranslateElement.

(** The part of the page the observer works on.  The observer is
    registered on the [html] element for all its attributes, so that every
    [setAttribute] on that element queues a record for it. *)
Record Page := mkPage {
  lang : string;                       (* [html.lang] *)
  direction : option string;           (* the attribute of [html] *)
  control_value : option (option string);
                                       (* the select, if there is one: the
                                          last value given to it *)
  STYLESHEETS : option (list string);  (* [window.STYLESHEETS], or undefined *)
  stylesheet : option (option string); (* [href] of the link, if there is one *)
  anchors : list bool;                 (* per link: [click] is a listener *)
  records : list string                (* attribute names of queued records *)
}.

Inductive Outcome :=
  | Done (p : Page)
  | TypeError (p : Page).

Definition rtl : list string := ["ar"; "ur"].
Definition restore : list string := ["auto"; "en"].
(** [TranslateElement.maps['zh-hant']] *)
Definition maps_zh_hant : string := "zh-CN".

(** [xs.includes(x)] *)
Definition includes (xs : list string) (x : string) : bool :=
  bool_decide (x ∈ xs).

(** l. 536-570 *)
Definition observer (mutations : list string) (p : Page) : Outcome :=
  let langs := List.filter (fun m => String.eqb m "lang") mutations in
  match langs with
  | [] => Done p
  | _ :: _ =>
      let lang := lang p in
      (* Update the select if the original language is restored *)
      let value := if includes restore lang then "restore" else lang in
      match control_value p with
      | None => TypeError p             (* [this.control] is null *)
      | Some _ =>
      (* Set reading direction of the document *)
      let dir := if includes rtl lang then "rtl" else "ltr" in
      let p := mkPage lang (Some dir) (Some (Some value)) (STYLESHEETS p)
                      (stylesheet p) (anchors p) (records p ++ ["direction"]) in
      (* Switch to the appropriate language stylesheet if it exists *)
      let slang := if String.eqb lang maps_zh_hant then "zh-hant" else lang in
      match STYLESHEETS p with
      | None => TypeError p
      | Some stylesheets =>
          let found :=
            List.filter (Toggle.contains ("style-" +:+ slang)) stylesheets in
          let latin :=
            List.filter (Toggle.contains "style-default") stylesheets in
          let switched :=
            match found with
            | s :: _ => Some s
            | [] => head latin
            end in
          match stylesheet p with
          | None => TypeError p
          | Some _ =>
              Done (mkPage lang (Some dir) (Some (Some value))
                      (STYLESHEETS p)
                      (Some (Some (default "undefined" switched)))
                      ((fun _ => negb (includes restore lang)) <$> anchors p)
                      (records p))
          end
      end
      end
  end.

(** One delivery: the queued records go to the observer together. *)
Definition deliver (p : Page) : Outcome :=
  match records p with
  | [] => Done p
  | rs => observer rs
            (mkPage (lang p) (direction p) (control_value p) (STYLESHEETS p)
                    (stylesheet p) (anchors p) [])
  end.

End TranslateElement.

(** * Properties *)

(** ** [createSlug] *)

Module SlugFacts.
Import Slug.

(** The hyphen is outside the kept class, so the strip pass deletes it. *)
Lemma hyphen_is_stripped : stripped "-" = true.
Proof. reflexivity. Qed.

(** Some runs of the spec's example. *)
Example createSlug_example :
  createSlug "Help With Anxiety" = "help-with-anxiety".
Proof. reflexivity. Qed.

Example createSlug_keeps_underscore :
  createSlug "3-2-1  Impact_x" = "321-impact_x".
Proof. reflexivity. Qed.

(** The last pass, [replace(/-+/g, '-')], never finds a run to collapse:
    the strip pass leaves no hyphen, and the pass on whitespace writes its
    hyphens one at a time. *)

Lemma hyphen_char c : hyphen c = true -> c = "-"%char.
Proof.
  unfold hyphen, code. intros H. apply N.eqb_eq in H.
  rewrite <- (ascii_N_embedding c), H. reflexivity.
Qed.

Fixpoint hyphen_free (s : string) : bool :=
  match s with
  | EmptyString => true
  | String c s' => negb (hyphen c) && hyphen_free s'
  end.

(** No hyphen follows a hyphen; [after] tells that the text follows
    one. *)
Fixpoint spaced (after : bool) (s : string) : bool :=
  match s with
  | EmptyString => true
  | String c s' =>
      if hyphen c then negb after && spaced true s' else spaced false s'
  end.

Lemma strip_hyphen_free in_run s :
  hyphen_free (replace_runs_from stripped "" in_run s) = true.
Proof.
  revert in_run. induction s as [| c s IH]; intros in_run; simpl;
    [reflexivity |].
  destruct (stripped c) eqn:Ec.
  - destruct in_run; apply IH.
  - simpl. rewrite IH, andb_true_r. apply negb_true_iff.
    destruct (hyphen c) eqn:Eh; [| reflexivity].
    apply hyphen_char in Eh. subst c. discriminate.
Qed.

Lemma white_pass_spaced in_run s :
  hyphen_free s = true ->
  spaced in_run (replace_runs_from white_space "-" in_run s) = true.
Proof.
  revert in_run. induction s as [| c s IH]; intros in_run Hs; simpl;
    [reflexivity |].
  simpl in Hs. apply andb_true_iff in Hs as [Hc Hs].
  apply negb_true_iff in Hc.
  destruct (white_space c).
  - destruct in_run; [apply IH, Hs |].
    change ("-" +:+ replace_runs_from white_space "-" true s)
      with (String "-" (replace_runs_from white_space "-" true s)).
    simpl. apply IH, Hs.
  - simpl. rewrite Hc. apply IH, Hs.
Qed.

Lemma hyphen_pass_idle in_run s :
  spaced in_run s = true -> replace_runs_from hyphen "-" in_run s = s.
Proof.
  revert in_run. induction s as [| c s IH]; intros in_run Hs; simpl;
    [reflexivity |].
  simpl in Hs. destruct (hyphen c) eqn:Ec.
  - apply andb_true_iff in Hs as [Hr Hs]. apply negb_true_iff in Hr.
    subst in_run. rewrite (IH true Hs).
    apply hyphen_char in Ec. subst c. reflexivity.
  - rewrite (IH false Hs). reflexivity.
Qed.

(** X4: the last pass, the one that collapses runs of hyphens, never
    changes anything: the strip pass has deleted every hyphen of the title
    and the separator pass writes one hyphen per run of white space. *)
Lemma last_pass_is_idle s :
  createSlug s
  = replace_runs white_space "-" (replace_runs stripped "" (toLowerCase s)).
Proof.
  unfold createSlug, replace_runs.
  apply hyphen_pass_idle, white_pass_spaced, strip_hyphen_free.
Qed.

(** C3: on the title "Help With Anxiety" a second application of
    [createSlug] changes the slug: the hyphens that the first application
    wrote for the spaces are deleted by the strip pass of the second. *)
Theorem createSlug_twice_differs :
  createSlug "Help With Anxiety" = "help-with-anxiety"
  /\ createSlug (createSlug "Help With Anxiety") = "helpwithanxiety"
  /\ createSlug (createSlug "Help With Anxiety")
     <> createSlug "Help With Anxiety".
Proof. split; [reflexivity | split; [reflexivity | discriminate]]. Qed.

(** *** What a slug looks like *)

(** Every character of [s] satisfies [p]. *)
Fixpoint all_chars (p : ascii -> bool) (s : string) : bool :=
  match s with
  | EmptyString => true
  | String c s' => p c && all_chars p s'
  end.

(** [s] without the characters of the class [C]. *)
Fixpoint remove (C : ascii -> bool) (s : string) : string :=
  match s with
  | EmptyString => EmptyString
  | String c s' => if C c then remove C s' else String c (remove C s')
  end.

(** The characters a slug is made of: [0-9], [a-z], [_] and [-]. *)
Definition slug_char (c : ascii) : bool :=
  in_ranges [("0", "9"); ("a", "z"); ("_", "_"); ("-", "-")]%char c.

(** Decides a statement about one character on the 256 of them. *)
Ltac each_char c :=
  destruct c as [[] [] [] [] [] [] [] []]; vm_compute; reflexivity.

Lemma lower_char_not_capital c : in_range "A" "Z" (lower_char c) = false.
Proof. each_char c. Qed.

Lemma kept_lower_is_slug_char c :
  implb (negb (in_range "A" "Z" c) && negb (stripped c)
         && negb (white_space c))
        (slug_char c) = true.
Proof. each_char c. Qed.

Lemma slug_char_lower c : implb (slug_char c) (Ascii.eqb (lower_char c) c) = true.
Proof. each_char c. Qed.

Lemma slug_char_stripped c :
  implb (slug_char c) (Bool.eqb (stripped c) (hyphen c)) = true.
Proof. each_char c. Qed.

Lemma slug_char_not_white c : implb (slug_char c) (negb (white_space c)) = true.
Proof. each_char c. Qed.

Lemma all_chars_app p s t :
  all_chars p (s +:+ t) = all_chars p s && all_chars p t.
Proof.
  induction s as [| c s IH]; [reflexivity |].
  change (String c s +:+ t) with (String c (s +:+ t)). simpl.
  rewrite IH, andb_assoc. reflexivity.
Qed.

Lemma all_chars_impl (p q : ascii -> bool) s :
  (forall c, p c = true -> q c = true) ->
  all_chars p s = true -> all_chars q s = true.
Proof.
  intros Hpq. induction s as [| c s IH]; simpl; [reflexivity |].
  rewrite !andb_true_iff. intros [Hc Hs]. split; [apply Hpq, Hc | apply IH, Hs].
Qed.

(** A pass only brings in the characters of its replacement. *)
Lemma all_chars_replace_runs (p q C : ascii -> bool) r in_run s :
  all_chars q s = true -> all_chars p r = true ->
  (forall c, q c = true -> C c = false -> p c = true) ->
  all_chars p (replace_runs_from C r in_run s) = true.
Proof.
  intros Hs Hr Hc. revert in_run Hs.
  induction s as [| c s IH]; intros in_run Hs; simpl; [reflexivity |].
  simpl in Hs. apply andb_true_iff in Hs as [Hq Hs].
  destruct (C c) eqn:Ec.
  - destruct in_run; [apply IH, Hs |].
    rewrite all_chars_app, Hr. apply IH, Hs.
  - simpl. rewrite (Hc c Hq Ec). apply IH, Hs.
Qed.

(** A pass that finds none of its characters changes nothing. *)
Lemma replace_runs_absent (C : ascii -> bool) r in_run s :
  all_chars (fun c => negb (C c)) s = true ->
  replace_runs_from C r in_run s = s.
Proof.
  revert in_run. induction s as [| c s IH]; intros in_run; simpl;
    [reflexivity |].
  rewrite andb_true_iff, negb_true_iff. intros [-> Hs].
  rewrite (IH false Hs). reflexivity.
Qed.

(** A pass whose replacement is empty deletes its characters. *)
Lemma replace_runs_empty (C : ascii -> bool) in_run s :
  replace_runs_from C "" in_run s = remove C s.
Proof.
  revert in_run. induction s as [| c s IH]; intros in_run; simpl;
    [reflexivity |].
  destruct (C c); [destruct in_run; apply IH |]. rewrite IH. reflexivity.
Qed.

Lemma toLowerCase_all_lower_case s : 
  all_chars (fun c => negb (in_range "A" "Z" c)) (toLowerCase s) = true.
Proof.
  induction s as [| c s IH]; simpl; [reflexivity |].
  rewrite lower_char_not_capital, IH. reflexivity.
Qed.

Lemma toLowerCase_app s t : toLowerCase (s +:+ t) = toLowerCase s +:+ toLowerCase t.
Proof.
  induction s as [| c s IH]; [reflexivity |].
  change (String c s +:+ t) with (String c (s +:+ t)). simpl.
  rewrite IH. reflexivity.
Qed.

Lemma remove_app C s t : remove C (s +:+ t) = remove C s +:+ remove C t.
Proof.
  induction s as [| c s IH]; [reflexivity |].
  change (String c s +:+ t) with (String c (s +:+ t)). simpl.
  destruct (C c); rewrite IH; reflexivity.
Qed.

Lemma remove_length C s : String.length (remove C s) <= String.length s.
Proof.
  induction s as [| c s IH]; simpl; [lia |]. destruct (C c); simpl; lia.
Qed.

Lemma remove_fixed C s :
  remove C s = s <-> all_chars (fun c => negb (C c)) s = true.
Proof.
  induction s as [| c s IH]; simpl; [tauto |].
  destruct (C c) eqn:Ec; simpl.
  - split; [| discriminate]. intros E.
    pose proof (remove_length C s) as Hl. rewrite E in Hl. simpl in Hl. lia.
  - rewrite <- IH. split; [intros [= E]; exact E | intros ->; reflexivity].
Qed.

Lemma remove_ext (p C D : ascii -> bool) s :
  (forall c, p c = true -> C c = D c) ->
  all_chars p s = true -> remove C s = remove D s.
Proof.
  intros H. induction s as [| c s IH]; simpl; [reflexivity |].
  rewrite andb_true_iff. intros [Hc Hs].
  rewrite (H c Hc), (IH Hs). reflexivity.
Qed.

Lemma all_chars_remove (p C : ascii -> bool) s :
  all_chars p s = true ->
  all_chars (fun c => p c && negb (C c)) (remove C s) = true.
Proof.
  induction s as [| c s IH]; simpl; [reflexivity |].
  rewrite andb_true_iff. intros [Hc Hs].
  destruct (C c) eqn:Ec; [apply IH, Hs |]. simpl.
  rewrite Hc, Ec, (IH Hs). reflexivity.
Qed.

Lemma toLowerCase_fixed s :
  all_chars slug_char s = true -> toLowerCase s = s.
Proof.
  induction s as [| c s IH]; simpl; [reflexivity |].
  rewrite andb_true_iff. intros [Hc Hs]. rewrite (IH Hs).
  pose proof (slug_char_lower c) as H. rewrite Hc in H. simpl in H.
  apply Ascii.eqb_eq in H. rewrite H. reflexivity.
Qed.

(** The text the last pass receives. *)
Definition separated (s : string) : string :=
  replace_runs white_space "-" (replace_runs stripped "" (toLowerCase s)).

Lemma createSlug_separated s : createSlug s = separated s.
Proof.
  unfold createSlug, separated, replace_runs.
  apply hyphen_pass_idle, white_pass_spaced, strip_hyphen_free.
Qed.

Lemma createSlug_slug_chars s : all_chars slug_char (createSlug s) = true.
Proof.
  rewrite createSlug_separated. unfold separated, replace_runs.
  eapply (all_chars_replace_runs slug_char
            (fun c => negb (in_range "A" "Z" c) && negb (stripped c)));
    [| reflexivity |].
  - eapply (all_chars_replace_runs _
              (fun c => negb (in_range "A" "Z" c)));
      [apply toLowerCase_all_lower_case | reflexivity |].
    intros c Hc Hs. rewrite Hc, Hs. reflexivity.
  - intros c Hc Hw. pose proof (kept_lower_is_slug_char c) as H.
    rewrite Hc, Hw in H. exact H.
Qed.

(** X1: a slug is made of digits, lower-case letters, underscores and
    hyphens only, and no hyphen in it follows another hyphen. *)
Theorem createSlug_shape s :
  all_chars slug_char (createSlug s) = true
  /\ spaced false (createSlug s) = true.
Proof.
  split; [apply createSlug_slug_chars |].
  rewrite createSlug_separated. unfold separated, replace_runs.
  apply white_pass_spaced, strip_hyphen_free.
Qed.

(** On a slug the first two passes delete the hyphens and the other two
    find nothing. *)
Lemma createSlug_of_slug t :
  all_chars slug_char t = true -> createSlug t = remove hyphen t.
Proof.
  intros Ht. rewrite createSlug_separated. unfold separated, replace_runs.
  rewrite (toLowerCase_fixed _ Ht), replace_runs_empty.
  rewrite (remove_ext slug_char stripped hyphen t); [| | exact Ht].
  - apply replace_runs_absent.
    eapply all_chars_impl; [| apply (all_chars_remove slug_char hyphen), Ht].
    intros c Hc. apply andb_true_iff in Hc as [Hc _].
    pose proof (slug_char_not_white c) as H. rewrite Hc in H. exact H.
  - intros c Hc. pose proof (slug_char_stripped c) as H. rewrite Hc in H.
    simpl in H. apply Bool.eqb_prop in H. exact H.
Qed.

(** X2: applied to a slug, [createSlug] deletes its hyphens and nothing
    else; a second application returns the slug exactly when the slug has
    no hyphen. *)
Theorem createSlug_again s :
  createSlug (createSlug s) = remove hyphen (createSlug s)
  /\ (createSlug (createSlug s) = createSlug s
      <-> hyphen_free (createSlug s) = true).
Proof.
  assert (E : createSlug (createSlug s) = remove hyphen (createSlug s))
    by apply createSlug_of_slug, createSlug_slug_chars.
  split; [exact E |]. rewrite E, remove_fixed.
  assert (Hfree : forall t, all_chars (fun c => negb (hyphen c)) t
                            = hyphen_free t).
  { induction t as [| c t IH]; simpl; [reflexivity |]. rewrite IH.
    reflexivity. }
  rewrite Hfree. tauto.
Qed.

(** X3: in a title of code units below 256, a character whose lower case
    the strip pass deletes leaves no trace, not even a separator: the slug
    is that of the title without it. *)
Theorem createSlug_drops_stripped s1 c s2 :
  stripped (lower_char c) = true ->
  createSlug (s1 +:+ String c s2) = createSlug (s1 +:+ s2).
Proof.
  intros Hc. unfold createSlug, replace_runs.
  rewrite !replace_runs_empty, !toLowerCase_app, !remove_app. simpl.
  rewrite Hc. reflexivity.
Qed.

Lemma createSlug_drops_stripped_witness :
  stripped (lower_char "-") = true
  /\ createSlug ("Drop" +:+ String "-" "in Centers")
     = createSlug ("Drop" +:+ "in Centers").
Proof.
  split; [reflexivity |].
  apply (createSlug_drops_stripped "Drop" "-" "in Centers"). reflexivity.
Defined.

End SlugFacts.

(** ** [Icons] *)

Module IconsFacts.
Import Icons.

(** The path the constructor fetches. *)
Definition resolved (p : option string) : string :=
  match p with
  | Some s => if String.eqb s "" then path else s
  | None => path
  end.

(** What the chain appends when no text reaches its last reaction. *)
Definition empty_sprite : Sprite :=
  mkSprite "undefined" [("aria-hidden", "true"); ("style", "display: none;")].

(** X5: when the fetch delivers the text of an OK response, that text is
    injected in a hidden container appended to the body and nothing is
    logged. *)
Lemma constructor_success fetch p pg r markup :
  fetch (resolved p) = Responded r -> ok r = true -> text r = BodyText markup ->
  constructor fetch p pg
  = (Fulfilled VUndefined,
     mkPage (console pg)
            (body pg ++ [mkSprite markup (attributes empty_sprite)])).
Proof.
  intros Hf Hok Ht. unfold constructor. fold (resolved p). rewrite Hf.
  unfold then_, catch_, start, on_response; simpl. rewrite Hok, Ht. reflexivity.
Qed.

(** C2: when the fetch ends in a non-OK response or in a network failure,
    one diagnostic is logged and the last reaction of the chain still runs:
    a container whose content is the text "undefined" is appended to the
    body. *)
Theorem failure_still_appends fetch p pg :
  failed (fetch (resolved p)) = true ->
  exists diagnostic,
    constructor fetch p pg
    = (Fulfilled VUndefined,
       mkPage (console pg ++ [diagnostic]) (body pg ++ [empty_sprite])).
Proof.
  intros Hfail. unfold constructor. fold (resolved p).
  destruct (fetch (resolved p)) as [r | reason]; simpl in Hfail.
  - exists (VResponse r). apply negb_true_iff in Hfail.
    unfold then_, catch_, start, on_response; simpl. rewrite Hfail. reflexivity.
  - exists (VError reason). reflexivity.
Qed.

Definition not_found : string -> Fetched :=
  fun _ => Responded (mkResponse false 404 (BodyText "Not Found")).

Lemma failure_still_appends_witness :
  failed (not_found (resolved None)) = true
  /\ exists diagnostic,
       constructor not_found None (mkPage [] [])
       = (Fulfilled VUndefined,
          mkPage ([] ++ [diagnostic]) ([] ++ [empty_sprite])).
Proof.
  split; [reflexivity |].
  apply (failure_still_appends not_found None (mkPage [] [])). reflexivity.
Defined.

Definition svg_sprite : string -> Fetched :=
  fun _ => Responded (mkResponse true 200 (BodyText "<svg></svg>")).

Lemma constructor_success_witness :
  constructor svg_sprite (Some "icons.svg") (mkPage [] [])
  = (Fulfilled VUndefined,
     mkPage [] [mkSprite "<svg></svg>" (attributes empty_sprite)]).
Proof.
  apply (constructor_success svg_sprite (Some "icons.svg") (mkPage [] [])
           (mkResponse true 200 (BodyText "<svg></svg>")) "<svg></svg>");
    reflexivity.
Defined.

(** X6: whatever the fetch does, also when reading the body of an OK
    response fails, the chain ends fulfilled, appends exactly one hidden
    container after the children the body already has, and logs at most one
    diagnostic; nothing is logged exactly when the text of an OK response
    arrived, which is then the content of the container, and after a
    diagnostic the content is the text "undefined". *)
Theorem constructor_always_appends fetch p pg :
  exists sprite log,
    constructor fetch p pg
    = (Fulfilled VUndefined, mkPage (console pg ++ log) (body pg ++ [sprite]))
    /\ attributes sprite = attributes empty_sprite
    /\ length log <= 1
    /\ (log = [] <->
        exists r markup,
          fetch (resolved p) = Responded r /\ ok r = true
          /\ text r = BodyText markup /\ innerHTML sprite = markup)
    /\ (log <> [] -> innerHTML sprite = "undefined").
Proof.
  unfold constructor. fold (resolved p).
  destruct (fetch (resolved p)) as [[[] st [markup | reason]] | reason].
  - exists (mkSprite markup (attributes empty_sprite)), [].
    rewrite app_nil_r. destruct pg. split; [reflexivity |].
    split; [reflexivity |]. split; [simpl; lia |]. split; [| congruence].
    split; [| reflexivity]. intros _. eexists _, markup.
    split; [reflexivity |]. split; [reflexivity |]. split; reflexivity.
  - exists empty_sprite, [VError reason]. split; [reflexivity |].
    split; [reflexivity |]. split; [simpl; lia |]. split; [| reflexivity].
    split; [discriminate |]. intros (r & m & [= <-] & _ & Ht & _).
    discriminate Ht.
  - exists empty_sprite, [VResponse (mkResponse false st (BodyText markup))].
    split; [reflexivity |]. split; [reflexivity |]. split; [simpl; lia |].
    split; [| reflexivity]. split; [discriminate |].
    intros (r & m & [= <-] & Hok & _). discriminate Hok.
  - exists empty_sprite, [VResponse (mkResponse false st (BodyError reason))].
    split; [reflexivity |]. split; [reflexivity |]. split; [simpl; lia |].
    split; [| reflexivity]. split; [discriminate |].
    intros (r & m & [= <-] & Hok & _). discriminate Hok.
  - exists empty_sprite, [VError reason]. split; [reflexivity |].
    split; [reflexivity |]. split; [simpl; lia |]. split; [| reflexivity].
    split; [discriminate |]. intros (r & m & [=] & _).
Qed.

End IconsFacts.

(** ** [Toggle] *)

Module ToggleFacts.
Import Toggle.

(** *** Running computations *)

Lemma run_bind {A B} (m : M A) (k : A -> M B) w :
  (m ≫= k) w
  = match m w with
    | Ret a w' => k a w'
    | Throw e w' => Throw e w'
    end.
Proof. reflexivity. Qed.

Lemma run_bind_Ret {A B} (m : M A) (k : A -> M B) w a w' :
  m w = Ret a w' -> (m ≫= k) w = k a w'.
Proof. intros H. rewrite run_bind, H. reflexivity. Qed.

Lemma run_bind_Throw {A B} (m : M A) (k : A -> M B) w e w' :
  m w = Throw e w' -> (m ≫= k) w = Throw e w'.
Proof. intros H. rewrite run_bind, H. reflexivity. Qed.

Lemma run_ret {A} (a : A) w : (mret a : M A) w = Ret a w.
Proof. reflexivity. Qed.

(** *** Computations that keep a relation between the window they start in
        and the window they end in, whether they return or raise *)

Definition keeps {A} (R : relation Window) (m : M A) : Prop :=
  forall w, R w (final (m w)).

Section Keeps.
Context (R : relation Window) `{!PreOrder R}.

Lemma keeps_ret {A} (a : A) : keeps R (mret a).
Proof. intros w. simpl. reflexivity. Qed.

Lemma keeps_throw {A} e : keeps R (@throw A e).
Proof. intros w. simpl. reflexivity. Qed.

Lemma keeps_gets {A} (f : Window -> A) : keeps R (gets f).
Proof. intros w. simpl. reflexivity. Qed.

Lemma keeps_bind {A B} (m : M A) (k : A -> M B) :
  keeps R m -> (forall a, keeps R (k a)) -> keeps R (m ≫= k).
Proof.
  intros Hm Hk w. rewrite run_bind. specialize (Hm w).
  destruct (m w) as [a w' | e w']; simpl in *; [| exact Hm].
  etransitivity; [exact Hm | apply Hk].
Qed.

Lemma keeps_forEach {A} (xs : list A) (f : A -> M unit) :
  (forall x, keeps R (f x)) -> keeps R (forEach xs f).
Proof.
  intros Hf. induction xs as [| x xs IH]; simpl.
  - apply keeps_ret.
  - apply keeps_bind; [apply Hf | intros _; exact IH].
Qed.

Lemma keeps_modify (f : Window -> Window) :
  (forall w, R w (f w)) -> keeps R (modify f).
Proof. intros Hf w. simpl. apply Hf. Qed.
End Keeps.

(** Computations that leave the window as it is. *)
Definition reads {A} (m : M A) : Prop := forall w, final (m w) = w.

Lemma reads_keeps {A} (R : relation Window) `{!Reflexive R} (m : M A) :
  reads m -> keeps R m.
Proof. intros Hm w. rewrite Hm. reflexivity. Qed.

Lemma reads_keeps_eq {A} (m : M A) : reads m <-> keeps (fun w w' => w' = w) m.
Proof. split; intros H w; apply H. Qed.

#[local] Instance same_window_preorder :
  PreOrder (fun w w' : Window => w' = w).
Proof. split; [intros w; reflexivity | intros a b c -> ->; reflexivity]. Qed.

Lemma reads_ret {A} (a : A) : reads (mret a).
Proof. intros w. reflexivity. Qed.

Lemma reads_throw {A} e : reads (@throw A e).
Proof. intros w. reflexivity. Qed.

Lemma reads_gets {A} (f : Window -> A) : reads (gets f).
Proof. intros w. reflexivity. Qed.

Lemma reads_bind {A B} (m : M A) (k : A -> M B) :
  reads m -> (forall a, reads (k a)) -> reads (m ≫= k).
Proof.
  rewrite !reads_keeps_eq. intros Hm Hk. apply keeps_bind; [apply _ | done |].
  intros a. apply reads_keeps_eq, Hk.
Qed.

Lemma reads_Ret {A} (m : M A) w a w' : reads m -> m w = Ret a w' -> w' = w.
Proof. intros Hm E. specialize (Hm w). rewrite E in Hm. exact Hm. Qed.

Lemma reads_Throw {A} (m : M A) w e w' :
  reads m -> m w = Throw e w' -> w' = w.
Proof. intros Hm E. specialize (Hm w). rewrite E in Hm. exact Hm. Qed.

Lemma reads_element_of v : reads (element_of v).
Proof.
  intros w. unfold element_of. destruct v; try reflexivity.
  destruct (elements w !! n); reflexivity.
Qed.

Lemma reads_toString v : reads (toString v).
Proof. intros w. unfold toString. destruct (ToString v); reflexivity. Qed.

Lemma reads_parsed sel : reads (parsed sel).
Proof. intros w. unfold parsed. destruct (parse_selector sel); reflexivity. Qed.

Lemma reads_self this : reads (self this).
Proof. intros w. unfold self. destruct (toggles w !! this); reflexivity. Qed.

Lemma reads_the_registry : reads the_registry.
Proof.
  intros w. unfold the_registry. destruct (TogglesCallback w); reflexivity.
Qed.

Lemma reads_the_list o : reads (the_list o).
Proof. destruct o; [apply reads_ret | apply reads_throw]. Qed.

(** One step of a proof of [reads m], by the shape of [m]. *)
Ltac reads_step :=
  lazymatch goal with
  | |- reads (mret _) => apply reads_ret
  | |- reads (throw _) => apply reads_throw
  | |- reads (gets _) => apply reads_gets
  | |- reads (_ ≫= _) => apply reads_bind; [| intros ?]
  | |- reads (match ?x with _ => _ end) => destruct x
  | |- reads _ =>
      first [ assumption | apply reads_element_of | apply reads_toString
            | apply reads_parsed | apply reads_self
            | apply reads_the_registry | apply reads_the_list ]
  end.

Ltac reads_all := repeat reads_step.

Lemma reads_this_settings this : reads (this_settings this).
Proof. unfold this_settings. reads_all. Qed.

Lemma reads_hasAttribute v name : reads (hasAttribute v name).
Proof. unfold hasAttribute. reads_all. Qed.

Lemma reads_getAttribute v name : reads (getAttribute v name).
Proof. unfold getAttribute. reads_all. Qed.

Lemma reads_classList_contains v t : reads (classList_contains v t).
Proof. unfold classList_contains. reads_all. Qed.

Lemma reads_document_querySelectorAll sel :
  reads (document_querySelectorAll sel).
Proof. unfold document_querySelectorAll. reads_all. Qed.

Lemma reads_document_querySelector sel : reads (document_querySelector sel).
Proof.
  unfold document_querySelector.
  apply reads_bind; [apply reads_document_querySelectorAll |].
  intros ns. apply reads_ret.
Qed.

Lemma reads_querySelectorAll v sel : reads (querySelectorAll v sel).
Proof. unfold querySelectorAll. reads_all. Qed.

Lemma reads_dataset v key : reads (dataset v key).
Proof. unfold dataset. reads_all. Qed.

Lemma reads_checkValidity v : reads (checkValidity v).
Proof. unfold checkValidity. reads_all. Qed.

Lemma reads_matches v sel : reads (matches v sel).
Proof. unfold matches. reads_all. Qed.

Lemma reads_isActive this v : reads (isActive this v).
Proof.
  unfold isActive. apply reads_bind; [apply reads_this_settings |].
  intros s. destruct (truthy (activeClass s));
    [apply reads_classList_contains | apply reads_ret].
Qed.

Lemma reads_getTarget this v : reads (getTarget this v).
Proof.
  unfold getTarget.
  repeat first
    [ apply reads_hasAttribute | apply reads_getAttribute
    | apply reads_document_querySelector | reads_step ].
Qed.

Lemma reads_getOthers this v : reads (getOthers this v).
Proof.
  unfold getOthers.
  repeat first
    [ apply reads_hasAttribute | apply reads_getAttribute
    | apply reads_document_querySelectorAll | reads_step ].
Qed.

Create HintDb reads.
Create HintDb keeps.

#[local] Hint Resolve reads_ret reads_throw reads_gets reads_element_of
  reads_toString reads_parsed reads_self reads_the_registry reads_the_list
  reads_this_settings reads_hasAttribute reads_getAttribute
  reads_classList_contains reads_document_querySelectorAll
  reads_document_querySelector reads_querySelectorAll reads_dataset
  reads_checkValidity reads_matches reads_isActive reads_getTarget
  reads_getOthers : reads.

(** One step of a proof of [keeps R m], by the shape of [m]. *)
Ltac keeps_step :=
  lazymatch goal with
  | |- keeps _ (mret _) => apply keeps_ret; apply _
  | |- keeps _ (throw _) => apply keeps_throw; apply _
  | |- keeps _ (gets _) => apply keeps_gets; apply _
  | |- keeps _ (modify _) => apply keeps_modify; intros ?
  | |- keeps _ (_ ≫= _) => apply keeps_bind; [apply _ | | intros ?]
  | |- keeps _ (forEach _ _) => apply keeps_forEach; [apply _ | intros ?]
  | |- keeps _ (match ?x with _ => _ end) => destruct x
  | |- keeps _ _ =>
      first [ solve [auto with keeps]
            | apply reads_keeps; [apply _ | solve [auto with reads]] ]
  end.

(** *** The settings are written by the constructor only *)

Definition same_settings (w w' : Window) : Prop :=
  settings <$> toggles w' = settings <$> toggles w.

#[local] Instance same_settings_preorder : PreOrder same_settings.
Proof.
  split; [intros w; reflexivity |].
  intros a b c Hab Hbc. unfold same_settings in *. congruence.
Qed.

Lemma keeps_settings_assign this f :
  (forall i, settings (f i) = settings i) ->
  keeps same_settings (assign this f).
Proof.
  intros Hf w. unfold assign. rewrite run_bind. unfold self.
  destruct (toggles w !! this) as [i |] eqn:E; simpl; [| reflexivity].
  unfold same_settings; simpl. rewrite list_fmap_insert, Hf.
  apply list_insert_id. rewrite list_lookup_fmap, E. reflexivity.
Qed.

Lemma keeps_settings_update_element n e :
  keeps same_settings (update_element n e).
Proof. intros w. reflexivity. Qed.

Lemma keeps_settings_addEventListener o t h :
  keeps same_settings (addEventListener o t h).
Proof. intros w. reflexivity. Qed.

Lemma keeps_settings_preventDefault ev :
  keeps same_settings (preventDefault ev).
Proof. intros w. reflexivity. Qed.

Lemma keeps_settings_pushState : keeps same_settings history_pushState.
Proof. intros w. reflexivity. Qed.

Lemma keeps_settings_set_hash v : keeps same_settings (set_location_hash v).
Proof.
  intros w. unfold set_location_hash, modify. cbv zeta.
  destruct (String.eqb _ _); reflexivity.
Qed.

#[local] Hint Resolve keeps_settings_update_element
  keeps_settings_addEventListener keeps_settings_preventDefault
  keeps_settings_pushState keeps_settings_set_hash : keeps.

Lemma keeps_settings_setAttribute v name value :
  keeps same_settings (setAttribute v name value).
Proof. unfold setAttribute. repeat keeps_step. Qed.

Lemma keeps_settings_removeAttribute v name :
  keeps same_settings (removeAttribute v name).
Proof. unfold removeAttribute. repeat keeps_step. Qed.

Lemma keeps_settings_classList_toggle v t :
  keeps same_settings (classList_toggle v t).
Proof. unfold classList_toggle. repeat keeps_step. Qed.

Lemma keeps_settings_focus v : keeps same_settings (focus v).
Proof. unfold focus. repeat keeps_step. reflexivity. Qed.

#[local] Hint Resolve keeps_settings_setAttribute
  keeps_settings_removeAttribute keeps_settings_classList_toggle
  keeps_settings_focus : keeps.

Lemma keeps_settings_toggleFocusable this ns :
  keeps same_settings (toggleFocusable this ns).
Proof. unfold toggleFocusable. repeat keeps_step. Qed.

Lemma keeps_settings_jumpTo this element target :
  keeps same_settings (jumpTo this element target).
Proof. unfold jumpTo. repeat keeps_step. Qed.

Lemma keeps_settings_toggle_classes this target :
  keeps same_settings (toggle_classes this target).
Proof. unfold toggle_classes. repeat keeps_step. Qed.

Lemma keeps_settings_toggle_target_aria this :
  keeps same_settings (toggle_target_aria this).
Proof. unfold toggle_target_aria. repeat keeps_step. Qed.

Lemma keeps_settings_toggle_element_aria this :
  keeps same_settings (toggle_element_aria this).
Proof. unfold toggle_element_aria. repeat keeps_step. Qed.

#[local] Hint Resolve keeps_settings_toggleFocusable keeps_settings_jumpTo
  keeps_settings_toggle_classes keeps_settings_toggle_target_aria
  keeps_settings_toggle_element_aria : keeps.

Section Settings.

Variable callback : HookId -> InstId -> M JSValue.

(** The caller's functions do not write the settings themselves. *)
Hypothesis callback_keeps :
  forall h this, keeps same_settings (callback h this).

Lemma keeps_settings_call f this :
  keeps same_settings (call callback f this).
Proof. unfold call. destruct f; try (apply keeps_throw; apply _). auto. Qed.

Hint Resolve keeps_settings_call : keeps.

Lemma keeps_settings_elementToggle this element target focusable :
  keeps same_settings (elementToggle callback this element target focusable).
Proof.
  unfold elementToggle.
  repeat first [ apply keeps_settings_assign; intros []; reflexivity
               | keeps_step ].
Qed.

Hint Resolve keeps_settings_elementToggle : keeps.

Lemma keeps_settings_toggle this event :
  keeps same_settings (toggle callback this event).
Proof. unfold toggle. repeat keeps_step. Qed.

Hint Resolve keeps_settings_toggle : keeps.

Lemma keeps_settings_change this event :
  keeps same_settings (change callback this event).
Proof. unfold change. repeat keeps_step. Qed.

Lemma keeps_settings_handle h event :
  keeps same_settings (handle callback h event).
Proof.
  unfold handle, click. destruct h.
  - auto with keeps.
  - pose proof keeps_settings_change.
    repeat first [ apply keeps_settings_assign; intros []; reflexivity
                 | keeps_step ].
  - repeat keeps_step.
Qed.

End Settings.

(** C9: after construction no operation of the class writes the settings:
    [click], [change], [toggle], [elementToggle], [toggleFocusable] and
    [jumpTo] end, by return or by exception, in a window where every
    Toggle object has the settings it had before.  The functions supplied
    by the caller are taken not to write them either. *)
Theorem settings_never_modified
    (callback : HookId -> InstId -> M JSValue)
    (callback_keeps : forall h this, keeps same_settings (callback h this))
    (this : InstId) (event : Event) (element target : JSValue)
    (nodes : list NodeId) :
  keeps same_settings (click callback this event)
  /\ keeps same_settings (change callback this event)
  /\ keeps same_settings (toggle callback this event)
  /\ keeps same_settings (elementToggle callback this element target nodes)
  /\ keeps same_settings (toggleFocusable this nodes)
  /\ keeps same_settings (jumpTo this element target).
Proof.
  repeat split.
  - apply keeps_settings_toggle, callback_keeps.
  - apply keeps_settings_change, callback_keeps.
  - apply keeps_settings_toggle, callback_keeps.
  - apply keeps_settings_elementToggle, callback_keeps.
  - apply keeps_settings_toggleFocusable.
  - apply keeps_settings_jumpTo.
Qed.

(** *** The constructor *)

(** The object [new Toggle(s)] creates. *)
Definition created (s : option (gmap string JSValue)) : Instance :=
  mkInstance (merged (default ∅ s))
             (or_else (own (default ∅ s) "element") (JBool false))
             JUndefined None None None.

Definition same_toggles (w w' : Window) : Prop := toggles w' = toggles w.

#[local] Instance same_toggles_preorder : PreOrder same_toggles.
Proof.
  split; [intros w; reflexivity |].
  intros a b c Hab Hbc. unfold same_toggles in *. congruence.
Qed.

Lemma keeps_toggles_addEventListener o t h :
  keeps same_toggles (addEventListener o t h).
Proof. intros w. reflexivity. Qed.

#[local] Hint Resolve keeps_toggles_addEventListener : keeps.

Lemma keeps_toggles_attach this : keeps same_toggles (attach this).
Proof. unfold attach. repeat keeps_step. Qed.

Lemma keeps_toggles_record this : keeps same_toggles (record this).
Proof. unfold record. repeat keeps_step. reflexivity. Qed.

Lemma create_registry_runs w :
  create_registry w
  = Ret tt (with_registry
              (Some (default (mkArray 0 ∅) (TogglesCallback w))) w).
Proof.
  unfold create_registry. rewrite run_bind. simpl.
  destruct w as [? ? ? [arr |] ? ? ? ? ? ?]; reflexivity.
Qed.

Lemma create_runs s w :
  create s w
  = Ret (length (toggles w)) (with_toggles (toggles w ++ [created s]) w).
Proof. reflexivity. Qed.

(** The window in which the listeners are attached: the registry exists
    and the new object follows the existing ones. *)
Definition allocated (s : option (gmap string JSValue)) (w : Window)
    : Window :=
  with_toggles (toggles w ++ [created s])
    (with_registry (Some (default (mkArray 0 ∅) (TogglesCallback w))) w).

Lemma constructor_runs s w :
  constructor s w
  = (attach (length (toggles w)) ;; record (length (toggles w)) ;;
     mret (length (toggles w))) (allocated s w).
Proof.
  unfold constructor. rewrite run_bind, create_registry_runs.
  rewrite run_bind, create_runs. reflexivity.
Qed.

Lemma keeps_toggles_listen this :
  keeps same_toggles (attach this ;; record this ;; mret this).
Proof.
  pose proof keeps_toggles_attach. pose proof keeps_toggles_record.
  repeat keeps_step.
Qed.

(** The constructor adds the new object after the existing ones, which it
    leaves as they are. *)
Lemma constructor_toggles s w :
  toggles (final (constructor s w)) = toggles w ++ [created s].
Proof. rewrite constructor_runs. apply keeps_toggles_listen. Qed.

Lemma constructor_returns_new s w this w' :
  constructor s w = Ret this w' -> this = length (toggles w).
Proof.
  rewrite constructor_runs.
  rewrite run_bind. destruct (attach _ _) as [[] w3 |]; [| discriminate].
  rewrite run_bind. destruct (record _ w3) as [[] w4 |]; [| discriminate].
  rewrite run_ret. congruence.
Qed.



(** *** Target resolution *)

(** C1 (as amended): [getTarget] resolves, in priority order, the element
    that [aria-controls] names through [#id] (or [null] when there is
    none); else the element that [href], read as a selector, selects; else
    [false].  With both attributes the [aria-controls] lookup is the
    result; the [href] lookup is evaluated before it and an exception it
    raises is the outcome. *)
Theorem getTarget_resolution (this : InstId) (n : NodeId) (e : Element)
    (w : Window) :
  elements w !! n = Some e ->
  getTarget this (JElem n) w
  = match attributes e !! "aria-controls", attributes e !! "href" with
    | Some c, Some h =>
        match document_querySelector h w with
        | Ret _ _ => document_querySelector ("#" +:+ c) w
        | Throw x w' => Throw x w'
        end
    | Some c, None => document_querySelector ("#" +:+ c) w
    | None, Some h => document_querySelector h w
    | None, None => Ret (JBool false) w
    end.
Proof.
  intros He. unfold getTarget, hasAttribute, getAttribute.
  rewrite !run_bind. unfold element_of at 1. rewrite He. cbv beta iota.
  rewrite run_ret.
  destruct (attributes e !! "href") as [h |] eqn:Eh.
  - rewrite bool_decide_true by eauto.
    rewrite !run_bind. unfold element_of at 1. rewrite He. cbv beta iota.
    rewrite run_ret, Eh. simpl text_of.
    destruct (document_querySelector h w) as [t w1 | x w1] eqn:Eq.
    + apply reads_Ret in Eq as ->; [| apply reads_document_querySelector].
      rewrite !run_bind. unfold element_of at 1. rewrite He. cbv beta iota.
      rewrite run_ret.
      destruct (attributes e !! "aria-controls") as [c |] eqn:Ec.
      * rewrite bool_decide_true by eauto.
        rewrite !run_bind. unfold element_of at 1. rewrite He.
        cbv beta iota. rewrite run_ret, Ec. simpl text_of.
        destruct (document_querySelector _ w); reflexivity.
      * rewrite bool_decide_false by (intros [? ?]; discriminate).
        reflexivity.
    + destruct (attributes e !! "aria-controls"); reflexivity.
  - rewrite bool_decide_false by (intros [? ?]; discriminate).
    rewrite run_bind, run_ret.
    rewrite !run_bind. unfold element_of at 1. rewrite He. cbv beta iota.
    rewrite run_ret.
    destruct (attributes e !! "aria-controls") as [c |] eqn:Ec.
    + rewrite bool_decide_true by eauto.
      rewrite !run_bind. unfold element_of at 1. rewrite He.
      cbv beta iota. rewrite run_ret, Ec. simpl text_of.
      destruct (document_querySelector _ w); reflexivity.
    + rewrite bool_decide_false by (intros [? ?]; discriminate).
      reflexivity.
Qed.

(** A trigger that carries both attributes, and the two elements they
    name. *)
Definition both_page : Window :=
  mkWindow
    [ mkElement "A" true None
        {[ "href" := "#first"; "aria-controls" := "second" ]} [] None;
      mkElement "DIV" true None {[ "id" := "first" ]} [] None;
      mkElement "DIV" true None {[ "id" := "second" ]} [] None ]
    [] [] None "/" "" "" 1 None [].

Lemma getTarget_resolution_witness :
  getTarget 0 (JElem 0) both_page
  = match document_querySelector "#first" both_page with
    | Ret _ _ => document_querySelector ("#" +:+ "second") both_page
    | Throw x w' => Throw x w'
    end.
Proof.
  exact (getTarget_resolution 0 0
           (mkElement "A" true None
              {[ "href" := "#first"; "aria-controls" := "second" ]} [] None)
           both_page eq_refl).
Defined.

(** C1 (as stated) fails on [both_page]: the trigger has an [href], which
    selects element 1, and the result is element 2, the one [aria-controls]
    names. *)
Lemma getTarget_href_is_overridden :
  hasAttribute (JElem 0) "href" both_page = Ret true both_page
  /\ document_querySelector "#first" both_page = Ret (JElem 1) both_page
  /\ getTarget 0 (JElem 0) both_page = Ret (JElem 2) both_page.
Proof. split; [| split]; vm_compute; reflexivity. Qed.

(** *** Running the primitive operations *)

Lemma element_of_runs n e w :
  elements w !! n = Some e -> element_of (JElem n) w = Ret (n, e) w.
Proof. intros He. unfold element_of. rewrite He. reflexivity. Qed.

Lemma self_runs this i w :
  toggles w !! this = Some i -> self this w = Ret i w.
Proof. intros Hi. unfold self. rewrite Hi. reflexivity. Qed.

Lemma this_settings_runs this i w :
  toggles w !! this = Some i -> this_settings this w = Ret (settings i) w.
Proof.
  intros Hi. unfold this_settings. rewrite run_bind, (self_runs _ i) by done.
  reflexivity.
Qed.

Lemma assign_runs this f i w :
  toggles w !! this = Some i ->
  assign this f w = Ret tt (with_toggles (<[this := f i]> (toggles w)) w).
Proof.
  intros Hi. unfold assign. rewrite run_bind, (self_runs _ i) by done.
  reflexivity.
Qed.

Lemma hasAttribute_runs n e name w :
  elements w !! n = Some e ->
  hasAttribute (JElem n) name w
  = Ret (bool_decide (is_Some (attributes e !! name))) w.
Proof.
  intros He. unfold hasAttribute.
  rewrite run_bind, (element_of_runs _ e) by done. reflexivity.
Qed.

Lemma getAttribute_runs n e name w :
  elements w !! n = Some e ->
  getAttribute (JElem n) name w = Ret (attributes e !! name) w.
Proof.
  intros He. unfold getAttribute.
  rewrite run_bind, (element_of_runs _ e) by done. reflexivity.
Qed.

(** *** The other triggers of a target *)

(** What [getOthers] computes, as a function of the elements alone. *)
Definition others_by (name : string) (value : string)
    (els : list Element) : Exception + list NodeId :=
  match parse_selector ("[" +:+ name +:+ "=" +:+ quoted value +:+ "]") with
  | Some sel => inr (select_all sel els)
  | None => inl Unsupported
  end.

Definition others_of (els : list Element) (v : JSValue)
    : Exception + list NodeId :=
  match v with
  | JElem n =>
      match els !! n with
      | Some e =>
          match attributes e !! "href" with
          | Some h => others_by "href" h els
          | None =>
              match attributes e !! "aria-controls" with
              | Some c => others_by "aria-controls" c els
              | None => inr []
              end
          end
      | None => inl TypeError
      end
  | _ => inl TypeError
  end.

Definition lifted {A} (r : Exception + A) : M A := fun w =>
  match r with
  | inr a => Ret a w
  | inl e => Throw e w
  end.

Lemma document_querySelectorAll_runs name value w :
  document_querySelectorAll ("[" +:+ name +:+ "=" +:+ quoted value +:+ "]") w
  = lifted (others_by name value (elements w)) w.
Proof.
  unfold document_querySelectorAll, others_by, parsed, lifted.
  rewrite run_bind. destruct (parse_selector _); reflexivity.
Qed.

Lemma getOthers_runs this v w :
  getOthers this v w = lifted (others_of (elements w) v) w.
Proof.
  unfold getOthers, others_of.
  destruct v as [| | | | | | |n];
    try (unfold hasAttribute; rewrite !run_bind; reflexivity).
  destruct (elements w !! n) as [e |] eqn:He;
    [| unfold hasAttribute, element_of; rewrite !run_bind, He; reflexivity].
  rewrite run_bind, (hasAttribute_runs _ e) by done.
  destruct (attributes e !! "href") as [h |] eqn:Eh.
  - rewrite bool_decide_true by eauto.
    rewrite !run_bind, (getAttribute_runs _ e) by done.
    rewrite Eh, run_ret. apply (document_querySelectorAll_runs "href").
  - rewrite bool_decide_false by (intros [? ?]; discriminate).
    rewrite !run_bind, (hasAttribute_runs _ e) by done.
    destruct (attributes e !! "aria-controls") as [c |] eqn:Ec.
    + rewrite bool_decide_true by eauto.
      rewrite !run_bind, (getAttribute_runs _ e) by done.
      rewrite Ec, run_ret.
      apply (document_querySelectorAll_runs "aria-controls").
    + rewrite bool_decide_false by (intros [? ?]; discriminate).
      reflexivity.
Qed.

Lemma getOthers_Ret this v w ns w' :
  getOthers this v w = Ret ns w' -> others_of (elements w) v = inr ns.
Proof.
  rewrite getOthers_runs. unfold lifted.
  destruct (others_of _ _); [discriminate | congruence].
Qed.

(** *** The guard *)

(** The fields [elementToggle] stores before anything else. *)
Definition stored (element target : JSValue) (others focusable : list NodeId)
    (i : Instance) : Instance :=
  mkInstance (settings i) element target (Some others) (Some focusable)
             (this_event i).

Definition store (this : InstId) (element target : JSValue)
    (others focusable : list NodeId) (i : Instance) (w : Window) : Window :=
  with_toggles (<[this := stored element target others focusable i]>
                  (toggles w)) w.

Section Guard.

Variable callback : HookId -> InstId -> M JSValue.

(** The first statements of [elementToggle], up to the guard. *)
Lemma elementToggle_stores this element target focusable i others w :
  toggles w !! this = Some i ->
  others_of (elements w) element = inr others ->
  elementToggle callback this element target focusable w
  = (s ← this_settings this;
     declined ← (if truthy (valid s)
                 then r ← call callback (valid s) this; mret (negb (truthy r))
                 else mret false);
     if declined : bool then mret tt
     else
       s ← this_settings this;
       (if truthy (before s) then call callback (before s) this ;; mret tt
        else mret tt) ;;
       toggle_classes this target ;;
       toggle_target_aria this ;;
       s ← this_settings this;
       (if truthy (Toggle.focusable s)
        then i ← self this;
             ns ← the_list (this_focusable i);
             toggleFocusable this ns
        else mret tt) ;;
       s ← this_settings this;
       (if truthy (jump s)
        then i ← self this;
             h ← hasAttribute (this_element i) "href";
             if h : bool
             then i ← self this;
                  jumpTo this (this_element i) (this_target i)
             else mret tt
        else mret tt) ;;
       toggle_element_aria this ;;
       s ← this_settings this;
       if truthy (after s) then call callback (after s) this ;; mret tt
       else mret tt)
      (store this element target others focusable i w).
Proof.
  intros Hi Ho. unfold elementToggle.
  assert (Hlt : this < length (toggles w)) by (eapply lookup_lt_Some; eauto).
  rewrite run_bind, (assign_runs _ _ i) by done.
  rewrite run_bind, (assign_runs _ _ (set_element element i))
    by (simpl; apply list_lookup_insert_eq; done).
  simpl toggles. rewrite list_insert_insert_eq.
  rewrite run_bind, getOthers_runs. simpl elements. rewrite Ho. simpl.
  rewrite run_bind,
    (assign_runs _ _ (set_target target (set_element element i)))
    by (simpl; apply list_lookup_insert_eq; done).
  simpl toggles. rewrite list_insert_insert_eq.
  rewrite run_bind,
    (assign_runs _ _
       (set_others others (set_target target (set_element element i))))
    by (simpl; apply list_lookup_insert_eq; done).
  simpl toggles. rewrite list_insert_insert_eq.
  reflexivity.
Qed.

End Guard.

(** C4 (as amended): when the configured guard returns a falsy value the
    transition is abandoned: [elementToggle] returns in the window the guard
    returned in, so no class, ARIA attribute or tabindex is written and
    neither hook runs.  The guard is called after the object's [element],
    [target], [others] and [focusable] fields have been overwritten with
    the values of this invocation; the elements are as before at that
    point. *)
Theorem declined_guard_aborts
    (callback : HookId -> InstId -> M JSValue)
    (this : InstId) (element target : JSValue) (focusable : list NodeId)
    (i : Instance) (others : list NodeId) (r : JSValue) (w w' : Window) :
  toggles w !! this = Some i ->
  getOthers this element w = Ret others w ->
  truthy (valid (settings i)) = true ->
  call callback (valid (settings i)) this
       (store this element target others focusable i w) = Ret r w' ->
  truthy r = false ->
  elementToggle callback this element target focusable w = Ret tt w'
  /\ elements (store this element target others focusable i w) = elements w
  /\ toggles (store this element target others focusable i w) !! this
     = Some (mkInstance (settings i) element target (Some others)
               (Some focusable) (this_event i)).
Proof.
  intros Hi Ho Hv Hcall Hr.
  assert (Hlt : this < length (toggles w)) by (eapply lookup_lt_Some; eauto).
  split; [| split; [reflexivity | apply list_lookup_insert_eq; done]].
  rewrite (elementToggle_stores _ _ _ _ _ i others)
    by eauto using getOthers_Ret.
  rewrite run_bind,
    (this_settings_runs _ (stored element target others focusable i))
    by (apply list_lookup_insert_eq; done).
  simpl settings. rewrite Hv.
  rewrite !run_bind, Hcall, run_ret, Hr. reflexivity.
Qed.

(** A trigger and its hidden panel. *)
Definition panel_elements : list Element :=
  [ mkElement "A" true None
      {[ "href" := "#panel"; "aria-expanded" := "false" ]} [] None;
    mkElement "DIV" true None
      {[ "id" := "panel"; "aria-hidden" := "true" ]} ["hidden"] None ].

Definition panel_page : Window :=
  mkWindow panel_elements [] [] None "/services" "" "" 1 None [].

(** A guard that declines every transition and touches nothing. *)
Definition refuse : HookId -> InstId -> M JSValue :=
  fun _ _ => mret (JBool false).

(** [panel_page] after [new Toggle({valid: refuse})]. *)
Definition guarded_page : Window :=
  final (constructor (Some {[ "valid" := JFun 0 ]}) panel_page).

Lemma declined_guard_aborts_witness :
  elementToggle refuse 0 (JElem 0) (JElem 1) [] guarded_page
  = Ret tt (store 0 (JElem 0) (JElem 1) [0] []
              (created (Some {[ "valid" := JFun 0 ]})) guarded_page)
  /\ elements (store 0 (JElem 0) (JElem 1) [0] []
                 (created (Some {[ "valid" := JFun 0 ]})) guarded_page)
     = elements guarded_page
  /\ toggles (store 0 (JElem 0) (JElem 1) [0] []
                (created (Some {[ "valid" := JFun 0 ]})) guarded_page) !! 0
     = Some (mkInstance (settings (created (Some {[ "valid" := JFun 0 ]})))
               (JElem 0) (JElem 1) (Some [0]) (Some [])
               (this_event (created (Some {[ "valid" := JFun 0 ]})))).
Proof.
  apply (declined_guard_aborts refuse 0 (JElem 0) (JElem 1) []
           (created (Some {[ "valid" := JFun 0 ]})) [0] (JBool false)
           guarded_page);
    vm_compute; reflexivity.
Defined.

(** C4 (as stated) fails on [guarded_page]: the guard returns [false] and
    the elements are untouched, but the object's [element], [target],
    [others] and [focusable] fields are not what they were before the
    invocation. *)
Lemma declined_guard_overwrites_fields :
  exists i i' w',
    toggles guarded_page !! 0 = Some i
    /\ refuse 0 0 (store 0 (JElem 0) (JElem 1) [0] [] i guarded_page)
       = Ret (JBool false) (store 0 (JElem 0) (JElem 1) [0] [] i guarded_page)
    /\ elementToggle refuse 0 (JElem 0) (JElem 1) [] guarded_page = Ret tt w'
    /\ elements w' = elements guarded_page
    /\ toggles w' !! 0 = Some i'
    /\ (this_element i, this_target i, this_others i, this_focusable i)
       = (JBool false, JUndefined, None, None)
    /\ (this_element i', this_target i', this_others i', this_focusable i')
       = (JElem 0, JElem 1, Some [0], Some [])
    /\ w' <> guarded_page.
Proof.
  eexists _, _, _.
  split; [vm_compute; reflexivity |].
  split; [reflexivity |].
  split; [vm_compute; reflexivity |].
  split; [reflexivity |].
  split; [reflexivity |].
  split; [reflexivity |].
  split; [reflexivity |].
  intros E. apply (f_equal (fun w => this_element <$> toggles w !! 0)) in E.
  vm_compute in E. discriminate.
Qed.

(** The accordion's [after] hook: it toggles a class on the trigger. *)
Definition expand : HookId -> InstId -> M JSValue :=
  fun _ this =>
    i ← self this;
    classList_toggle (this_element i) (JStr "is-expanded") ;;
    mret JUndefined.

(** [panel_page] after [new Toggle({after: expand})]. *)
Definition accordion_page : Window :=
  final (constructor (Some {[ "after" := JFun 0 ]}) panel_page).

Lemma expand_keeps_settings h this : keeps same_settings (expand h this).
Proof. unfold expand. repeat keeps_step. Qed.

Lemma settings_never_modified_witness :
  keeps same_settings (click expand 0 (mkEvent "click" (JElem 0)))
  /\ keeps same_settings (change expand 0 (mkEvent "click" (JElem 0)))
  /\ keeps same_settings (toggle expand 0 (mkEvent "click" (JElem 0)))
  /\ keeps same_settings (elementToggle expand 0 (JElem 0) (JElem 1) [])
  /\ keeps same_settings (toggleFocusable 0 [])
  /\ keeps same_settings (jumpTo 0 (JElem 0) (JElem 1)).
Proof.
  exact (settings_never_modified expand expand_keeps_settings 0
           (mkEvent "click" (JElem 0)) (JElem 0) (JElem 1) []).
Defined.

(** On the accordion page a click runs the whole transition, hook
    included, and the settings are those the constructor merged. *)
Example click_on_accordion :
  exists w,
    click expand 0 (mkEvent "click" (JElem 0)) accordion_page = Ret tt w
    /\ classList <$> elements w
       = [["active"; "is-expanded"]; ["active"]]
    /\ (attributes <$> elements w) !! 1
       = Some {[ "id" := "panel"; "aria-hidden" := "false";
                 "tabindex" := "0" ]}
    /\ settings <$> toggles w = [merged {[ "after" := JFun 0 ]}].
Proof.
  eexists. split; [vm_compute; reflexivity |].
  split; [reflexivity |]. split; [| reflexivity].
  vm_compute. reflexivity.
Qed.

(** *** What a transition may change *)

(** An element after operations that write only its classes and its
    attributes named in [W]. *)
Definition el_frame (W : list string) (e e' : Element) : Prop :=
  tagName e' = tagName e /\ attached e' = attached e
  /\ parentNode e' = parentNode e /\ validity e' = validity e
  /\ forall k, k ∉ W -> attributes e' !! k = attributes e !! k.

(** A window after such operations: the same Toggle objects, and element
    by element the same but for classes and the attributes in [W]. *)
Definition frame (W : list string) (w w' : Window) : Prop :=
  toggles w' = toggles w
  /\ Forall2 (el_frame W) (elements w) (elements w').

(** The class lists of all elements. *)
Definition classes (w : Window) : list (list string) :=
  classList <$> elements w.

(** The value of an attribute of a node, if both exist. *)
Definition attr (w : Window) (n : NodeId) (k : string) : option string :=
  elements w !! n ≫= fun e => attributes e !! k.

Lemma el_frame_refl W e : el_frame W e e.
Proof. repeat split. Qed.

Lemma el_frame_trans W e1 e2 e3 :
  el_frame W e1 e2 -> el_frame W e2 e3 -> el_frame W e1 e3.
Proof.
  intros (? & ? & ? & ? & Ha) (? & ? & ? & ? & Hb).
  repeat split; try congruence. intros k Hk. rewrite Hb, Ha; auto.
Qed.

Lemma el_frame_mono W W' e e' :
  W ⊆ W' -> el_frame W e e' -> el_frame W' e e'.
Proof.
  intros HW (? & ? & ? & ? & Ha). repeat split; try done.
  intros k Hk. apply Ha. intros Hin. apply Hk, HW, Hin.
Qed.

Lemma frame_refl W w : frame W w w.
Proof.
  split; [reflexivity |]. apply Forall2_same_length_lookup_2; [done |].
  intros i x y Hx Hy. rewrite Hx in Hy. injection Hy as <-.
  apply el_frame_refl.
Qed.

Lemma frame_trans W w1 w2 w3 :
  frame W w1 w2 -> frame W w2 w3 -> frame W w1 w3.
Proof.
  intros [T1 F1] [T2 F2]. split; [congruence |].
  eapply Forall2_trans; [| exact F1 | exact F2].
  intros e1 e2 e3. apply el_frame_trans.
Qed.

Lemma frame_mono W W' w w' : W ⊆ W' -> frame W w w' -> frame W' w w'.
Proof.
  intros HW [T F]. split; [done |].
  eapply Forall2_impl; [exact F |]. intros e e'. apply el_frame_mono, HW.
Qed.

Lemma frame_length W w w' :
  frame W w w' -> length (elements w') = length (elements w).
Proof. intros [_ F]. symmetry. eapply Forall2_length, F. Qed.

Lemma frame_lookup W w w' n e :
  frame W w w' -> elements w !! n = Some e ->
  exists e', elements w' !! n = Some e' /\ el_frame W e e'.
Proof. intros [_ F] He. eapply Forall2_lookup_l; eauto. Qed.

Lemma frame_toggles W w w' this :
  frame W w w' -> toggles w' !! this = toggles w !! this.
Proof. intros [T _]. rewrite T. reflexivity. Qed.

Lemma frame_attr W w w' n k :
  frame W w w' -> k ∉ W -> attr w' n k = attr w n k.
Proof.
  intros [_ F] Hk. unfold attr.
  destruct (elements w !! n) as [e |] eqn:He.
  - destruct (Forall2_lookup_l _ _ _ _ _ F He) as (e' & -> & Hf). simpl.
    apply Hf, Hk.
  - apply lookup_ge_None in He. rewrite (Forall2_length _ _ _ F) in He.
    apply lookup_ge_None in He. rewrite He. reflexivity.
Qed.

(** Writing one element. *)
Lemma frame_update W w n e e' :
  elements w !! n = Some e -> el_frame W e e' ->
  frame W w (with_elements (<[n := e']> (elements w)) w).
Proof.
  intros He Hf. split; [reflexivity |]. simpl.
  rewrite <- (list_insert_id (elements w) n e He) at 1.
  apply Forall2_insert; [| exact Hf].
  apply (frame_refl W w).
Qed.

Lemma classes_update w n e' :
  classes (with_elements (<[n := e']> (elements w)) w)
  = <[n := classList e']> (classes w).
Proof. unfold classes. simpl. apply list_fmap_insert. Qed.

Lemma classes_update_same w n e e' :
  elements w !! n = Some e -> classList e' = classList e ->
  classes (with_elements (<[n := e']> (elements w)) w) = classes w.
Proof.
  intros He Hc. rewrite classes_update, Hc. apply list_insert_id.
  unfold classes. rewrite list_lookup_fmap, He. reflexivity.
Qed.

Lemma attr_update w n e' n' k :
  n < length (elements w) ->
  attr (with_elements (<[n := e']> (elements w)) w) n' k
  = if decide (n = n') then attributes e' !! k else attr w n' k.
Proof.
  intros Hn. unfold attr. simpl. destruct (decide (n = n')) as [<- | Hne].
  - rewrite list_lookup_insert_eq by done. reflexivity.
  - rewrite list_lookup_insert_ne by done. reflexivity.
Qed.

(** *** Computations that return *)

(** [m] returns from [w], with a result and in a window that satisfy
    [Q]. *)
Definition runs {A} (m : M A) (w : Window) (Q : A -> Window -> Prop) : Prop :=
  exists a w', m w = Ret a w' /\ Q a w'.

Lemma runs_ret {A} (a : A) w (Q : A -> Window -> Prop) :
  Q a w -> runs (mret a) w Q.
Proof. intros H. exists a, w. split; [reflexivity | exact H]. Qed.

Lemma runs_bind {A B} (m : M A) (k : A -> M B) w Q :
  runs m w (fun a w' => runs (k a) w' Q) -> runs (m ≫= k) w Q.
Proof.
  intros (a & w' & Hm & b & w'' & Hk & HQ). exists b, w''.
  rewrite (run_bind_Ret _ _ _ _ _ Hm). split; assumption.
Qed.

Lemma runs_weaken {A} (m : M A) w (Q Q' : A -> Window -> Prop) :
  runs m w Q -> (forall a w', Q a w' -> Q' a w') -> runs m w Q'.
Proof. intros (a & w' & Hm & HQ) H. exists a, w'. auto. Qed.

Lemma runs_self this i w (Q : Instance -> Window -> Prop) :
  toggles w !! this = Some i -> Q i w -> runs (self this) w Q.
Proof. intros Hi HQ. exists i, w. rewrite (self_runs _ i) by done. auto. Qed.

Lemma runs_this_settings this i w (Q : Settings -> Window -> Prop) :
  toggles w !! this = Some i -> Q (settings i) w ->
  runs (this_settings this) w Q.
Proof.
  intros Hi HQ. exists (settings i), w.
  rewrite (this_settings_runs _ i) by done. auto.
Qed.

Lemma runs_the_list ns w (Q : list NodeId -> Window -> Prop) :
  Q ns w -> runs (the_list (Some ns)) w Q.
Proof. intros HQ. exists ns, w. auto. Qed.

Lemma runs_hasAttribute n e name w (Q : bool -> Window -> Prop) :
  elements w !! n = Some e ->
  Q (bool_decide (is_Some (attributes e !! name))) w ->
  runs (hasAttribute (JElem n) name) w Q.
Proof.
  intros He HQ. eexists _, w. rewrite (hasAttribute_runs _ e) by done. auto.
Qed.

Lemma runs_getAttribute n e name w (Q : option string -> Window -> Prop) :
  elements w !! n = Some e -> Q (attributes e !! name) w ->
  runs (getAttribute (JElem n) name) w Q.
Proof.
  intros He HQ. eexists _, w. rewrite (getAttribute_runs _ e) by done. auto.
Qed.

(** After [setAttribute]: the attribute has the value, and the rest is
    framed. *)
Lemma runs_setAttribute n e name value w (Q : unit -> Window -> Prop) :
  elements w !! n = Some e ->
  (forall w', frame [name] w w' -> classes w' = classes w ->
              attr w' n name = Some value -> Q tt w') ->
  runs (setAttribute (JElem n) name value) w Q.
Proof.
  intros He HQ. eexists tt, _. split.
  - unfold setAttribute. rewrite run_bind, (element_of_runs _ e) by done.
    reflexivity.
  - assert (Hn : n < length (elements w)) by (eapply lookup_lt_Some; eauto).
    apply HQ.
    + eapply frame_update; [exact He |]. repeat split. intros k Hk. simpl.
      apply lookup_insert_ne. set_solver.
    + eapply classes_update_same; [exact He | reflexivity].
    + rewrite attr_update by done. rewrite decide_True by done. simpl.
      apply lookup_insert_eq.
Qed.

Lemma runs_removeAttribute n e name w (Q : unit -> Window -> Prop) :
  elements w !! n = Some e ->
  (forall w', frame [name] w w' -> classes w' = classes w -> Q tt w') ->
  runs (removeAttribute (JElem n) name) w Q.
Proof.
  intros He HQ. eexists tt, _. split.
  - unfold removeAttribute. rewrite run_bind, (element_of_runs _ e) by done.
    reflexivity.
  - apply HQ.
    + eapply frame_update; [exact He |]. repeat split. intros k Hk. simpl.
      apply lookup_delete_ne. set_solver.
    + eapply classes_update_same; [exact He | reflexivity].
Qed.

(** A class token [classList.toggle] accepts. *)
Definition token_ok (t : string) : bool :=
  negb (String.eqb t "") && negb (has_token_space t).

Lemma runs_classList_toggle n e v t w (Q : unit -> Window -> Prop) :
  elements w !! n = Some e -> ToString v = Some t -> token_ok t = true ->
  (forall w', frame [] w w' ->
              classes w' = alter (toggle_token t) n (classes w) -> Q tt w') ->
  runs (classList_toggle (JElem n) v) w Q.
Proof.
  intros He Hv Ht HQ. apply andb_true_iff in Ht as [Ht1 Ht2].
  apply negb_true_iff in Ht1, Ht2.
  eexists tt, _. split.
  - unfold classList_toggle. rewrite run_bind, (element_of_runs _ e) by done.
    cbv beta iota. rewrite run_bind. unfold toString at 1. rewrite Hv.
    rewrite Ht1, Ht2. reflexivity.
  - apply HQ.
    + eapply frame_update; [exact He |]. repeat split.
    + rewrite classes_update. simpl. unfold classes.
      apply list_eq. intros j. destruct (decide (n = j)) as [<- | Hne].
      * rewrite list_lookup_insert_eq
          by (rewrite length_fmap; eapply lookup_lt_Some; eauto).
        rewrite list_lookup_alter_eq, list_lookup_fmap, He. reflexivity.
      * rewrite list_lookup_insert_ne, list_lookup_alter_ne by done.
        reflexivity.
Qed.

Lemma runs_classList_contains n e v t w (Q : bool -> Window -> Prop) :
  elements w !! n = Some e -> ToString v = Some t ->
  Q (bool_decide (t ∈ classList e)) w ->
  runs (classList_contains (JElem n) v) w Q.
Proof.
  intros He Hv HQ. eexists _, w. split; [| exact HQ].
  unfold classList_contains. rewrite run_bind, (element_of_runs _ e) by done.
  cbv beta iota. rewrite run_bind. unfold toString at 1. rewrite Hv.
  reflexivity.
Qed.

(** The operations on a node that exists, in terms of [attr] and
    [classes]. *)

Lemma node_exists w n :
  n < length (elements w) -> exists e, elements w !! n = Some e.
Proof. intros Hn. apply lookup_lt_is_Some in Hn as [e He]. eauto. Qed.

Lemma attr_lookup w n e k :
  elements w !! n = Some e -> attr w n k = attributes e !! k.
Proof. intros He. unfold attr. rewrite He. reflexivity. Qed.

(** [t] is a class of node [n]. *)
Definition has_class (cs : list (list string)) (n : NodeId) (t : string)
    : bool :=
  match cs !! n with
  | Some c => bool_decide (t ∈ c)
  | None => false
  end.

Lemma has_class_lookup w n e t :
  elements w !! n = Some e ->
  has_class (classes w) n t = bool_decide (t ∈ classList e).
Proof.
  intros He. unfold has_class, classes. rewrite list_lookup_fmap, He.
  reflexivity.
Qed.

Lemma runs_hasAttribute_at n name w (Q : bool -> Window -> Prop) :
  n < length (elements w) ->
  Q (bool_decide (is_Some (attr w n name))) w ->
  runs (hasAttribute (JElem n) name) w Q.
Proof.
  intros Hn HQ. destruct (node_exists _ _ Hn) as [e He].
  eapply runs_hasAttribute; [exact He |].
  rewrite <- (attr_lookup _ _ _ _ He). exact HQ.
Qed.

Lemma runs_getAttribute_at n name w (Q : option string -> Window -> Prop) :
  n < length (elements w) -> Q (attr w n name) w ->
  runs (getAttribute (JElem n) name) w Q.
Proof.
  intros Hn HQ. destruct (node_exists _ _ Hn) as [e He].
  eapply runs_getAttribute; [exact He |].
  rewrite <- (attr_lookup _ _ _ _ He). exact HQ.
Qed.

Lemma runs_setAttribute_at n name value w (Q : unit -> Window -> Prop) :
  n < length (elements w) ->
  (forall w', frame [name] w w' -> classes w' = classes w ->
              attr w' n name = Some value -> Q tt w') ->
  runs (setAttribute (JElem n) name value) w Q.
Proof.
  intros Hn HQ. destruct (node_exists _ _ Hn) as [e He].
  eapply runs_setAttribute; eauto.
Qed.

Lemma runs_removeAttribute_at n name w (Q : unit -> Window -> Prop) :
  n < length (elements w) ->
  (forall w', frame [name] w w' -> classes w' = classes w -> Q tt w') ->
  runs (removeAttribute (JElem n) name) w Q.
Proof.
  intros Hn HQ. destruct (node_exists _ _ Hn) as [e He].
  eapply runs_removeAttribute; eauto.
Qed.

Lemma runs_classList_toggle_at n v t w (Q : unit -> Window -> Prop) :
  n < length (elements w) -> ToString v = Some t -> token_ok t = true ->
  (forall w', frame [] w w' ->
              classes w' = alter (toggle_token t) n (classes w) -> Q tt w') ->
  runs (classList_toggle (JElem n) v) w Q.
Proof.
  intros Hn Hv Ht HQ. destruct (node_exists _ _ Hn) as [e He].
  eapply runs_classList_toggle; eauto.
Qed.

Lemma runs_classList_contains_at n v t w (Q : bool -> Window -> Prop) :
  n < length (elements w) -> ToString v = Some t ->
  Q (has_class (classes w) n t) w ->
  runs (classList_contains (JElem n) v) w Q.
Proof.
  intros Hn Hv HQ. destruct (node_exists _ _ Hn) as [e He].
  eapply runs_classList_contains; [exact He | exact Hv |].
  rewrite <- (has_class_lookup _ _ _ _ He). exact HQ.
Qed.

(** *** Class lists under a sequence of toggles *)

Lemma elem_of_toggle_token t c x :
  x ∈ toggle_token t c <-> (x = t /\ t ∉ c) \/ (x <> t /\ x ∈ c).
Proof.
  unfold toggle_token. case_bool_decide as Ht.
  - rewrite list_elem_of_filter. split.
    + intros [Hx Hin]. right. split; assumption.
    + intros [[-> Hn] | [Hx Hin]]; [contradiction | split; assumption].
  - rewrite elem_of_app, list_elem_of_singleton. split.
    + intros [Hin | ->]; [| left; split; [reflexivity | assumption]].
      right. split; [| assumption]. intros ->. contradiction.
    + intros [[-> _] | [_ Hin]]; [right; reflexivity | left; assumption].
Qed.

(** One toggle flips the membership of its token on its node, and no
    other. *)
Lemma has_class_alter cs n t n' t' :
  n < length cs ->
  has_class (alter (toggle_token t) n cs) n' t'
  = xorb (has_class cs n' t') (bool_decide (n' = n /\ t' = t)).
Proof.
  intros Hn. unfold has_class. destruct (decide (n' = n)) as [-> | Hne].
  - rewrite list_lookup_alter_eq.
    apply lookup_lt_is_Some in Hn as [c Hc]. rewrite Hc. simpl.
    destruct (decide (t' = t)) as [-> | Hnt].
    + rewrite (bool_decide_true (_ /\ _)) by done.
      destruct (decide (t ∈ c)) as [Hin | Hout].
      * rewrite (bool_decide_true (t ∈ c)) by done. simpl.
        apply bool_decide_false. rewrite elem_of_toggle_token. tauto.
      * rewrite (bool_decide_false (t ∈ c)) by done. simpl.
        apply bool_decide_true. rewrite elem_of_toggle_token. tauto.
    + rewrite (bool_decide_false (_ /\ _)) by tauto. rewrite xorb_false_r.
      apply bool_decide_ext. rewrite elem_of_toggle_token. tauto.
  - rewrite list_lookup_alter_ne by done.
    rewrite (bool_decide_false (_ /\ _)) by tauto.
    rewrite xorb_false_r. reflexivity.
Qed.

(** The toggles of a script, in order. *)
Definition apply_flips (fs : list (NodeId * string))
    (cs : list (list string)) : list (list string) :=
  foldl (fun cs f => alter (toggle_token (snd f)) (fst f) cs) cs fs.

(** Whether [(n, t)] is toggled an odd number of times. *)
Fixpoint flip_parity (fs : list (NodeId * string)) (n : NodeId) (t : string)
    : bool :=
  match fs with
  | [] => false
  | f :: fs' => xorb (bool_decide (n = fst f /\ t = snd f))
                     (flip_parity fs' n t)
  end.

Lemma apply_flips_length fs cs : length (apply_flips fs cs) = length cs.
Proof.
  revert cs. induction fs as [| f fs IH]; intros cs; simpl; [done |].
  rewrite IH. apply length_alter.
Qed.

Lemma apply_flips_app fs gs cs :
  apply_flips (fs ++ gs) cs = apply_flips gs (apply_flips fs cs).
Proof. apply foldl_app. Qed.

Lemma flip_parity_app fs gs n t :
  flip_parity (fs ++ gs) n t = xorb (flip_parity fs n t) (flip_parity gs n t).
Proof.
  induction fs as [| f fs IH]; simpl; [reflexivity |].
  rewrite IH, xorb_assoc. reflexivity.
Qed.

Lemma has_class_apply_flips fs cs n t :
  Forall (fun f => fst f < length cs) fs ->
  has_class (apply_flips fs cs) n t
  = xorb (has_class cs n t) (flip_parity fs n t).
Proof.
  revert cs. induction fs as [| f fs IH]; intros cs Hfs; simpl.
  - rewrite xorb_false_r. reflexivity.
  - apply Forall_cons in Hfs as [Hf Hfs].
    rewrite IH by (rewrite length_alter; exact Hfs).
    rewrite has_class_alter by exact Hf.
    rewrite xorb_assoc. reflexivity.
Qed.

(** Played twice, a script restores every membership. *)
Lemma has_class_apply_flips_twice fs cs n t :
  Forall (fun f => fst f < length cs) fs ->
  has_class (apply_flips fs (apply_flips fs cs)) n t = has_class cs n t.
Proof.
  intros Hfs.
  rewrite has_class_apply_flips
    by (rewrite apply_flips_length; exact Hfs).
  rewrite has_class_apply_flips by exact Hfs.
  rewrite xorb_assoc, xorb_nilpotent, xorb_false_r. reflexivity.
Qed.

(** *** The phases of a transition *)

(** The token a class setting toggles, when the setting is truthy. *)
Definition class_token (v : JSValue) : option string :=
  if truthy v then ToString v else None.

(** A class setting the DOM accepts: it has a text, and when it is truthy
    the text is a valid token. *)
Definition class_ok (v : JSValue) : bool :=
  match ToString v with
  | Some t => negb (truthy v) || token_ok t
  | None => false
  end.

(** The toggles of l. 311-323, in order. *)
Definition transition_flips (a i : option string) (el tgt : NodeId)
    (os : list NodeId) : list (NodeId * string) :=
  match a with
  | Some a =>
      (el, a) :: (tgt, a) :: ((fun o => (o, a)) <$> filter (fun o => o ≠ el) os)
  | None => []
  end
  ++ match i with
     | Some i => [(tgt, i)]
     | None => []
     end.

(** The fields of the object [this] during a transition from the trigger
    [el] on the target [tgt]. *)
Definition during (this : InstId) (inst : Instance) (el tgt : NodeId)
    (os foc : list NodeId) (w : Window) : Prop :=
  toggles w !! this = Some inst
  /\ this_element inst = JElem el /\ this_target inst = JElem tgt
  /\ this_others inst = Some os /\ this_focusable inst = Some foc.

Lemma during_frame W this inst el tgt os foc w w' :
  frame W w w' -> during this inst el tgt os foc w ->
  during this inst el tgt os foc w'.
Proof.
  intros F (Hi & ?). split; [| assumption].
  rewrite (frame_toggles _ _ _ _ F). exact Hi.
Qed.

Lemma all_below_frame W w w' (ns : list NodeId) :
  frame W w w' ->
  Forall (fun n => n < length (elements w)) ns ->
  Forall (fun n => n < length (elements w')) ns.
Proof. intros F. rewrite (frame_length _ _ _ F). done. Qed.

Lemma class_ok_token v t :
  class_ok v = true -> class_token v = Some t ->
  ToString v = Some t /\ token_ok t = true.
Proof.
  unfold class_ok, class_token. destruct (truthy v); [| discriminate].
  destruct (ToString v) as [t' |]; [| discriminate]. simpl.
  intros Hok [= <-]. split; [reflexivity | exact Hok].
Qed.

Lemma toggle_others_runs this inst el tgt os foc v a ns w :
  during this inst el tgt os foc w ->
  ToString v = Some a -> token_ok a = true ->
  Forall (fun n => n < length (elements w)) ns ->
  runs (forEach ns (fun other =>
          i ← self this;
          if bool_decide (JElem other ≠ this_element i)
          then classList_toggle (JElem other) v
          else mret tt)) w
       (fun _ w' =>
          frame [] w w'
          /\ classes w'
             = apply_flips ((fun o => (o, a)) <$> filter (fun o => o ≠ el) ns)
                           (classes w)).
Proof.
  intros D Hv Ha. revert w D.
  induction ns as [| o ns IH]; intros w D Hns; simpl.
  - apply runs_ret. split; [apply frame_refl | reflexivity].
  - apply Forall_cons in Hns as [Ho Hns].
    destruct D as (Hi & Hel & Htg & Hos & Hfo).
    apply runs_bind, runs_bind. eapply runs_self; [exact Hi |].
    rewrite Hel. destruct (decide (o = el)) as [-> | Hne].
    + rewrite bool_decide_false by (intros H; apply H; reflexivity).
      apply runs_ret.
      rewrite filter_cons_False by (intros H; apply H; reflexivity).
      apply IH; [repeat split; assumption | exact Hns].
    + rewrite bool_decide_true by congruence.
      eapply runs_classList_toggle_at; [exact Ho | exact Hv | exact Ha |].
      intros w1 F1 C1.
      rewrite filter_cons_True by exact Hne. simpl.
      eapply runs_weaken.
      * apply IH.
        -- eapply during_frame; [exact F1 | repeat split; assumption].
        -- eapply all_below_frame; [exact F1 | exact Hns].
      * intros _ w2 [F2 C2]. split; [eapply frame_trans; eassumption |].
        rewrite C2, C1. reflexivity.
Qed.

Lemma toggle_classes_runs this inst el tgt os foc w :
  during this inst el tgt os foc w ->
  el < length (elements w) -> tgt < length (elements w) ->
  Forall (fun n => n < length (elements w)) os ->
  class_ok (activeClass (settings inst)) = true ->
  class_ok (inactiveClass (settings inst)) = true ->
  runs (toggle_classes this (JElem tgt)) w
       (fun _ w' =>
          frame [] w w'
          /\ classes w'
             = apply_flips
                 (transition_flips
                    (class_token (activeClass (settings inst)))
                    (class_token (inactiveClass (settings inst)))
                    el tgt os)
                 (classes w)).
Proof.
  intros D Hel Htg Hos Ha Hi. pose proof D as (Hinst & He & Ht & Ho & Hf).
  unfold toggle_classes, transition_flips.
  apply runs_bind. eapply runs_this_settings; [exact Hinst |].
  apply runs_bind.
  assert (Hfirst :
    runs (if truthy (activeClass (settings inst))
          then
            i ← self this;
            classList_toggle (this_element i) (activeClass (settings inst)) ;;
            i0 ← self this;
            classList_toggle (this_target i0) (activeClass (settings inst)) ;;
            i1 ← self this;
            others ← the_list (this_others i1);
            forEach others (fun other =>
              i2 ← self this;
              if bool_decide (JElem other ≠ this_element i2)
              then classList_toggle (JElem other) (activeClass (settings inst))
              else mret tt)
          else mret tt) w
      (fun _ w' =>
         frame [] w w'
         /\ classes w'
            = apply_flips
                match class_token (activeClass (settings inst)) with
                | Some a =>
                    (el, a) :: (tgt, a)
                    :: ((fun o => (o, a)) <$> filter (fun o => o ≠ el) os)
                | None => []
                end (classes w))).
  { destruct (class_token (activeClass (settings inst))) as [a |] eqn:Ea.
    - destruct (class_ok_token _ _ Ha Ea) as [Hva Hta].
      unfold class_token in Ea.
      destruct (truthy (activeClass (settings inst))); [| discriminate].
      apply runs_bind. eapply runs_self; [exact Hinst |].
      apply runs_bind. rewrite He.
      eapply runs_classList_toggle_at; [exact Hel | exact Hva | exact Hta |].
      intros w1 F1 C1.
      pose proof (during_frame _ _ _ _ _ _ _ _ _ F1 D) as D1.
      apply runs_bind. eapply runs_self; [apply D1 |].
      apply runs_bind. rewrite Ht.
      eapply runs_classList_toggle_at;
        [rewrite (frame_length _ _ _ F1); exact Htg | exact Hva | exact Hta |].
      intros w2 F2 C2.
      pose proof (during_frame _ _ _ _ _ _ _ _ _ F2 D1) as D2.
      apply runs_bind. eapply runs_self; [apply D2 |].
      apply runs_bind. rewrite Ho. apply runs_the_list.
      eapply runs_weaken.
      + eapply toggle_others_runs; [exact D2 | exact Hva | exact Hta |].
        eapply all_below_frame; [exact F2 |].
        eapply all_below_frame; [exact F1 | exact Hos].
      + intros _ w3 [F3 C3]. split.
        * eapply frame_trans; [| exact F3].
          eapply frame_trans; eassumption.
        * rewrite C3, C2, C1. reflexivity.
    - unfold class_token in Ea.
      destruct (truthy (activeClass (settings inst))).
      + unfold class_ok in Ha. rewrite Ea in Ha. discriminate.
      + apply runs_ret. split; [apply frame_refl | reflexivity]. }
  eapply runs_weaken; [exact Hfirst |]. clear Hfirst.
  intros _ w1 [F1 C1]. cbv beta.
  pose proof (during_frame _ _ _ _ _ _ _ _ _ F1 D) as D1.
  apply runs_bind. eapply runs_this_settings; [apply D1 |].
  destruct (class_token (inactiveClass (settings inst))) as [i |] eqn:Ei.
  - destruct (class_ok_token _ _ Hi Ei) as [Hvi Hti].
    unfold class_token in Ei.
    destruct (truthy (inactiveClass (settings inst))); [| discriminate].
    eapply runs_classList_toggle_at;
      [rewrite (frame_length _ _ _ F1); exact Htg | exact Hvi | exact Hti |].
    intros w2 F2 C2. split; [eapply frame_trans; eassumption |].
    rewrite apply_flips_app, C2, C1. reflexivity.
  - unfold class_token in Ei.
    destruct (truthy (inactiveClass (settings inst))).
    + unfold class_ok in Hi. rewrite Ei in Hi. discriminate.
    + apply runs_ret. split; [exact F1 |].
      rewrite app_nil_r. exact C1.
Qed.

(** The value of a flag attribute after l. 333-334, l. 359-360. *)
Definition aria_after (value : option string) : option string :=
  if present value then Some (flipped value) else value.

Lemma toggle_target_aria_runs this inst el tgt os foc w :
  during this inst el tgt os foc w ->
  tgt < length (elements w) ->
  runs (toggle_target_aria this) w
       (fun _ w' =>
          frame ["aria-hidden"] w w' /\ classes w' = classes w
          /\ attr w' tgt "aria-hidden"
             = aria_after (attr w tgt "aria-hidden")).
Proof.
  intros D Htg. pose proof D as (Hinst & He & Ht & Ho & Hf).
  unfold toggle_target_aria, aria_after. simpl.
  apply runs_bind, runs_bind. eapply runs_self; [exact Hinst |].
  apply runs_bind. rewrite Ht.
  eapply runs_getAttribute_at; [exact Htg |].
  destruct (present (attr w tgt "aria-hidden")).
  - apply runs_bind. eapply runs_self; [exact Hinst |]. rewrite Ht.
    eapply runs_setAttribute_at; [exact Htg |].
    intros w1 F1 C1 A1. apply runs_ret. auto.
  - apply runs_ret, runs_ret. split; [apply frame_refl | auto].
Qed.

Lemma toggleFocusable_runs this ns w :
  Forall (fun n => n < length (elements w)) ns ->
  runs (toggleFocusable this ns) w
       (fun _ w' => frame ["tabindex"] w w' /\ classes w' = classes w).
Proof.
  unfold toggleFocusable. revert w.
  induction ns as [| n ns IH]; intros w Hns; simpl.
  - apply runs_ret. split; [apply frame_refl | reflexivity].
  - apply Forall_cons in Hns as [Hn Hns].
    assert (Hrest : forall w1,
      frame ["tabindex"] w w1 -> classes w1 = classes w ->
      runs (forEach ns (fun element =>
              tabindex ← getAttribute (JElem element) "tabindex";
              if bool_decide (tabindex = Some "-1")
              then
                dataDefault ← getAttribute (JElem element)
                                ("data-" +:+ Static.namespace +:+ "-tabindex");
                if present dataDefault
                then setAttribute (JElem element) "tabindex"
                       (text_of dataDefault)
                else removeAttribute (JElem element) "tabindex"
              else setAttribute (JElem element) "tabindex" "-1")) w1
        (fun _ w' => frame ["tabindex"] w w' /\ classes w' = classes w)).
    { intros w1 F1 C1. eapply runs_weaken.
      - apply IH. eapply all_below_frame; [exact F1 | exact Hns].
      - intros _ w2 [F2 C2]. split; [eapply frame_trans; eassumption |].
        congruence. }
    apply runs_bind, runs_bind.
    eapply runs_getAttribute_at; [exact Hn |].
    destruct (bool_decide (attr w n "tabindex" = Some "-1")).
    + apply runs_bind. eapply runs_getAttribute_at; [exact Hn |].
      destruct (present _).
      * eapply runs_setAttribute_at; [exact Hn |].
        intros w1 F1 C1 _. apply Hrest; assumption.
      * eapply runs_removeAttribute_at; [exact Hn |].
        intros w1 F1 C1. apply Hrest; assumption.
    + eapply runs_setAttribute_at; [exact Hn |].
      intros w1 F1 C1 _. apply Hrest; assumption.
Qed.

(** The operations on the location and on the focus write no element. *)
Lemma frame_with_location W w h n : frame W w (with_location h n w).
Proof. apply (frame_refl W w). Qed.

Lemma frame_with_focus W w f : frame W w (with_focus f w).
Proof. apply (frame_refl W w). Qed.

Lemma set_location_hash_is v w :
  exists h n, set_location_hash v w = Ret tt (with_location h n w).
Proof.
  unfold set_location_hash, modify. cbv zeta.
  destruct (String.eqb _ _).
  - exists (hash w), (history_length w). destruct w; reflexivity.
  - eexists _, _. reflexivity.
Qed.

Lemma jumpTo_runs this inst el tgt w :
  toggles w !! this = Some inst ->
  el < length (elements w) -> tgt < length (elements w) ->
  class_ok (activeClass (settings inst)) = true ->
  runs (jumpTo this (JElem el) (JElem tgt)) w
       (fun _ w' => frame ["tabindex"] w w' /\ classes w' = classes w).
Proof.
  intros Hinst Hel Htg Ha. unfold jumpTo.
  unfold class_ok in Ha.
  destruct (ToString (activeClass (settings inst))) as [a |] eqn:Ea;
    [| discriminate].
  apply runs_bind. eexists tt, _. split; [reflexivity |].
  set (w0 := with_location "" (S (history_length w)) w).
  assert (F0 : frame ["tabindex"] w w0) by apply frame_with_location.
  apply runs_bind. eapply runs_this_settings; [exact Hinst |].
  apply runs_bind.
  eapply runs_classList_contains_at; [exact Htg | exact Ea |].
  destruct (has_class (classes w0) tgt a).
  - apply runs_bind. eapply runs_getAttribute_at; [exact Hel |].
    apply runs_bind.
    destruct (set_location_hash_is (text_of (attr w0 el "href")) w0)
      as (h & k & Eh).
    exists tt, (with_location h k w0). split; [exact Eh |].
    set (w1 := with_location h k w0).
    apply runs_bind.
    eapply (runs_setAttribute_at tgt "tabindex" "0" w1); [exact Htg |].
    intros w2 F2 C2 _.
    assert (Htg2 : tgt < length (elements w2))
      by (rewrite (frame_length _ _ _ F2); exact Htg).
    destruct (node_exists _ _ Htg2) as [e2 He2].
    unfold runs, focus. rewrite run_bind, (element_of_runs _ e2) by done.
    destruct (attached e2).
    + eexists tt, _. split; [reflexivity |]. split; [| exact C2].
      eapply frame_trans; [exact F2 |]. apply frame_with_focus.
    + exists tt, w2. split; [reflexivity |]. split; assumption.
  - eapply (runs_removeAttribute_at tgt "tabindex" w0); [exact Htg |].
    intros w1 F1 C1. split; assumption.
Qed.

Lemma aria_others_runs this inst el tgt os foc name value ns w :
  during this inst el tgt os foc w ->
  Forall (fun n => n < length (elements w)) ns ->
  runs (forEach ns (fun other =>
          i ← self this;
          if bool_decide (JElem other ≠ this_element i)
          then
            own ← getAttribute (JElem other) name;
            if present own
            then setAttribute (JElem other) name (flipped value)
            else mret tt
          else mret tt)) w
       (fun _ w' => frame [name] w w' /\ classes w' = classes w).
Proof.
  revert w. induction ns as [| o ns IH]; intros w D Hns; simpl.
  - apply runs_ret. split; [apply frame_refl | reflexivity].
  - apply Forall_cons in Hns as [Ho Hns].
    pose proof D as (Hinst & He & Ht & Hos & Hf).
    apply runs_bind, runs_bind. eapply runs_self; [exact Hinst |].
    assert (Hskip :
      runs (forEach ns (fun other =>
              i ← self this;
              if bool_decide (JElem other ≠ this_element i)
              then
                own ← getAttribute (JElem other) name;
                if present own
                then setAttribute (JElem other) name (flipped value)
                else mret tt
              else mret tt)) w
        (fun _ w' => frame [name] w w' /\ classes w' = classes w))
      by (apply IH; assumption).
    destruct (bool_decide (JElem o ≠ this_element inst)).
    + apply runs_bind. eapply runs_getAttribute_at; [exact Ho |].
      destruct (present _).
      * eapply runs_setAttribute_at; [exact Ho |].
        intros w1 F1 C1 _. eapply runs_weaken.
        -- apply IH; [eapply during_frame; eassumption |].
           eapply all_below_frame; [exact F1 | exact Hns].
        -- intros _ w2 [F2 C2].
           split; [eapply frame_trans; eassumption | congruence].
      * apply runs_ret. exact Hskip.
    + apply runs_ret. exact Hskip.
Qed.

Lemma aria_role_runs this inst el tgt os foc name w :
  during this inst el tgt os foc w ->
  el < length (elements w) ->
  Forall (fun n => n < length (elements w)) os ->
  runs (i ← self this;
        value ← getAttribute (this_element i) name;
        (if present value
         then i ← self this;
              setAttribute (this_element i) name (flipped value)
         else mret tt) ;;
        i ← self this;
        others ← the_list (this_others i);
        forEach others (fun other =>
          i ← self this;
          if bool_decide (JElem other ≠ this_element i)
          then
            own ← getAttribute (JElem other) name;
            if present own
            then setAttribute (JElem other) name (flipped value)
            else mret tt
          else mret tt)) w
       (fun _ w' => frame [name] w w' /\ classes w' = classes w).
Proof.
  intros D Hel Hos. pose proof D as (Hinst & He & Ht & Ho & Hf).
  apply runs_bind. eapply runs_self; [exact Hinst |].
  apply runs_bind. rewrite He.
  eapply runs_getAttribute_at; [exact Hel |].
  apply runs_bind.
  assert (Hrest : forall w1,
    frame [name] w w1 -> classes w1 = classes w ->
    runs (i ← self this;
          others ← the_list (this_others i);
          forEach others (fun other =>
            i ← self this;
            if bool_decide (JElem other ≠ this_element i)
            then
              own ← getAttribute (JElem other) name;
              if present own
              then setAttribute (JElem other) name
                     (flipped (attr w el name))
              else mret tt
            else mret tt)) w1
      (fun _ w' => frame [name] w w' /\ classes w' = classes w)).
  { intros w1 F1 C1.
    pose proof (during_frame _ _ _ _ _ _ _ _ _ F1 D) as D1.
    apply runs_bind. eapply runs_self; [apply D1 |].
    apply runs_bind. rewrite Ho. apply runs_the_list.
    eapply runs_weaken.
    - eapply aria_others_runs; [exact D1 |].
      eapply all_below_frame; [exact F1 | exact Hos].
    - intros _ w2 [F2 C2].
      split; [eapply frame_trans; eassumption | congruence]. }
  destruct (present (attr w el name)).
  - apply runs_bind. eapply runs_self; [exact Hinst |]. rewrite He.
    eapply runs_setAttribute_at; [exact Hel |].
    intros w1 F1 C1 _. apply Hrest; assumption.
  - apply runs_ret. apply Hrest; [apply frame_refl | reflexivity].
Qed.

Lemma singleton_subseteq (x : string) (l : list string) : x ∈ l -> [x] ⊆ l.
Proof. intros Hx y Hy. apply list_elem_of_singleton in Hy as ->. exact Hx. Qed.

(** The ARIA attributes of the triggers. *)
Definition trigger_roles : list string := ["aria-pressed"; "aria-expanded"].

Lemma toggle_element_aria_runs this inst el tgt os foc w :
  during this inst el tgt os foc w ->
  el < length (elements w) ->
  Forall (fun n => n < length (elements w)) os ->
  runs (toggle_element_aria this) w
       (fun _ w' => frame trigger_roles w w' /\ classes w' = classes w).
Proof.
  intros D Hel Hos. unfold toggle_element_aria. simpl.
  apply runs_bind. eapply runs_weaken.
  { eapply aria_role_runs; eassumption. }
  intros _ w1 [F1 C1]. cbv beta.
  apply runs_bind. eapply runs_weaken.
  { eapply aria_role_runs.
    - eapply during_frame; eassumption.
    - rewrite (frame_length _ _ _ F1). exact Hel.
    - eapply all_below_frame; [exact F1 | exact Hos]. }
  intros _ w2 [F2 C2]. cbv beta. apply runs_ret. split; [| congruence].
  eapply frame_trans.
  - eapply frame_mono; [| exact F1].
    apply singleton_subseteq. repeat constructor.
  - eapply frame_mono; [| exact F2].
    apply singleton_subseteq. repeat constructor.
Qed.

(** *** The selector [getOthers] builds *)

Lemma append_cons c s t : String c s +:+ t = String c (s +:+ t).
Proof. reflexivity. Qed.

Lemma append_nil_l t : "" +:+ t = t.
Proof. reflexivity. Qed.

Lemma append_nil_r s : s +:+ "" = s.
Proof.
  induction s as [| c s IH]; [reflexivity |]. rewrite append_cons, IH.
  reflexivity.
Qed.

Lemma append_assoc s t u : (s +:+ t) +:+ u = s +:+ (t +:+ u).
Proof.
  induction s as [| c s IH]; [reflexivity |]. rewrite !append_cons, IH.
  reflexivity.
Qed.

Lemma read_from_cons r done c s :
  read_from r done (String c s)
  = match read_char r done c with
    | Some (r', done') => read_from r' done' s
    | None => None
    end.
Proof. reflexivity. Qed.

Lemma plain_char_not_quote c : plain_char c = true -> Ascii.eqb c quote = false.
Proof.
  unfold plain_char. rewrite negb_true_iff, !orb_false_iff. tauto.
Qed.

(** A plain value between quotes is read as it stands. *)
Lemma read_value sub name acc done v rest :
  css_plain v = true ->
  read_from (InValue sub name acc) done (v +:+ String quote rest)
  = read_from (AfterValue sub name (acc +:+ v)) done rest.
Proof.
  revert acc. induction v as [| c v IH]; intros acc Hv.
  - rewrite append_nil_l, append_nil_r. reflexivity.
  - simpl in Hv. apply andb_true_iff in Hv as [Hc Hv].
    rewrite append_cons, read_from_cons. unfold read_char.
    rewrite (plain_char_not_quote _ Hc), Hc, IH by exact Hv.
    unfold snoc. rewrite append_assoc. reflexivity.
Qed.

Lemma parse_href h :
  css_plain h = true ->
  parse_selector ("[" +:+ "href" +:+ "=" +:+ quoted h +:+ "]")
  = Some [AttributeIs "href" h].
Proof.
  intros Hh. unfold parse_selector, quoted.
  repeat rewrite ?append_cons, ?append_nil_l, ?append_assoc.
  do 6 (rewrite read_from_cons; simpl read_char; cbv beta iota).
  rewrite read_from_cons.
  replace (read_char (AfterEquals false _) [] quote)
    with (Some (InValue false "href" "", @nil Simple)) by reflexivity.
  cbv beta iota. rewrite (read_value _ _ _ _ _ _ Hh). reflexivity.
Qed.

Lemma parse_aria_controls c :
  css_plain c = true ->
  parse_selector ("[" +:+ "aria-controls" +:+ "=" +:+ quoted c +:+ "]")
  = Some [AttributeIs "aria-controls" c].
Proof.
  intros Hc. unfold parse_selector, quoted.
  repeat rewrite ?append_cons, ?append_nil_l, ?append_assoc.
  do 15 (rewrite read_from_cons; simpl read_char; cbv beta iota).
  rewrite read_from_cons.
  replace (read_char (AfterEquals false _) [] quote)
    with (Some (InValue false "aria-controls" "", @nil Simple))
    by reflexivity.
  cbv beta iota. rewrite (read_value _ _ _ _ _ _ Hc). reflexivity.
Qed.

(** *** The elements a selector selects *)

Lemma elem_of_indices_from from p els n :
  n ∈ indices_from from p els
  <-> from <= n /\ exists e, els !! (n - from) = Some e /\ p e = true.
Proof.
  revert from. induction els as [| e els IH]; intros from; simpl.
  - rewrite elem_of_nil. split; [done |]. intros (_ & e & He & _).
    rewrite lookup_nil in He. discriminate.
  - assert (Htail :
      n ∈ indices_from (S from) p els
      <-> from <= n /\ n <> from
          /\ exists e', (e :: els) !! (n - from) = Some e' /\ p e' = true).
    { rewrite IH. split.
      - intros (Hle & e' & He' & Hp). split; [lia |]. split; [lia |].
        exists e'. split; [| exact Hp].
        replace (n - from) with (S (n - S from)) by lia. exact He'.
      - intros (Hle & Hne & e' & He' & Hp). split; [lia |].
        exists e'. split; [| exact Hp].
        replace (n - from) with (S (n - S from)) in He' by lia. exact He'. }
    destruct (p e) eqn:Hpe.
    + rewrite elem_of_cons, Htail. split.
      * intros [-> | (Hle & Hne & H)]; [| split; assumption].
        split; [lia |]. exists e. rewrite Nat.sub_diag. split; done.
      * intros (Hle & H). destruct (decide (n = from)) as [-> | Hne];
          [left; reflexivity | right; repeat split; assumption].
    + rewrite Htail. split.
      * intros (Hle & Hne & H). split; assumption.
      * intros (Hle & e' & He' & Hp). split; [exact Hle |].
        split; [| exists e'; split; assumption].
        intros ->. rewrite Nat.sub_diag in He'. simpl in He'.
        injection He' as ->. congruence.
Qed.

Lemma indices_from_NoDup from p els : NoDup (indices_from from p els).
Proof.
  revert from. induction els as [| e els IH]; intros from; simpl.
  - constructor.
  - destruct (p e); [| apply IH]. constructor; [| apply IH].
    rewrite elem_of_indices_from. lia.
Qed.

Lemma indices_from_below from p els :
  Forall (fun n => n < from + length els) (indices_from from p els).
Proof.
  apply Forall_forall. intros n Hn.
  apply elem_of_indices_from in Hn as (Hle & e & He & _).
  apply lookup_lt_Some in He. lia.
Qed.

(** Selection only looks at what [p] looks at. *)
Lemma indices_from_ext (R : relation Element) from p els els' :
  Forall2 R els els' -> (forall e e', R e e' -> p e' = p e) ->
  indices_from from p els' = indices_from from p els.
Proof.
  intros HF Hp. revert from.
  induction HF as [| e e' els els' He HF IH]; intros from; simpl;
    [reflexivity |].
  rewrite (Hp _ _ He), !IH. reflexivity.
Qed.

Lemma elem_of_select_all name value els n :
  n ∈ select_all [AttributeIs name value] els
  <-> exists e, els !! n = Some e /\ attached e = true
                /\ attributes e !! name = Some value.
Proof.
  unfold select_all. rewrite elem_of_indices_from. rewrite Nat.sub_0_r.
  split.
  - intros (_ & e & He & Hp). exists e. split; [exact He |].
    apply andb_true_iff in Hp as [Ha Hm]. split; [exact Ha |].
    simpl in Hm. rewrite orb_false_r in Hm.
    apply bool_decide_eq_true in Hm. exact Hm.
  - intros (e & He & Ha & Hv). split; [lia |]. exists e. split; [exact He |].
    rewrite Ha. simpl. rewrite orb_false_r. apply bool_decide_eq_true, Hv.
Qed.

Lemma select_all_below sel els :
  Forall (fun n => n < length els) (select_all sel els).
Proof. apply (indices_from_below 0). Qed.

Lemma select_all_NoDup sel els : NoDup (select_all sel els).
Proof. apply indices_from_NoDup. Qed.

Lemma select_all_frame W name value els els' :
  Forall2 (el_frame W) els els' -> name ∉ W ->
  select_all [AttributeIs name value] els'
  = select_all [AttributeIs name value] els.
Proof.
  intros HF Hn. unfold select_all. eapply indices_from_ext; [exact HF |].
  intros e e' (_ & Ha & _ & _ & Hattr). rewrite Ha. simpl.
  rewrite (Hattr name Hn). reflexivity.
Qed.

(** *** The triggers that share the trigger's reference *)

(** The attribute by which [getOthers] looks for the other triggers: the
    [href] when the trigger has one, otherwise the [aria-controls]. *)
Definition reference (els : list Element) (el : NodeId)
    : option (string * string) :=
  match els !! el with
  | Some e =>
      match attributes e !! "href" with
      | Some h => Some ("href", h)
      | None =>
          match attributes e !! "aria-controls" with
          | Some c => Some ("aria-controls", c)
          | None => None
          end
      end
  | None => None
  end.

(** The attached elements whose attribute of that name has that value. *)
Definition sharing (els : list Element) (el : NodeId) : list NodeId :=
  match reference els el with
  | Some (name, value) => select_all [AttributeIs name value] els
  | None => []
  end.

(** The value of the reference can stand between the quotes of the
    selector. *)
Definition plain_reference (els : list Element) (el : NodeId) : bool :=
  match reference els el with
  | Some (_, value) => css_plain value
  | None => true
  end.

Lemma others_of_plain els el :
  el < length els -> plain_reference els el = true ->
  others_of els (JElem el) = inr (sharing els el).
Proof.
  intros Hel. unfold plain_reference, sharing, reference, others_of.
  apply lookup_lt_is_Some in Hel as [e He]. rewrite He.
  destruct (attributes e !! "href") as [h |].
  - intros Hh. unfold others_by. rewrite (parse_href _ Hh). reflexivity.
  - destruct (attributes e !! "aria-controls") as [c |]; [| reflexivity].
    intros Hc. unfold others_by. rewrite (parse_aria_controls _ Hc).
    reflexivity.
Qed.

Lemma reference_frame W w w' el :
  frame W w w' -> "href" ∉ W -> "aria-controls" ∉ W ->
  reference (elements w') el = reference (elements w) el.
Proof.
  intros F Hh Hc. unfold reference.
  pose proof (frame_attr _ _ _ el "href" F Hh) as Ah.
  pose proof (frame_attr _ _ _ el "aria-controls" F Hc) as Ac.
  unfold attr in Ah, Ac.
  destruct (elements w !! el) as [e |] eqn:He.
  - destruct (frame_lookup _ _ _ _ _ F He) as (e' & He' & _).
    rewrite He' in *. simpl in Ah, Ac. rewrite Ah, Ac. reflexivity.
  - destruct (elements w' !! el) as [e' |] eqn:He'; [| reflexivity].
    apply lookup_lt_Some in He'. rewrite (frame_length _ _ _ F) in He'.
    apply lookup_ge_None in He. lia.
Qed.

Lemma sharing_frame W w w' el :
  frame W w w' -> "href" ∉ W -> "aria-controls" ∉ W ->
  sharing (elements w') el = sharing (elements w) el.
Proof.
  intros F Hh Hc. unfold sharing. rewrite (reference_frame _ _ _ _ F Hh Hc).
  destruct (reference (elements w) el) as [[name value] |] eqn:Er;
    [| reflexivity].
  apply (select_all_frame W); [apply F |].
  unfold reference in Er. destruct (elements w !! el) as [e |]; [| done].
  destruct (attributes e !! "href").
  - injection Er as <- _. exact Hh.
  - destruct (attributes e !! "aria-controls"); [| done].
    injection Er as <- _. exact Hc.
Qed.

Lemma sharing_below els el :
  Forall (fun n => n < length els) (sharing els el).
Proof.
  unfold sharing. destruct (reference els el) as [[name value] |];
    [apply select_all_below | constructor].
Qed.

Lemma sharing_NoDup els el : NoDup (sharing els el).
Proof.
  unfold sharing. destruct (reference els el) as [[name value] |];
    [apply select_all_NoDup | constructor].
Qed.

(** *** A whole transition *)

(** The attributes a transition may write. *)
Definition toggled_attributes : list string :=
  ["aria-hidden"; "tabindex"; "aria-pressed"; "aria-expanded"].

Section Transition.

Variable callback : HookId -> InstId -> M JSValue.

(** The setting [f] holds no function, or a function that returns without
    writing anything -- and that returns a truthy value when [accepting]. *)
Definition quiet (this : InstId) (accepting : bool) (f : JSValue) : Prop :=
  truthy f = false
  \/ forall w, exists r,
       call callback f this w = Ret r w
       /\ (accepting = true -> truthy r = true).

(** The conditions under which [elementToggle] runs to its end: the
    arguments are elements, the trigger's reference and the class settings
    are texts the DOM accepts, and the callbacks stay out of the way. *)
Definition ready (this : InstId) (inst : Instance) (el tgt : NodeId)
    (foc : list NodeId) (w : Window) : Prop :=
  toggles w !! this = Some inst
  /\ el < length (elements w) /\ tgt < length (elements w)
  /\ Forall (fun n => n < length (elements w)) foc
  /\ plain_reference (elements w) el = true
  /\ class_ok (activeClass (settings inst)) = true
  /\ class_ok (inactiveClass (settings inst)) = true
  /\ quiet this true (valid (settings inst))
  /\ quiet this false (before (settings inst))
  /\ quiet this false (after (settings inst)).

Lemma guard_runs this f w :
  quiet this true f ->
  runs (if truthy f
        then r ← call callback f this; mret (negb (truthy r))
        else mret false) w
       (fun declined w' => declined = false /\ w' = w).
Proof.
  intros Hq. destruct (truthy f) eqn:Ef.
  - destruct Hq as [Hq | Hq]; [congruence |].
    destruct (Hq w) as (r & Hr & Ht). apply runs_bind.
    exists r, w. split; [exact Hr |]. apply runs_ret.
    rewrite Ht by reflexivity. split; reflexivity.
  - apply runs_ret. split; reflexivity.
Qed.

Lemma hook_runs this f w :
  quiet this false f ->
  runs (if truthy f then call callback f this ;; mret tt else mret tt) w
       (fun _ w' => w' = w).
Proof.
  intros Hq. destruct (truthy f) eqn:Ef.
  - destruct Hq as [Hq | Hq]; [congruence |].
    destruct (Hq w) as (r & Hr & _). apply runs_bind.
    exists r, w. split; [exact Hr |]. apply runs_ret. reflexivity.
  - apply runs_ret. reflexivity.
Qed.

Lemma subseteq_toggled W :
  Forall (fun k => k ∈ toggled_attributes) W -> W ⊆ toggled_attributes.
Proof. intros HW k Hk. rewrite Forall_forall in HW. auto. Qed.

(** The phases between the two hooks, from any window in which the fields
    of the object are stored; [K] is what follows them. *)
Lemma core_runs {A} this inst el tgt os foc (K : M A) w
    (Q : A -> Window -> Prop) :
  during this inst el tgt os foc w ->
  el < length (elements w) -> tgt < length (elements w) ->
  Forall (fun n => n < length (elements w)) foc ->
  Forall (fun n => n < length (elements w)) os ->
  class_ok (activeClass (settings inst)) = true ->
  class_ok (inactiveClass (settings inst)) = true ->
  (forall w5,
     frame toggled_attributes w w5 ->
     classes w5
     = apply_flips
         (transition_flips
            (class_token (activeClass (settings inst)))
            (class_token (inactiveClass (settings inst)))
            el tgt os)
         (classes w) ->
     attr w5 tgt "aria-hidden" = aria_after (attr w tgt "aria-hidden") ->
     runs K w5 Q) ->
  runs (toggle_classes this (JElem tgt) ;;
        toggle_target_aria this ;;
        s ← this_settings this;
        (if truthy (Toggle.focusable s)
         then i ← self this;
              ns ← the_list (this_focusable i);
              toggleFocusable this ns
         else mret tt) ;;
        s ← this_settings this;
        (if truthy (jump s)
         then i ← self this;
              h ← hasAttribute (this_element i) "href";
              if h : bool
              then i ← self this;
                   jumpTo this (this_element i) (this_target i)
              else mret tt
         else mret tt) ;;
        toggle_element_aria this ;;
        K) w Q.
Proof.
  intros D Hel Htg Hfoc Hos Ha Hi HK.
  pose proof D as (_ & Hthe & Htt & _ & Htf).
  (* classes *)
  apply runs_bind. eapply runs_weaken.
  { eapply toggle_classes_runs; [exact D | exact Hel | exact Htg | exact Hos
                                | exact Ha | exact Hi]. }
  intros _ w1 [F1 C1]. cbv beta.
  pose proof (during_frame _ _ _ _ _ _ _ _ _ F1 D) as D1.
  pose proof (frame_length _ _ _ F1) as L1.
  (* aria-hidden *)
  apply runs_bind. eapply runs_weaken.
  { eapply toggle_target_aria_runs; [exact D1 | rewrite L1; exact Htg]. }
  intros _ w2 (F2 & C2 & A2). cbv beta.
  pose proof (during_frame _ _ _ _ _ _ _ _ _ F2 D1) as D2.
  pose proof (frame_length _ _ _ F2) as L2.
  (* focusable children *)
  apply runs_bind. eapply runs_this_settings; [apply D2 |].
  apply runs_bind.
  assert (Hfocus :
    runs (if truthy (focusable (settings inst))
          then i ← self this;
               ns ← the_list (this_focusable i);
               toggleFocusable this ns
          else mret tt) w2
      (fun _ w' => frame ["tabindex"] w2 w' /\ classes w' = classes w2)).
  { destruct (truthy (focusable (settings inst))).
    - apply runs_bind. eapply runs_self; [apply D2 |].
      apply runs_bind. rewrite Htf. apply runs_the_list.
      apply toggleFocusable_runs. rewrite L2, L1. exact Hfoc.
    - apply runs_ret. split; [apply frame_refl | reflexivity]. }
  eapply runs_weaken; [exact Hfocus |]. clear Hfocus.
  intros _ w3 [F3 C3]. cbv beta.
  pose proof (during_frame _ _ _ _ _ _ _ _ _ F3 D2) as D3.
  pose proof (frame_length _ _ _ F3) as L3.
  (* jump *)
  apply runs_bind. eapply runs_this_settings; [apply D3 |].
  apply runs_bind.
  assert (Hjump :
    runs (if truthy (jump (settings inst))
          then i ← self this;
               h ← hasAttribute (this_element i) "href";
               if h : bool
               then i0 ← self this;
                    jumpTo this (this_element i0) (this_target i0)
               else mret tt
          else mret tt) w3
      (fun _ w' => frame ["tabindex"] w3 w' /\ classes w' = classes w3)).
  { destruct (truthy (jump (settings inst))).
    - apply runs_bind. eapply runs_self; [apply D3 |].
      apply runs_bind. rewrite Hthe.
      eapply (runs_hasAttribute_at el); [rewrite L3, L2, L1; exact Hel |].
      destruct (bool_decide _).
      + apply runs_bind. eapply runs_self; [apply D3 |].
        rewrite Hthe, Htt.
        eapply (jumpTo_runs this inst el tgt);
          [apply D3 | rewrite L3, L2, L1; exact Hel
           | rewrite L3, L2, L1; exact Htg | exact Ha].
      + apply runs_ret. split; [apply frame_refl | reflexivity].
    - apply runs_ret. split; [apply frame_refl | reflexivity]. }
  eapply runs_weaken; [exact Hjump |]. clear Hjump.
  intros _ w4 [F4 C4]. cbv beta.
  pose proof (during_frame _ _ _ _ _ _ _ _ _ F4 D3) as D4.
  pose proof (frame_length _ _ _ F4) as L4.
  (* aria-pressed, aria-expanded *)
  apply runs_bind. eapply runs_weaken.
  { eapply toggle_element_aria_runs;
      [exact D4 | rewrite L4, L3, L2, L1; exact Hel |].
    rewrite L4, L3, L2, L1. exact Hos. }
  intros _ w5 [F5 C5]. cbv beta.
  pose proof (during_frame _ _ _ _ _ _ _ _ _ F5 D4) as D5.
  apply HK.
  - eapply frame_trans;
      [eapply frame_mono; [| exact F1]; apply subseteq_toggled; constructor |].
    eapply frame_trans;
      [eapply frame_mono; [| exact F2]; apply subseteq_toggled;
       repeat constructor |].
    eapply frame_trans;
      [eapply frame_mono; [| exact F3]; apply subseteq_toggled;
       repeat constructor |].
    eapply frame_trans;
      [eapply frame_mono; [| exact F4]; apply subseteq_toggled;
       repeat constructor |].
    eapply frame_mono; [| exact F5]. apply subseteq_toggled.
    repeat constructor.
  - rewrite C5, C4, C3, C2, C1. reflexivity.
  - assert (Hne : forall k, k ∈ ["tabindex"; "aria-pressed"; "aria-expanded"]
                            -> k <> "aria-hidden").
    { intros k Hk ->. repeat (apply elem_of_cons in Hk as [Hk | Hk];
                              [discriminate |]).
      apply elem_of_nil in Hk. exact Hk. }
    rewrite (frame_attr _ _ _ tgt "aria-hidden" F5)
      by (intros Hin; eapply Hne; [| reflexivity];
          do 1 apply list_elem_of_further; exact Hin).
    rewrite (frame_attr _ _ _ tgt "aria-hidden" F4)
      by (intros Hin; apply list_elem_of_singleton in Hin; discriminate).
    rewrite (frame_attr _ _ _ tgt "aria-hidden" F3)
      by (intros Hin; apply list_elem_of_singleton in Hin; discriminate).
    rewrite A2.
    rewrite (frame_attr _ _ _ tgt "aria-hidden" F1)
      by (apply not_elem_of_nil).
    reflexivity.
Qed.
(** The window in which the guard is called: that of the call, with the
    arguments stored in the object. *)
Definition entered (this : InstId) (inst : Instance) (el tgt : NodeId)
    (foc : list NodeId) (w : Window) : Window :=
  store this (JElem el) (JElem tgt) (sharing (elements w) el) foc inst w.

(** The setting [f] holds no function, or a function that behaves as
    follows in every window that has the Toggle objects of [w0] and its
    elements up to their classes and [toggled_attributes]: it returns, a
    truthy value when [accepting]; it leaves the Toggle objects and the
    tree of elements as they are; of the elements it writes at most
    classes and [toggled_attributes]; and the windows before and after it
    are related by [obs]. *)
Definition hook_ok (obs : relation Window) (this : InstId) (w0 : Window)
    (accepting : bool) (f : JSValue) : Prop :=
  truthy f = false
  \/ forall w1, frame toggled_attributes w0 w1 ->
       exists r w',
         call callback f this w1 = Ret r w'
         /\ frame toggled_attributes w1 w' /\ obs w1 w'
         /\ (accepting = true -> truthy r = true).

(** The conditions of [ready], with guard and hooks that may write. *)
Definition attended (obs : relation Window) (this : InstId)
    (inst : Instance) (el tgt : NodeId) (foc : list NodeId) (w : Window)
    : Prop :=
  toggles w !! this = Some inst
  /\ el < length (elements w) /\ tgt < length (elements w)
  /\ Forall (fun n => n < length (elements w)) foc
  /\ plain_reference (elements w) el = true
  /\ class_ok (activeClass (settings inst)) = true
  /\ class_ok (inactiveClass (settings inst)) = true
  /\ hook_ok obs this (entered this inst el tgt foc w) true
       (valid (settings inst))
  /\ hook_ok obs this (entered this inst el tgt foc w) false
       (before (settings inst))
  /\ hook_ok obs this (entered this inst el tgt foc w) false
       (after (settings inst)).

Lemma quiet_hook_ok obs `{!Reflexive obs} this w0 accepting f :
  quiet this accepting f -> hook_ok obs this w0 accepting f.
Proof.
  intros [Hf | Hq]; [left; exact Hf | right].
  intros w1 _. destruct (Hq w1) as (r & Hr & Ht).
  exists r, w1. split; [exact Hr |].
  split; [apply frame_refl |]. split; [reflexivity | exact Ht].
Qed.

Lemma ready_attended obs `{!Reflexive obs} this inst el tgt foc w :
  ready this inst el tgt foc w -> attended obs this inst el tgt foc w.
Proof.
  intros (Hinst & Hel & Htg & Hfoc & Hplain & Ha & Hi & Hqv & Hqb & Hqa).
  repeat (split; [assumption |]).
  split; [| split]; apply quiet_hook_ok; assumption.
Qed.

Lemma guard_attended obs this w0 f w :
  hook_ok obs this w0 true f -> frame toggled_attributes w0 w -> obs w w ->
  runs (if truthy f
        then r ← call callback f this; mret (negb (truthy r))
        else mret false) w
       (fun declined w' =>
          declined = false /\ frame toggled_attributes w w' /\ obs w w').
Proof.
  intros Hq F Hrefl. destruct (truthy f) eqn:Ef.
  - destruct Hq as [Hq | Hq]; [congruence |].
    destruct (Hq w F) as (r & w' & Hr & F' & O' & Ht). apply runs_bind.
    exists r, w'. split; [exact Hr |]. apply runs_ret.
    rewrite Ht by reflexivity. split; [reflexivity | split; assumption].
  - apply runs_ret. split; [reflexivity |].
    split; [apply frame_refl | exact Hrefl].
Qed.

Lemma hook_attended obs this w0 f w :
  hook_ok obs this w0 false f -> frame toggled_attributes w0 w -> obs w w ->
  runs (if truthy f then call callback f this ;; mret tt else mret tt) w
       (fun _ w' => frame toggled_attributes w w' /\ obs w w').
Proof.
  intros Hq F Hrefl. destruct (truthy f) eqn:Ef.
  - destruct Hq as [Hq | Hq]; [congruence |].
    destruct (Hq w F) as (r & w' & Hr & F' & O' & _). apply runs_bind.
    exists r, w'. split; [exact Hr |]. apply runs_ret.
    split; assumption.
  - apply runs_ret. split; [apply frame_refl | exact Hrefl].
Qed.

(** A transition whose guard and hooks are attended to runs to its end:
    guard and [before] hook take the window from [entered] to [wb], the
    phases between the hooks take [wb] to [w5], the [after] hook takes
    [w5] to the result. *)
Lemma elementToggle_hooked obs `{!Reflexive obs} this inst el tgt foc w :
  attended obs this inst el tgt foc w ->
  runs (elementToggle callback this (JElem el) (JElem tgt) foc) w
       (fun _ w' =>
          exists wv wb w5,
            frame toggled_attributes (entered this inst el tgt foc w) wv
            /\ obs (entered this inst el tgt foc w) wv
            /\ frame toggled_attributes wv wb /\ obs wv wb
            /\ frame toggled_attributes wb w5
            /\ classes w5
               = apply_flips
                   (transition_flips
                      (class_token (activeClass (settings inst)))
                      (class_token (inactiveClass (settings inst)))
                      el tgt (sharing (elements w) el))
                   (classes wb)
            /\ attr w5 tgt "aria-hidden"
               = aria_after (attr wb tgt "aria-hidden")
            /\ frame toggled_attributes w5 w' /\ obs w5 w').
Proof.
  intros (Hinst & Hel & Htg & Hfoc & Hplain & Ha & Hi & Hqv & Hqb & Hqa).
  unfold entered in *.
  set (os := sharing (elements w) el) in *.
  set (w0 := store this (JElem el) (JElem tgt) os foc inst w) in *.
  set (inst0 := stored (JElem el) (JElem tgt) os foc inst).
  assert (Hlt : this < length (toggles w)) by (eapply lookup_lt_Some; eauto).
  assert (D0 : during this inst0 el tgt os foc w0).
  { split; [apply list_lookup_insert_eq; exact Hlt | repeat split]. }
  assert (Hos : Forall (fun n => n < length (elements w0)) os)
    by apply sharing_below.
  unfold runs.
  rewrite (elementToggle_stores _ _ _ _ _ inst os)
    by (try apply others_of_plain; assumption).
  fold w0. fold (runs (A := unit)).
  (* guard *)
  apply runs_bind. eapply runs_this_settings; [apply D0 |].
  change (settings inst0) with (settings inst).
  apply runs_bind. eapply runs_weaken.
  { eapply guard_attended; [exact Hqv | apply frame_refl | reflexivity]. }
  intros declined wv (-> & Fv & Ov). cbv beta iota.
  pose proof (during_frame _ _ _ _ _ _ _ _ _ Fv D0) as Dv.
  (* before *)
  apply runs_bind. eapply runs_this_settings; [apply Dv |].
  change (settings inst0) with (settings inst).
  apply runs_bind. eapply runs_weaken.
  { eapply hook_attended; [exact Hqb | exact Fv | reflexivity]. }
  intros _ wb (Fb & Ob). cbv beta.
  pose proof (during_frame _ _ _ _ _ _ _ _ _ Fb Dv) as Db.
  assert (Lb : length (elements wb) = length (elements w)).
  { rewrite (frame_length _ _ _ Fb), (frame_length _ _ _ Fv). reflexivity. }
  (* between the hooks *)
  apply (core_runs this inst0 el tgt os foc); try (rewrite Lb; assumption);
    try assumption.
  intros w5 F5 C5 A5.
  pose proof (during_frame _ _ _ _ _ _ _ _ _ F5 Db) as D5.
  (* after *)
  apply runs_bind. eapply runs_this_settings; [apply D5 |].
  change (settings inst0) with (settings inst).
  eapply runs_weaken.
  { eapply hook_attended; [exact Hqa | | reflexivity].
    eapply frame_trans; [exact Fv |].
    eapply frame_trans; [exact Fb | exact F5]. }
  intros _ w' (F' & O').
  exists wv, wb, w5. repeat (split; [assumption |]). exact O'.
Qed.

Lemma elementToggle_runs this inst el tgt foc w :
  ready this inst el tgt foc w ->
  runs (elementToggle callback this (JElem el) (JElem tgt) foc) w
       (fun _ w' =>
          frame toggled_attributes
                (store this (JElem el) (JElem tgt)
                       (sharing (elements w) el) foc inst w) w'
          /\ classes w'
             = apply_flips
                 (transition_flips
                    (class_token (activeClass (settings inst)))
                    (class_token (inactiveClass (settings inst)))
                    el tgt (sharing (elements w) el))
                 (classes w)
          /\ attr w' tgt "aria-hidden"
             = aria_after (attr w tgt "aria-hidden")).
Proof.
  intros R. eapply runs_weaken.
  { assert (Hrefl : Reflexive (fun w1 w' : Window => w' = w1))
      by (intros x; reflexivity).
    apply (elementToggle_hooked (fun w1 w' => w' = w1)).
    apply ready_attended; [exact Hrefl | exact R]. }
  intros _ w' (wv & wb & w5 & _ & -> & _ & -> & F5 & C5 & A5 & _ & ->).
  split; [exact F5 |]. split; [exact C5 | exact A5].
Qed.

End Transition.

(** *** How often a transition toggles a class *)

Lemma flip_parity_cons f fs n t :
  flip_parity (f :: fs) n t
  = xorb (bool_decide (n = fst f /\ t = snd f)) (flip_parity fs n t).
Proof. reflexivity. Qed.

Lemma flip_parity_absent (a : string) (ns : list NodeId) n t :
  n ∉ ns -> flip_parity ((fun o => (o, a)) <$> ns) n t = false.
Proof.
  induction ns as [| o ns IH]; intros Hn; [reflexivity |].
  rewrite fmap_cons, flip_parity_cons. cbn [fst snd].
  apply not_elem_of_cons in Hn as [Hne Hn].
  rewrite (bool_decide_false (_ /\ _)) by tauto. rewrite IH by exact Hn.
  reflexivity.
Qed.

Lemma flip_parity_present (a : string) (ns : list NodeId) n :
  NoDup ns -> n ∈ ns -> flip_parity ((fun o => (o, a)) <$> ns) n a = true.
Proof.
  induction ns as [| o ns IH]; intros Hnd Hn.
  - apply elem_of_nil in Hn. contradiction.
  - rewrite fmap_cons, flip_parity_cons. cbn [fst snd].
    apply NoDup_cons in Hnd as [Ho Hnd].
    apply elem_of_cons in Hn as [-> | Hn].
    + rewrite (bool_decide_true (_ /\ _)) by done.
      rewrite flip_parity_absent by exact Ho. reflexivity.
    + rewrite (bool_decide_false (_ /\ _))
        by (intros [-> _]; contradiction).
      rewrite IH by assumption. reflexivity.
Qed.

(** The trigger is toggled once, unless it is its own target. *)
Lemma flip_parity_trigger a i el tgt os :
  el <> tgt ->
  flip_parity (transition_flips (Some a) i el tgt os) el a = true.
Proof.
  intros Hne. unfold transition_flips.
  rewrite flip_parity_app, !flip_parity_cons. cbn [fst snd].
  rewrite (bool_decide_true (_ /\ _)) by done.
  rewrite (bool_decide_false (_ /\ _)) by tauto.
  rewrite flip_parity_absent
    by (rewrite list_elem_of_filter; tauto).
  destruct i as [i |]; [| reflexivity].
  rewrite flip_parity_cons. cbn [fst snd].
  rewrite (bool_decide_false (_ /\ _)) by tauto. reflexivity.
Qed.

(** The target is toggled once, unless it is the trigger or one of the
    other triggers, or the two class settings are the same token. *)
Lemma flip_parity_target a i el tgt os :
  tgt <> el -> tgt ∉ os -> i <> Some a ->
  flip_parity (transition_flips (Some a) i el tgt os) tgt a = true.
Proof.
  intros Hne Hos Hi. unfold transition_flips.
  rewrite flip_parity_app, !flip_parity_cons. cbn [fst snd].
  rewrite (bool_decide_false (_ /\ _)) by tauto.
  rewrite (bool_decide_true (_ /\ _)) by done.
  rewrite flip_parity_absent
    by (rewrite list_elem_of_filter; tauto).
  destruct i as [i |]; [| reflexivity].
  rewrite flip_parity_cons. cbn [fst snd].
  rewrite (bool_decide_false (_ /\ _)); [reflexivity |].
  intros [_ ->]. congruence.
Qed.

(** Each of the other triggers is toggled once, when the target is none
    of them. *)
Lemma flip_parity_sharing a i el tgt os o :
  NoDup os -> o ∈ os -> tgt ∉ os ->
  flip_parity (transition_flips (Some a) i el tgt os) o a = true.
Proof.
  intros Hnd Ho Htg. unfold transition_flips. rewrite flip_parity_app.
  assert (Hot : o <> tgt) by (intros ->; contradiction).
  assert (Htail :
    flip_parity match i with Some i0 => [(tgt, i0)] | None => [] end o a
    = false).
  { destruct i as [i |]; [| reflexivity].
    rewrite flip_parity_cons. cbn [fst snd].
    rewrite (bool_decide_false (_ /\ _)) by tauto. reflexivity. }
  rewrite Htail, xorb_false_r, !flip_parity_cons. cbn [fst snd].
  rewrite (bool_decide_false (o = tgt /\ _)) by tauto.
  destruct (decide (o = el)) as [-> | Hne].
  - rewrite (bool_decide_true (_ /\ _)) by done.
    rewrite flip_parity_absent
      by (rewrite list_elem_of_filter; tauto).
    reflexivity.
  - rewrite (bool_decide_false (_ /\ _)) by tauto.
    rewrite flip_parity_present; [reflexivity | |].
    + apply NoDup_filter, Hnd.
    + apply list_elem_of_filter. split; assumption.
Qed.

Lemma transition_flips_below a i el tgt os n :
  el < n -> tgt < n -> Forall (fun o => o < n) os ->
  Forall (fun f => fst f < n) (transition_flips a i el tgt os).
Proof.
  intros Hel Htg Hos. unfold transition_flips. apply Forall_app. split.
  - destruct a as [a |]; [| constructor].
    constructor; [exact Hel |]. constructor; [exact Htg |].
    apply Forall_fmap. apply Forall_forall. intros o Ho. simpl.
    apply list_elem_of_filter in Ho as [_ Ho].
    rewrite Forall_forall in Hos. auto.
  - destruct i as [i |]; constructor; [exact Htg | constructor].
Qed.

(** *** The claims about a transition *)

(** After a transition the object is ready for the next one on the same
    trigger and target. *)
Lemma ready_again callback this inst el tgt foc w w' :
  ready callback this inst el tgt foc w ->
  frame toggled_attributes
        (store this (JElem el) (JElem tgt) (sharing (elements w) el) foc
               inst w) w' ->
  ready callback this
        (stored (JElem el) (JElem tgt) (sharing (elements w) el) foc inst)
        el tgt foc w'
  /\ sharing (elements w') el = sharing (elements w) el.
Proof.
  intros (Hinst & Hel & Htg & Hfoc & Hplain & Ha & Hi & Hqv & Hqb & Hqa) F.
  assert (Hlt : this < length (toggles w)) by (eapply lookup_lt_Some; eauto).
  pose proof (frame_length _ _ _ F) as L. simpl in L.
  assert (Hh : "href" ∉ toggled_attributes).
  { intros Hin. repeat (apply elem_of_cons in Hin as [Hin | Hin];
                        [discriminate |]).
    apply elem_of_nil in Hin. exact Hin. }
  assert (Hc : "aria-controls" ∉ toggled_attributes).
  { intros Hin. repeat (apply elem_of_cons in Hin as [Hin | Hin];
                        [discriminate |]).
    apply elem_of_nil in Hin. exact Hin. }
  split; [| apply (sharing_frame _ _ _ _ F Hh Hc)].
  repeat split; try assumption; try (rewrite L; assumption).
  - rewrite (frame_toggles _ _ _ _ F). apply list_lookup_insert_eq, Hlt.
  - unfold plain_reference.
    rewrite (reference_frame _ _ _ _ F Hh Hc). exact Hplain.
Qed.


(** The relations a guard or a hook has to respect: it leaves the target's
    [aria-hidden] as it is; it leaves the membership of the class [a] of
    the elements [ns] as it is. *)
Definition hidden_kept (tgt : NodeId) : relation Window :=
  fun w w' => attr w' tgt "aria-hidden" = attr w tgt "aria-hidden".

Definition membership_kept (ns : list NodeId) (a : string)
    : relation Window :=
  fun w w' => forall n, n ∈ ns ->
    has_class (classes w') n a = has_class (classes w) n a.

#[local] Instance hidden_kept_refl tgt : Reflexive (hidden_kept tgt).
Proof. intros w. reflexivity. Qed.

#[local] Instance membership_kept_refl ns a : Reflexive (membership_kept ns a).
Proof. intros w n _. reflexivity. Qed.



(** *** Concrete pages *)

(** No function is configured; none is ever called. *)
Definition no_callbacks : HookId -> InstId -> M JSValue :=
  fun _ _ => throw TypeError.

(** [panel_page] after [new Toggle()]. *)
Definition toggle_page : Window := final (constructor None panel_page).

Lemma toggle_page_ready :
  ready no_callbacks 0 (created None) 0 1 [] toggle_page.
Proof.
  repeat split; try reflexivity; try (vm_compute; lia);
    try (left; reflexivity).
Qed.



(** An anchor that refers to itself. *)
Definition own_target_page : Window :=
  final (constructor None
    (mkWindow
       [ mkElement "A" true None {[ "id" := "self"; "href" := "#self" ]}
           [] None ]
       [] [] None "/" "" "" 1 None [])).


(** Two triggers of one panel, of which only the first is active. *)
Definition two_triggers_page : Window :=
  final (constructor None
    (mkWindow
       [ mkElement "A" true None {[ "href" := "#panel" ]} ["active"] None;
         mkElement "A" true None {[ "href" := "#panel" ]} [] None;
         mkElement "DIV" true None {[ "id" := "panel" ]} [] None ]
       [] [] None "/" "" "" 1 None [])).

Lemma two_triggers_page_ready :
  ready no_callbacks 0 (created None) 0 2 [] two_triggers_page.
Proof.
  repeat split; try reflexivity; try (vm_compute; lia);
    try (left; reflexivity).
Qed.



(** *** Delegated listeners and the registry *)

(** The key under which the constructor registers its selector. *)
Definition argument_key (s : option (gmap string JSValue)) : option string :=
  ToString (selector (merged (default ∅ s))).

(** The registry the constructor works on. *)
Definition registry_of (w : Window) : JSArray :=
  default (mkArray 0 ∅) (TogglesCallback w).

(** The listeners [attach] adds to the body. *)
Definition delegated_pair (this : InstId) : list Listener :=
  [mkListener None "click" (Delegated this);
   mkListener None "change" (Delegated this)].

(** A listener that is not a delegated listener on the body. *)
Definition direct (l : Listener) : Prop :=
  match on l, handler l with
  | None, Delegated _ => False
  | _, _ => True
  end.

Lemma allocated_lookup s w :
  toggles (allocated s w) !! length (toggles w) = Some (created s).
Proof.
  simpl. rewrite lookup_app_r by reflexivity.
  rewrite Nat.sub_diag. reflexivity.
Qed.

Lemma toString_runs v t w : ToString v = Some t -> toString v w = Ret t w.
Proof. intros Hv. unfold toString. rewrite Hv. reflexivity. Qed.

Lemma record_runs s w k wb :
  argument_key s = Some k ->
  toggles wb !! length (toggles w) = Some (created s) ->
  record (length (toggles w)) wb
  = match TogglesCallback wb with
    | Some arr => Ret tt (with_registry (Some (array_set_true arr k)) wb)
    | None => Throw TypeError wb
    end.
Proof.
  intros Hk Hi. unfold record.
  rewrite run_bind, (this_settings_runs _ (created s)) by exact Hi.
  rewrite run_bind, (toString_runs _ k) by exact Hk.
  rewrite run_bind. unfold the_registry.
  destruct (TogglesCallback wb); reflexivity.
Qed.

(** What [attach] does in the window the constructor prepared. *)
Lemma attach_runs s w k :
  argument_key s = Some k ->
  (truthy (this_element (created s)) = true
   /\ attach (length (toggles w)) (allocated s w)
      = Throw TypeError (allocated s w))
  \/ exists added,
       attach (length (toggles w)) (allocated s w)
       = Ret tt (with_listeners (listeners w ++ added) (allocated s w))
       /\ ((added = delegated_pair (length (toggles w))
            /\ truthy (this_element (created s)) = false
            /\ array_hasOwnProperty (registry_of w) k = false)
           \/ (Forall direct added
               /\ (truthy (this_element (created s)) = false ->
                   array_hasOwnProperty (registry_of w) k = true))).
Proof.
  intros Hk. unfold attach.
  rewrite run_bind, (self_runs _ (created s)) by apply allocated_lookup.
  destruct (truthy (this_element (created s))) eqn:Hel.
  - rewrite run_bind. unfold element_of.
    destruct (this_element (created s)) as [| | | | | | | n];
      try (left; split; reflexivity).
    change (elements (allocated s w)) with (elements w).
    destruct (elements w !! n) as [e |]; [| left; split; reflexivity].
    right. exists [mkListener (Some n) "click"
                     (OnElementClick (length (toggles w)))].
    split; [reflexivity |].
    right. split; [| discriminate]. constructor; [exact I | constructor].
  - right.
    rewrite run_bind,
      (this_settings_runs _ (created s)) by apply allocated_lookup.
    rewrite run_bind, (toString_runs _ k) by exact Hk.
    rewrite run_bind. unfold the_registry.
    change (TogglesCallback (allocated s w)) with (Some (registry_of w)).
    cbv beta iota.
    destruct (array_hasOwnProperty (registry_of w) k) eqn:Hown.
    + exists []. split.
      * simpl negb. cbv iota. rewrite app_nil_r.
        destruct w; reflexivity.
      * right. split; [constructor | reflexivity].
    + exists (delegated_pair (length (toggles w))). split.
      * simpl negb. cbv iota. unfold delegated_pair.
        replace (listeners w
                 ++ [mkListener None "click" (Delegated (length (toggles w)));
                     mkListener None "change"
                       (Delegated (length (toggles w)))])
          with ((listeners w
                 ++ [mkListener None "click"
                       (Delegated (length (toggles w)))])
                ++ [mkListener None "change"
                      (Delegated (length (toggles w)))])
          by (rewrite <- app_assoc; reflexivity).
        reflexivity.
      * left. repeat split.
Qed.

(** The window a construction ends in.  Either the element option names
    no element and the constructor raises before it registers anything, or
    the listeners [added] follow the existing ones and the selector is
    registered; delegated listeners are only added without the element
    option and when the selector was not registered. *)
Lemma constructor_final s w k :
  argument_key s = Some k ->
  (truthy (this_element (created s)) = true
   /\ final (constructor s w) = allocated s w)
  \/ exists added,
       final (constructor s w)
       = with_registry (Some (array_set_true (registry_of w) k))
           (with_listeners (listeners w ++ added) (allocated s w))
       /\ ((added = delegated_pair (length (toggles w))
            /\ truthy (this_element (created s)) = false
            /\ array_hasOwnProperty (registry_of w) k = false)
           \/ (Forall direct added
               /\ (truthy (this_element (created s)) = false ->
                   array_hasOwnProperty (registry_of w) k = true))).
Proof.
  intros Hk. rewrite constructor_runs, run_bind.
  destruct (attach_runs s w k Hk) as [[Hel ->] | (added & -> & Hadded)].
  - left. split; [exact Hel | reflexivity].
  - right. exists added. split; [| exact Hadded].
    rewrite run_bind, (record_runs s w k)
      by (exact Hk || apply allocated_lookup).
    reflexivity.
Qed.

(** The registry array. *)

Definition no_index (arr : JSArray) : Prop :=
  forall k, is_Some (arr_props arr !! k) -> array_index k = None.

Lemma index_from_plain bound k : array_index k = None -> index_from bound k = false.
Proof. intros Hk. unfold index_from. rewrite Hk. reflexivity. Qed.

(** Without array indices among its keys, the array loses nothing when
    its [length] is assigned. *)
Lemma array_set_length arr :
  no_index arr -> arr_props (array_set_true arr "length") = arr_props arr.
Proof.
  intros Hn. simpl. apply map_filter_id. intros k v Hk. simpl.
  apply index_from_plain, Hn. eauto.
Qed.

Lemma hasOwn_set arr k :
  array_hasOwnProperty (array_set_true arr k) k = true.
Proof.
  unfold array_hasOwnProperty, array_set_true.
  destruct (String.eqb k "length") eqn:Ek; [reflexivity |]. simpl.
  apply bool_decide_eq_true. rewrite lookup_insert_eq. eauto.
Qed.

Lemma hasOwn_set_mono arr k k' :
  no_index arr -> array_hasOwnProperty arr k' = true ->
  array_hasOwnProperty (array_set_true arr k) k' = true.
Proof.
  intros Hn. unfold array_hasOwnProperty.
  destruct (String.eqb k' "length"); [reflexivity |]. simpl.
  rewrite !bool_decide_eq_true. intros Hk'.
  destruct (String.eqb k "length") eqn:Ek.
  - apply String.eqb_eq in Ek as ->. rewrite array_set_length by exact Hn.
    exact Hk'.
  - unfold array_set_true. rewrite Ek. simpl.
    destruct (decide (k = k')) as [-> | Hne].
    + rewrite lookup_insert_eq. eauto.
    + rewrite lookup_insert_ne by exact Hne. exact Hk'.
Qed.

Lemma no_index_set arr k :
  no_index arr -> array_index k = None -> no_index (array_set_true arr k).
Proof.
  intros Hn Hk k' Hk'.
  destruct (String.eqb k "length") eqn:Ek.
  - apply String.eqb_eq in Ek as ->.
    rewrite array_set_length in Hk' by exact Hn. apply Hn, Hk'.
  - unfold array_set_true in Hk'. rewrite Ek in Hk'. simpl in Hk'.
    destruct (decide (k = k')) as [<- | Hne]; [exact Hk |].
    rewrite lookup_insert_ne in Hk' by exact Hne. apply Hn, Hk'.
Qed.

Lemma no_index_empty : no_index (mkArray 0 ∅).
Proof. intros k [v Hv]. simpl in Hv. rewrite lookup_empty in Hv. done. Qed.

(** Counting delegated listeners. *)

(** The key of the selector of the object [this]. *)
Definition selector_key (w : Window) (this : InstId) : option string :=
  toggles w !! this ≫= fun i => ToString (selector (settings i)).

(** [l] is a delegated listener on the body for the event type [type],
    attached by an object whose selector has the key [key]. *)
Definition delegated_for (w : Window) (type key : string) (l : Listener)
    : bool :=
  match on l, handler l with
  | None, Delegated this =>
      String.eqb (on_type l) type
      && bool_decide (selector_key w this = Some key)
  | _, _ => false
  end.

Definition delegated_count (w : Window) (type key : string) : nat :=
  length (List.filter (delegated_for w type key) (listeners w)).

(** The registry has the key. *)
Definition registered (w : Window) (key : string) : bool :=
  match TogglesCallback w with
  | Some arr => array_hasOwnProperty arr key
  | None => false
  end.

(** The selector has a key and the key is not an array index (no
    selector is: an array index is the decimal text of a number). *)
Definition plain_key (s : option (gmap string JSValue)) : bool :=
  match argument_key s with
  | Some k => bool_decide (array_index k = None)
  | None => false
  end.

(** The windows a series of constructions goes through.  A construction
    that raises ends the statement it is part of, not the page. *)
Definition construct_all (ss : list (option (gmap string JSValue)))
    (w : Window) : Window :=
  foldl (fun w s => final (constructor s w)) w ss.

(** What holds of a page on which only constructors have run. *)
Definition known (w : Window) : Prop :=
  forall l this, l ∈ listeners w -> on l = None ->
                 handler l = Delegated this -> this < length (toggles w).

Definition covered (w : Window) : Prop :=
  forall type key l, l ∈ listeners w ->
                     delegated_for w type key l = true ->
                     registered w key = true.

Definition single (w : Window) : Prop :=
  forall type key, delegated_count w type key <= 1.

Definition constructed (w : Window) : Prop :=
  known w /\ covered w /\ single w /\ no_index (registry_of w).

Lemma registered_registry_of w key :
  registered w key = true ->
  TogglesCallback w = Some (registry_of w)
  /\ array_hasOwnProperty (registry_of w) key = true.
Proof.
  unfold registered, registry_of.
  destruct (TogglesCallback w) as [arr |]; [| discriminate].
  intros H. split; [reflexivity | exact H].
Qed.

Lemma selector_key_old w x this :
  this < length (toggles w) ->
  toggles w !! this ≫= (fun i => ToString (selector (settings i)))
  = (toggles w ++ [x]) !! this
    ≫= (fun i => ToString (selector (settings i))).
Proof. intros Hlt. rewrite lookup_app_l by exact Hlt. reflexivity. Qed.

(** For the listeners that exist, a new object changes nothing. *)
Lemma delegated_for_old w w' x type key l :
  known w -> l ∈ listeners w -> toggles w' = toggles w ++ [x] ->
  delegated_for w' type key l = delegated_for w type key l.
Proof.
  intros Hk Hl Ht. unfold delegated_for.
  destruct (on l) eqn:Eon; [reflexivity |].
  destruct (handler l) as [| this |] eqn:Eh; try reflexivity.
  unfold selector_key. rewrite Ht.
  rewrite <- selector_key_old by (eapply Hk; eauto). reflexivity.
Qed.

Lemma delegated_for_direct w type key l :
  direct l -> delegated_for w type key l = false.
Proof.
  unfold direct, delegated_for. destruct (on l); [reflexivity |].
  destruct (handler l); (reflexivity || contradiction).
Qed.

Lemma filter_old w w' x type key :
  known w -> toggles w' = toggles w ++ [x] ->
  List.filter (delegated_for w' type key) (listeners w)
  = List.filter (delegated_for w type key) (listeners w).
Proof.
  intros Hk Ht. apply List.filter_ext_in. intros l Hl.
  eapply delegated_for_old; [exact Hk | | exact Ht].
  apply list_elem_of_In, Hl.
Qed.

Lemma filter_direct w type key added :
  Forall direct added ->
  List.filter (delegated_for w type key) added = [].
Proof.
  induction 1 as [| l added Hl _ IH]; simpl; [reflexivity |].
  rewrite (delegated_for_direct _ _ _ _ Hl). exact IH.
Qed.

(** A listener with the key exists only if the key is registered. *)
Lemma unregistered_count w type key :
  covered w -> array_hasOwnProperty (registry_of w) key = false ->
  delegated_count w type key = 0.
Proof.
  intros Hc Hown. unfold delegated_count.
  destruct (List.filter _ _) as [| l ls] eqn:Ef; [reflexivity |].
  assert (Hin : In l (List.filter (delegated_for w type key) (listeners w)))
    by (rewrite Ef; left; reflexivity).
  apply List.filter_In in Hin as [Hin Hd].
  apply list_elem_of_In in Hin.
  destruct (registered_registry_of _ _ (Hc _ _ _ Hin Hd)) as [_ Hreg].
  congruence.
Qed.

Lemma plain_key_inv s :
  plain_key s = true ->
  exists k, argument_key s = Some k /\ array_index k = None.
Proof.
  unfold plain_key. destruct (argument_key s) as [k |]; [| discriminate].
  intros H. apply bool_decide_eq_true in H. eauto.
Qed.

Lemma selector_key_new s w w' :
  toggles w' = toggles w ++ [created s] ->
  selector_key w' (length (toggles w)) = argument_key s.
Proof.
  intros Ht. unfold selector_key. rewrite Ht.
  rewrite lookup_app_r by reflexivity. rewrite Nat.sub_diag. reflexivity.
Qed.

(** The delegated listeners among a pair just added, for a type and a
    key. *)
Lemma filter_pair s w w' type key k :
  toggles w' = toggles w ++ [created s] -> argument_key s = Some k ->
  length (List.filter (delegated_for w' type key)
                      (delegated_pair (length (toggles w))))
  <= (if bool_decide (key = k) then 1 else 0).
Proof.
  intros Ht Hk. unfold delegated_pair. cbn [List.filter].
  unfold delegated_for. cbn [on handler on_type].
  rewrite (selector_key_new s w w' Ht), Hk.
  destruct (decide (key = k)) as [-> | Ekey].
  - rewrite !(bool_decide_true (_ = _)) by reflexivity.
    rewrite !andb_true_r.
    destruct (String.eqb "click" type) eqn:E1.
    + apply String.eqb_eq in E1 as <-.
      replace (String.eqb "change" "click") with false by reflexivity.
      cbn [length]. lia.
    + destruct (String.eqb "change" type); cbn [length]; lia.
  - rewrite (bool_decide_false (Some k = Some key)) by congruence.
    rewrite !andb_false_r. cbn [length]. lia.
Qed.

(** A construction keeps the page as constructors leave it. *)
Lemma constructor_constructed s w :
  plain_key s = true -> constructed w -> constructed (final (constructor s w)).
Proof.
  intros Hs (Hknown & Hcov & Hsingle & Hidx).
  destruct (plain_key_inv _ Hs) as (k & Hk & Hki).
  pose proof (constructor_toggles s w) as Ht.
  destruct (constructor_final s w k Hk) as [[Hel E] | (added & E & Hadded)].
  - (* the element option names no element *)
    assert (Hl : listeners (final (constructor s w)) = listeners w)
      by (rewrite E; reflexivity).
    assert (Hr : TogglesCallback (final (constructor s w))
                 = Some (registry_of w)) by (rewrite E; reflexivity).
    repeat split.
    + intros l this Hin Hon Hh. rewrite Hl in Hin. rewrite Ht, length_app.
      pose proof (Hknown l this Hin Hon Hh). lia.
    + intros type key l Hin Hd. rewrite Hl in Hin.
      rewrite (delegated_for_old w _ (created s)) in Hd by assumption.
      destruct (registered_registry_of _ _ (Hcov _ _ _ Hin Hd)) as [_ Hreg].
      unfold registered. rewrite Hr. exact Hreg.
    + intros type key. unfold delegated_count. rewrite Hl.
      rewrite (filter_old w _ (created s)) by assumption. apply Hsingle.
    + unfold registry_of at 1. rewrite Hr. exact Hidx.
  - assert (Hl : listeners (final (constructor s w)) = listeners w ++ added)
      by (rewrite E; reflexivity).
    assert (Hr : TogglesCallback (final (constructor s w))
                 = Some (array_set_true (registry_of w) k))
      by (rewrite E; reflexivity).
    assert (Hmono : forall key, registered w key = true ->
                                registered (final (constructor s w)) key = true).
    { intros key Hreg.
      destruct (registered_registry_of _ _ Hreg) as [_ Hown].
      unfold registered. rewrite Hr. apply hasOwn_set_mono; assumption. }
    repeat split.
    + intros l this Hin Hon Hh. rewrite Hl in Hin. rewrite Ht, length_app.
      apply elem_of_app in Hin as [Hin | Hin].
      * pose proof (Hknown l this Hin Hon Hh). lia.
      * destruct Hadded as [(-> & _) | [Hdir _]].
        -- unfold delegated_pair in Hin.
           repeat (apply elem_of_cons in Hin as [-> | Hin];
                   [injection Hh as <-; simpl; lia |]).
           apply elem_of_nil in Hin. contradiction.
        -- rewrite Forall_forall in Hdir. specialize (Hdir l Hin).
           unfold direct in Hdir. rewrite Hon, Hh in Hdir. contradiction.
    + intros type key l Hin Hd. rewrite Hl in Hin.
      apply elem_of_app in Hin as [Hin | Hin].
      * rewrite (delegated_for_old w _ (created s)) in Hd by assumption.
        apply Hmono, (Hcov _ _ _ Hin Hd).
      * destruct Hadded as [(-> & _) | [Hdir _]].
        -- assert (Hkey : key = k).
           { unfold delegated_pair, delegated_for in *.
             repeat (apply elem_of_cons in Hin as [-> | Hin];
                     [cbn [on handler on_type] in Hd;
                      apply andb_true_iff in Hd as [_ Hd];
                      apply bool_decide_eq_true in Hd;
                      rewrite (selector_key_new s w _ Ht), Hk in Hd;
                      congruence |]).
             apply elem_of_nil in Hin. contradiction. }
           subst key. unfold registered. rewrite Hr. apply hasOwn_set.
        -- rewrite Forall_forall in Hdir.
           rewrite (delegated_for_direct _ _ _ _ (Hdir l Hin)) in Hd.
           discriminate.
    + intros type key. unfold delegated_count.
      rewrite Hl, List.filter_app, length_app.
      rewrite (filter_old w _ (created s)) by assumption.
      destruct Hadded as [(-> & _ & Hown) | [Hdir _]].
      * pose proof (filter_pair s w _ type key k Ht Hk) as Hpair.
        destruct (decide (key = k)) as [-> | Ekey].
        -- rewrite bool_decide_true in Hpair by reflexivity.
           pose proof (unregistered_count w type k Hcov Hown) as Hz.
           unfold delegated_count in Hz. lia.
        -- rewrite bool_decide_false in Hpair by exact Ekey.
           pose proof (Hsingle type key) as Hone.
           unfold delegated_count in Hone. lia.
      * rewrite (filter_direct _ _ _ _ Hdir). simpl.
        pose proof (Hsingle type key) as Hone.
        unfold delegated_count in Hone. lia.
    + unfold registry_of at 1. rewrite Hr. simpl.
      apply no_index_set; assumption.
Qed.

Lemma construct_all_constructed ss w :
  Forall (fun s => plain_key s = true) ss -> constructed w ->
  constructed (construct_all ss w).
Proof.
  intros Hss. revert w.
  induction Hss as [| s ss Hs _ IH]; intros w Hw; simpl; [exact Hw |].
  apply IH, constructor_constructed; assumption.
Qed.

Lemma fresh_constructed w :
  listeners w = [] -> TogglesCallback w = None -> constructed w.
Proof.
  intros Hl Hr. repeat split.
  - intros l this Hin. rewrite Hl in Hin. apply elem_of_nil in Hin. done.
  - intros type key l Hin. rewrite Hl in Hin. apply elem_of_nil in Hin. done.
  - intros type key. unfold delegated_count. rewrite Hl. simpl. lia.
  - unfold registry_of. rewrite Hr. apply no_index_empty.
Qed.


(** The constructions of a page with toggles and accordions. *)
Definition accordion_settings : option (gmap string JSValue) :=
  Some {[ "selector" := JStr ("[data-js*=" +:+ quoted "accordion" +:+ "]") ]}.

Definition page_series : list (option (gmap string JSValue)) :=
  [None; accordion_settings; None; accordion_settings].


(** C7 (as stated) fails on selectors that are array indices, because the
    registry is an Array (l. 27): the key [length] truncates it, the
    index [5] is no longer registered, and a second construction with the
    selector [5] attaches a second pair of listeners. *)
Definition index_series : list (option (gmap string JSValue)) :=
  [ Some {[ "selector" := JStr "5" ]};
    Some {[ "selector" := JStr "length" ]};
    Some {[ "selector" := JStr "5" ]} ].


(** The four constructions attach the delegated listeners of the first
    two; the last two find their selectors registered. *)
Example page_series_listeners :
  listeners (construct_all page_series panel_page)
  = [mkListener None "click" (Delegated 0);
     mkListener None "change" (Delegated 0);
     mkListener None "click" (Delegated 1);
     mkListener None "change" (Delegated 1)].
Proof. vm_compute. reflexivity. Qed.

(** With the element option the listener is on the element, and the
    selector is registered all the same: a later construction with that
    selector and no element attaches nothing. *)
Example element_option_registers :
  listeners
    (construct_all [Some {[ "element" := JElem 0 ]}; None] panel_page)
  = [mkListener (Some 0) "click" (OnElementClick 0)].
Proof. vm_compute. reflexivity. Qed.

(** The key [length] is an own property of every array: a Toggle whose
    selector is the type selector [length] never gets its delegated
    listeners. *)
Example length_is_always_registered :
  listeners
    (construct_all [Some {[ "selector" := JStr "length" ]}] panel_page)
  = [].
Proof. vm_compute. reflexivity. Qed.

(** *** What [getOthers] and [getTarget] find *)



(** What [document.querySelector] computes, as a function of the elements
    alone. *)
Definition first_of (sel : string) (els : list Element)
    : Exception + JSValue :=
  match parse_selector sel with
  | Some s =>
      inr (match select_all s els with n :: _ => JElem n | [] => JNull end)
  | None => inl Unsupported
  end.

Lemma document_querySelector_runs sel w :
  document_querySelector sel w = lifted (first_of sel (elements w)) w.
Proof.
  unfold document_querySelector, document_querySelectorAll, parsed, first_of,
    lifted.
  rewrite !run_bind. destruct (parse_selector sel); reflexivity.
Qed.

(** What [getTarget] computes, as a function of the elements alone. *)
Definition target_of (els : list Element) (v : JSValue)
    : Exception + JSValue :=
  match v with
  | JElem n =>
      match els !! n with
      | Some e =>
          match match attributes e !! "href" with
                | Some h => first_of h els
                | None => inr (JBool false)
                end with
          | inr t =>
              match attributes e !! "aria-controls" with
              | Some c => first_of ("#" +:+ c) els
              | None => inr t
              end
          | inl x => inl x
          end
      | None => inl TypeError
      end
  | _ => inl TypeError
  end.

Lemma getTarget_runs this v w :
  getTarget this v w = lifted (target_of (elements w) v) w.
Proof.
  unfold getTarget, target_of.
  destruct v as [| | | | | | |n];
    try (unfold hasAttribute; rewrite !run_bind; reflexivity).
  destruct (elements w !! n) as [e |] eqn:He;
    [| unfold hasAttribute, element_of; rewrite !run_bind, He; reflexivity].
  rewrite run_bind, (hasAttribute_runs _ e) by done.
  assert (Hsecond : forall t,
    (a ← hasAttribute (JElem n) "aria-controls";
     target ← (if a : bool
               then v ← getAttribute (JElem n) "aria-controls";
                    document_querySelector ("#" +:+ text_of v)
               else mret t);
     mret target) w
    = lifted (match attributes e !! "aria-controls" with
              | Some c => first_of ("#" +:+ c) (elements w)
              | None => inr t
              end) w).
  { intros t. rewrite run_bind, (hasAttribute_runs _ e) by done.
    destruct (attributes e !! "aria-controls") as [c |] eqn:Ec.
    - rewrite bool_decide_true by eauto.
      rewrite !run_bind, (getAttribute_runs _ e) by done.
      rewrite Ec. simpl text_of. rewrite document_querySelector_runs.
      unfold lifted. destruct (first_of _ _); reflexivity.
    - rewrite bool_decide_false by (intros [? ?]; discriminate).
      reflexivity. }
  destruct (attributes e !! "href") as [h |] eqn:Eh.
  - rewrite bool_decide_true by eauto.
    rewrite !run_bind, (getAttribute_runs _ e) by done.
    rewrite Eh. simpl text_of. rewrite document_querySelector_runs.
    destruct (first_of h (elements w)) as [x | t]; [reflexivity |].
    apply Hsecond.
  - rewrite bool_decide_false by (intros [? ?]; discriminate).
    rewrite run_bind, run_ret. apply Hsecond.
Qed.

Lemma getTarget_Ret this v w t w' :
  getTarget this v w = Ret t w' -> target_of (elements w) v = inr t.
Proof.
  rewrite getTarget_runs. unfold lifted.
  destruct (target_of _ _); [discriminate | congruence].
Qed.

(** X8: when [getTarget] finds no target for the element of the event --
    it has neither attribute, or the lookup selects nothing -- [toggle]
    cancels the default action of the event and does nothing else. *)
Theorem toggle_without_target callback this ev t w w' :
  getTarget this (ev_target ev) w = Ret t w' -> truthy t = false ->
  toggle callback this ev w
  = Ret tt (with_prevented (prevented w ++ [ev]) w).
Proof.
  intros Ht Hf. apply getTarget_Ret in Ht.
  unfold toggle. rewrite run_bind. unfold preventDefault at 1.
  unfold modify at 1. cbv beta iota.
  rewrite run_bind, getTarget_runs. simpl elements. rewrite Ht.
  unfold lifted. rewrite Hf. reflexivity.
Qed.

(** A button whose [aria-controls] names no element of the page. *)
Definition dangling_page : Window :=
  mkWindow
    [ mkElement "BUTTON" true None {[ "aria-controls" := "missing" ]} []
        None ]
    [] [] None "/" "" "" 1 None [].

Lemma toggle_without_target_witness :
  toggle no_callbacks 0 (mkEvent "click" (JElem 0)) dangling_page
  = Ret tt (with_prevented [mkEvent "click" (JElem 0)] dangling_page).
Proof.
  apply (toggle_without_target no_callbacks 0 (mkEvent "click" (JElem 0))
           JNull dangling_page dangling_page); reflexivity.
Defined.

(** *** The exact effect of the attribute operations *)

(** The element with [value] written under [name]; [None] removes the
    attribute. *)
Definition write_attr (name : string) (value : option string) (e : Element)
    : Element :=
  with_attributes
    (match value with
     | Some v => <[name := v]> (attributes e)
     | None => delete name (attributes e)
     end) e.

Definition attr_in (els : list Element) (n : NodeId) (k : string)
    : option string :=
  els !! n ≫= fun e => attributes e !! k.

Lemma with_elements_same w : with_elements (elements w) w = w.
Proof. destruct w. reflexivity. Qed.

Lemma insert_as_alter (f : Element -> Element) n e (els : list Element) :
  els !! n = Some e -> <[n := f e]> els = alter f n els.
Proof.
  intros He. apply list_eq. intros j. destruct (decide (n = j)) as [<- | Hne].
  - rewrite list_lookup_insert_eq by (eapply lookup_lt_Some; eauto).
    rewrite list_lookup_alter_eq, He. reflexivity.
  - rewrite list_lookup_insert_ne, list_lookup_alter_ne by done. reflexivity.
Qed.

Lemma attr_in_write (g : Element -> option string) name
    (els : list Element) (n m : nat) k :
  attr_in (alter (fun e => write_attr name (g e) e) n els) m k
  = if decide (m = n /\ k = name) then els !! n ≫= g else attr_in els m k.
Proof.
  unfold attr_in. destruct (decide (m = n)) as [-> | Hne].
  - rewrite list_lookup_alter_eq. destruct (els !! n) as [e |] eqn:He; simpl.
    + destruct (decide (k = name)) as [-> | Hk].
      * rewrite decide_True by done. unfold write_attr. simpl.
        destruct (g e); [apply lookup_insert_eq | apply lookup_delete_eq].
      * rewrite decide_False by (intros [_ ?]; done). unfold write_attr. simpl.
        destruct (g e); [apply lookup_insert_ne | apply lookup_delete_ne];
          congruence.
    + destruct (decide _); reflexivity.
  - rewrite list_lookup_alter_ne by done.
    rewrite decide_False by (intros [? _]; done). reflexivity.
Qed.

Lemma classes_write (g : Element -> option string) name (n : nat)
    (els : list Element) :
  classList <$> alter (fun e => write_attr name (g e) e) n els
  = classList <$> els.
Proof.
  apply list_eq. intros j. rewrite !list_lookup_fmap.
  destruct (decide (n = j)) as [<- | Hne].
  - rewrite list_lookup_alter_eq. destruct (els !! n); reflexivity.
  - rewrite list_lookup_alter_ne by done. reflexivity.
Qed.

Lemma setAttribute_exact n name value w :
  n < length (elements w) ->
  setAttribute (JElem n) name value w
  = Ret tt (with_elements
              (alter (fun e => write_attr name (Some value) e) n (elements w))
              w).
Proof.
  intros Hn. destruct (node_exists _ _ Hn) as [e He].
  unfold setAttribute. rewrite run_bind, (element_of_runs _ e) by done.
  cbv beta iota. unfold update_element, modify.
  rewrite <- (insert_as_alter _ _ _ _ He). reflexivity.
Qed.

Lemma removeAttribute_exact n name w :
  n < length (elements w) ->
  removeAttribute (JElem n) name w
  = Ret tt (with_elements
              (alter (fun e => write_attr name None e) n (elements w)) w).
Proof.
  intros Hn. destruct (node_exists _ _ Hn) as [e He].
  unfold removeAttribute. rewrite run_bind, (element_of_runs _ e) by done.
  cbv beta iota. unfold update_element, modify.
  rewrite <- (insert_as_alter _ _ _ _ He). reflexivity.
Qed.

(** *** The tabindex of the focusable children *)

(** The [tabindex] that l. 222-239 write for a child with the [tabindex]
    [tab] and the [data-toggle-tabindex] [dflt]; [None] is no attribute. *)
Definition tabindex_after (tab dflt : option string) : option string :=
  if bool_decide (tab = Some "-1")
  then if present dflt then dflt else None
  else Some "-1".

Definition focus_step (els : list Element) (n : NodeId) : list Element :=
  alter (fun e =>
           write_attr "tabindex"
             (tabindex_after (attributes e !! "tabindex")
                             (attributes e !! "data-toggle-tabindex")) e)
        n els.

Lemma focus_step_length els n : length (focus_step els n) = length els.
Proof. apply length_alter. Qed.

Lemma toggleFocusable_exact this ns w :
  Forall (fun n => n < length (elements w)) ns ->
  toggleFocusable this ns w
  = Ret tt (with_elements (foldl focus_step (elements w) ns) w).
Proof.
  unfold toggleFocusable. revert w.
  induction ns as [| n ns IH]; intros w Hns; simpl.
  - rewrite with_elements_same. reflexivity.
  - apply Forall_cons in Hns as [Hn Hns].
    destruct (node_exists _ _ Hn) as [e He].
    assert (Hstep :
      (tabindex ← getAttribute (JElem n) "tabindex";
       if bool_decide (tabindex = Some "-1")
       then
         dataDefault ← getAttribute (JElem n)
                         ("data-" +:+ Static.namespace +:+ "-tabindex");
         if present dataDefault
         then setAttribute (JElem n) "tabindex" (text_of dataDefault)
         else removeAttribute (JElem n) "tabindex"
       else setAttribute (JElem n) "tabindex" "-1") w
      = Ret tt (with_elements (focus_step (elements w) n) w)).
    { rewrite run_bind, (getAttribute_runs _ e) by done.
      unfold focus_step.
      rewrite <- (insert_as_alter
                    (fun e => write_attr "tabindex"
                       (tabindex_after (attributes e !! "tabindex")
                          (attributes e !! "data-toggle-tabindex")) e)
                    _ _ _ He).
      unfold tabindex_after.
      destruct (bool_decide (attributes e !! "tabindex" = Some "-1")).
      - rewrite run_bind, (getAttribute_runs _ e) by done.
        change ("data-" +:+ Static.namespace +:+ "-tabindex")
          with "data-toggle-tabindex".
        destruct (attributes e !! "data-toggle-tabindex") as [d |] eqn:Ed;
          unfold present.
        + destruct (negb (String.eqb d "")); cbv beta iota.
          * unfold setAttribute.
            rewrite run_bind, (element_of_runs _ e) by done. reflexivity.
          * unfold removeAttribute.
            rewrite run_bind, (element_of_runs _ e) by done. reflexivity.
        + cbv beta iota. unfold removeAttribute.
          rewrite run_bind, (element_of_runs _ e) by done. reflexivity.
      - unfold setAttribute.
        rewrite run_bind, (element_of_runs _ e) by done. reflexivity. }
    rewrite run_bind, Hstep. rewrite IH.
    + reflexivity.
    + simpl. rewrite focus_step_length. exact Hns.
Qed.

Lemma attr_in_focus_step els n m k :
  n < length els ->
  attr_in (focus_step els n) m k
  = if decide (m = n /\ k = "tabindex")
    then tabindex_after (attr_in els n "tabindex")
                        (attr_in els n "data-toggle-tabindex")
    else attr_in els m k.
Proof.
  intros Hn. unfold focus_step. rewrite attr_in_write.
  destruct (decide _); [| reflexivity].
  apply lookup_lt_is_Some in Hn as [e He]. unfold attr_in. rewrite He.
  reflexivity.
Qed.

Lemma attr_in_foldl_focus ns els m k :
  NoDup ns -> Forall (fun n => n < length els) ns ->
  attr_in (foldl focus_step els ns) m k
  = if decide (m ∈ ns /\ k = "tabindex")
    then tabindex_after (attr_in els m "tabindex")
                        (attr_in els m "data-toggle-tabindex")
    else attr_in els m k.
Proof.
  revert els. induction ns as [| n ns IH]; intros els Hnd Hns; cbn [foldl].
  - rewrite decide_False; [reflexivity |]. intros [H _].
    apply elem_of_nil in H. exact H.
  - apply NoDup_cons in Hnd as [Hn Hnd]. apply Forall_cons in Hns as [Hlt Hns].
    rewrite IH; [| exact Hnd | rewrite focus_step_length; exact Hns].
    rewrite !attr_in_focus_step by exact Hlt.
    repeat destruct (decide _);
      repeat match goal with H : _ /\ _ |- _ => destruct H end;
      subst; try reflexivity; exfalso; rewrite ?elem_of_cons in *;
      intuition congruence.
Qed.

Lemma foldl_focus_length ns els :
  length (foldl focus_step els ns) = length els.
Proof.
  revert els. induction ns as [| n ns IH]; intros els; simpl; [reflexivity |].
  rewrite IH. apply focus_step_length.
Qed.

Lemma classes_foldl_focus ns els :
  classList <$> foldl focus_step els ns = classList <$> els.
Proof.
  revert els. induction ns as [| n ns IH]; intros els; simpl; [reflexivity |].
  rewrite IH. apply classes_write.
Qed.

(** X9: [toggleFocusable] on distinct elements of the page returns, and
    changes nothing but the [tabindex] of these elements: one with the value
    ["-1"] gets its [data-toggle-tabindex] when that is a non-empty text and
    loses the attribute otherwise; any other gets the value ["-1"]. *)
Theorem toggleFocusable_each this ns w :
  NoDup ns -> Forall (fun n => n < length (elements w)) ns ->
  exists w',
    toggleFocusable this ns w = Ret tt w'
    /\ w' = with_elements (elements w') w
    /\ length (elements w') = length (elements w)
    /\ classes w' = classes w
    /\ forall n k,
         attr w' n k
         = if decide (n ∈ ns /\ k = "tabindex")
           then tabindex_after (attr w n "tabindex")
                               (attr w n "data-toggle-tabindex")
           else attr w n k.
Proof.
  intros Hnd Hns. eexists. split; [apply toggleFocusable_exact, Hns |].
  split; [reflexivity |]. split; [| split].
  - apply foldl_focus_length.
  - apply classes_foldl_focus.
  - intros n k. apply (attr_in_foldl_focus ns (elements w) n k Hnd Hns).
Qed.

(** A link that was taken out of the tab order with a default to return
    to, and a field that is in it. *)
Definition children_page : Window :=
  mkWindow
    [ mkElement "A" true None
        {[ "tabindex" := "-1"; "data-toggle-tabindex" := "0" ]} [] None;
      mkElement "INPUT" true None ∅ [] (Some true) ]
    [] [] None "/" "" "" 1 None [].

Lemma toggleFocusable_each_witness :
  exists w',
    toggleFocusable 0 [0; 1] children_page = Ret tt w'
    /\ w' = with_elements (elements w') children_page
    /\ length (elements w') = length (elements children_page)
    /\ classes w' = classes children_page
    /\ forall n k,
         attr w' n k
         = if decide (n ∈ [0; 1] /\ k = "tabindex")
           then tabindex_after (attr children_page n "tabindex")
                               (attr children_page n "data-toggle-tabindex")
           else attr children_page n k.
Proof.
  apply (toggleFocusable_each 0 [0; 1] children_page).
  - apply (bool_decide_unpack _). reflexivity.
  - repeat constructor.
Defined.

Lemma tabindex_after_twice (t d : option string) :
  tabindex_after (tabindex_after t d) d = t
  <-> t = Some "-1" \/ t = (if present d then d else None).
Proof.
  unfold tabindex_after at 2.
  destruct (bool_decide (t = Some "-1")) eqn:Et.
  - apply bool_decide_eq_true in Et. subst t.
    split; [intros _; left; reflexivity | intros _].
    unfold tabindex_after. destruct (present d) eqn:Ed.
    + destruct (bool_decide (d = Some "-1")) eqn:E1; [| reflexivity].
      apply bool_decide_eq_true in E1. exact E1.
    + reflexivity.
  - apply bool_decide_eq_false in Et. unfold tabindex_after.
    rewrite bool_decide_true by reflexivity.
    split; [intros H; right; symmetry; exact H |].
    intros [H | H]; [contradiction | symmetry; exact H].
Qed.

(** X10: two runs of [toggleFocusable] on the same elements, as when a
    panel is closed and opened again, restore the [tabindex] of an element
    exactly when it was ["-1"] or was what [data-toggle-tabindex] gives back
    (that value when it is a non-empty text, otherwise no attribute): any
    other [tabindex] is lost.  Nothing else changes. *)
Theorem toggleFocusable_twice this ns w :
  NoDup ns -> Forall (fun n => n < length (elements w)) ns ->
  exists w1 w2,
    toggleFocusable this ns w = Ret tt w1
    /\ toggleFocusable this ns w1 = Ret tt w2
    /\ (forall n k, n ∉ ns \/ k <> "tabindex" -> attr w2 n k = attr w n k)
    /\ forall n, n ∈ ns ->
         attr w2 n "tabindex" = attr w n "tabindex"
         <-> attr w n "tabindex" = Some "-1"
             \/ attr w n "tabindex"
                = (if present (attr w n "data-toggle-tabindex")
                   then attr w n "data-toggle-tabindex" else None).
Proof.
  intros Hnd Hns.
  set (els1 := foldl focus_step (elements w) ns).
  assert (Hns1 : Forall (fun n => n < length els1) ns)
    by (unfold els1; rewrite foldl_focus_length; exact Hns).
  exists (with_elements els1 w),
         (with_elements (foldl focus_step els1 ns) w).
  split; [apply toggleFocusable_exact, Hns |].
  split; [apply (toggleFocusable_exact this ns (with_elements els1 w)), Hns1 |].
  assert (Hw2 : forall n k,
    attr (with_elements (foldl focus_step els1 ns) w) n k
    = if decide (n ∈ ns /\ k = "tabindex")
      then tabindex_after
             (tabindex_after (attr w n "tabindex")
                             (attr w n "data-toggle-tabindex"))
             (attr w n "data-toggle-tabindex")
      else attr w n k).
  { intros n k.
    change (attr (with_elements (foldl focus_step els1 ns) w) n k)
      with (attr_in (foldl focus_step els1 ns) n k).
    rewrite (attr_in_foldl_focus ns els1 n k Hnd Hns1).
    unfold els1.
    rewrite !(attr_in_foldl_focus ns (elements w) n _ Hnd Hns).
    destruct (decide (n ∈ ns /\ k = "tabindex")) as [[Hn ->] | Hout];
      [| reflexivity].
    rewrite decide_True by (split; [exact Hn | reflexivity]).
    rewrite decide_False by (intros [_ ?]; discriminate). reflexivity. }
  split.
  - intros n k Hout. rewrite Hw2, decide_False; [reflexivity |].
    intros [Hn ->]. destruct Hout as [Hout | Hout]; contradiction.
  - intros n Hn. rewrite Hw2, decide_True by (split; [exact Hn | reflexivity]).
    apply tabindex_after_twice.
Qed.

Lemma toggleFocusable_twice_witness :
  exists w1 w2,
    toggleFocusable 0 [0; 1] children_page = Ret tt w1
    /\ toggleFocusable 0 [0; 1] w1 = Ret tt w2
    /\ (forall n k, n ∉ [0; 1] \/ k <> "tabindex" ->
          attr w2 n k = attr children_page n k)
    /\ forall n, n ∈ [0; 1] ->
         attr w2 n "tabindex" = attr children_page n "tabindex"
         <-> attr children_page n "tabindex" = Some "-1"
             \/ attr children_page n "tabindex"
                = (if present (attr children_page n "data-toggle-tabindex")
                   then attr children_page n "data-toggle-tabindex"
                   else None).
Proof.
  apply (toggleFocusable_twice 0 [0; 1] children_page).
  - apply (bool_decide_unpack _). reflexivity.
  - repeat constructor.
Defined.

(** *** The jump to the target *)

Lemma classList_contains_runs n e v t w :
  elements w !! n = Some e -> ToString v = Some t ->
  classList_contains (JElem n) v w = Ret (bool_decide (t ∈ classList e)) w.
Proof.
  intros He Hv. unfold classList_contains.
  rewrite run_bind, (element_of_runs _ e) by done.
  cbv beta iota. rewrite run_bind. unfold toString at 1. rewrite Hv.
  reflexivity.
Qed.


(** The trigger and its panel, open. *)
Definition open_page : Window :=
  with_elements
    [ mkElement "A" true None
        {[ "href" := "#panel"; "aria-expanded" := "true" ]} ["active"] None;
      mkElement "DIV" true None
        {[ "id" := "panel"; "aria-hidden" := "false" ]} ["active"] None ]
    toggle_page.


(** The fragments of three [href] texts, and a closed panel: the hash is
    cleared and the history still grows. *)
Example fragment_of_href :
  fragment "#panel" = "panel" /\ fragment "panel" = "panel"
  /\ fragment "#" = "" /\ fragment "#a b" = "a%20b".
Proof. repeat split. Qed.

Example jumpTo_closed_panel :
  exists w',
    jumpTo 0 (JElem 0) (JElem 1) toggle_page = Ret tt w'
    /\ hash w' = "" /\ history_length w' = 1 + history_length toggle_page
    /\ attr w' 1 "tabindex" = None
    /\ activeElement w' = activeElement toggle_page.
Proof. eexists. split; [reflexivity |]. repeat split. Qed.

(** *** What no operation of the class ever does *)

(** The window [w'] is within bounds of [w]: it has the same elements in
    the same places, each with its tag, attachment, parent, validity and
    every attribute outside [toggled_attributes]; as many Toggle objects;
    the listeners, the cancelled events and the history of [w] and perhaps
    more; the same registry and the same path. *)
Definition bounded (w w' : Window) : Prop :=
  Forall2 (el_frame toggled_attributes) (elements w) (elements w')
  /\ length (toggles w') = length (toggles w)
  /\ (exists added, listeners w' = listeners w ++ added)
  /\ (exists more, prevented w' = prevented w ++ more)
  /\ TogglesCallback w' = TogglesCallback w
  /\ pathname w' = pathname w /\ search w' = search w
  /\ history_length w <= history_length w'.

#[local] Instance bounded_preorder : PreOrder bounded.
Proof.
  split.
  - intros w. split; [apply (frame_refl toggled_attributes w) |].
    split; [reflexivity |]. split; [exists []; symmetry; apply app_nil_r |].
    split; [exists []; symmetry; apply app_nil_r |].
    split; [reflexivity |]. split; [reflexivity |]. split; [reflexivity | lia].
  - intros a b c (E1 & T1 & [l1 L1] & [p1 P1] & R1 & A1 & S1 & H1)
                 (E2 & T2 & [l2 L2] & [p2 P2] & R2 & A2 & S2 & H2).
    split; [eapply Forall2_trans; [| exact E1 | exact E2];
            intros x y z; apply el_frame_trans |].
    split; [congruence |].
    split; [exists (l1 ++ l2); rewrite L2, L1, app_assoc; reflexivity |].
    split; [exists (p1 ++ p2); rewrite P2, P1, app_assoc; reflexivity |].
    split; [congruence |]. split; [congruence |]. split; [congruence | lia].
Qed.

Lemma bounded_elements w els' :
  Forall2 (el_frame toggled_attributes) (elements w) els' ->
  bounded w (with_elements els' w).
Proof.
  intros HF. split; [exact HF |]. split; [reflexivity |].
  split; [exists []; symmetry; apply app_nil_r |].
  split; [exists []; symmetry; apply app_nil_r |].
  split; [reflexivity |]. split; [reflexivity |].
  split; [reflexivity |]. simpl. lia.
Qed.

Lemma keeps_bounded_update v (f : Element -> Element) :
  (forall e, el_frame toggled_attributes e (f e)) ->
  keeps bounded ('(n, e) ← element_of v; update_element n (f e)).
Proof.
  intros Hf w. rewrite run_bind. unfold element_of.
  destruct v as [| | | | | | |n]; try reflexivity.
  destruct (elements w !! n) as [e |] eqn:He; [| reflexivity].
  simpl. apply bounded_elements.
  apply (frame_update toggled_attributes w n e (f e) He), Hf.
Qed.

Lemma keeps_bounded_setAttribute v name value :
  name ∈ toggled_attributes -> keeps bounded (setAttribute v name value).
Proof.
  intros Hn.
  apply (keeps_bounded_update v
           (fun e => with_attributes (<[name := value]> (attributes e)) e)).
  intros e. repeat split. intros k Hk. simpl.
  apply lookup_insert_ne. congruence.
Qed.

Lemma keeps_bounded_removeAttribute v name :
  name ∈ toggled_attributes -> keeps bounded (removeAttribute v name).
Proof.
  intros Hn.
  apply (keeps_bounded_update v
           (fun e => with_attributes (delete name (attributes e)) e)).
  intros e. repeat split. intros k Hk. simpl.
  apply lookup_delete_ne. congruence.
Qed.

Lemma keeps_bounded_classList_toggle v t :
  keeps bounded (classList_toggle v t).
Proof.
  intros w. unfold classList_toggle. rewrite run_bind. unfold element_of.
  destruct v as [| | | | | | |n]; try reflexivity.
  destruct (elements w !! n) as [e |] eqn:He; [| reflexivity].
  cbv beta iota. rewrite run_bind. unfold toString.
  destruct (ToString t) as [s |]; [| reflexivity].
  destruct (String.eqb s ""); [reflexivity |].
  destruct (has_token_space s); [reflexivity |].
  simpl. apply bounded_elements.
  apply (frame_update toggled_attributes w n e _ He). repeat split.
Qed.

Lemma keeps_bounded_assign this f : keeps bounded (assign this f).
Proof.
  intros w. unfold assign. rewrite run_bind. unfold self.
  destruct (toggles w !! this) as [i |]; [| reflexivity].
  simpl. split; [apply (frame_refl toggled_attributes w) |].
  split; [apply length_insert |].
  split; [exists []; symmetry; apply app_nil_r |].
  split; [exists []; symmetry; apply app_nil_r |].
  split; [reflexivity |]. split; [reflexivity |]. split; [reflexivity | simpl; lia].
Qed.

Lemma keeps_bounded_addEventListener o t h :
  keeps bounded (addEventListener o t h).
Proof.
  intros w. simpl. split; [apply (frame_refl toggled_attributes w) |].
  split; [reflexivity |]. split; [eexists; reflexivity |].
  split; [exists []; symmetry; apply app_nil_r |].
  split; [reflexivity |]. split; [reflexivity |]. split; [reflexivity | simpl; lia].
Qed.

Lemma keeps_bounded_preventDefault ev : keeps bounded (preventDefault ev).
Proof.
  intros w. simpl. split; [apply (frame_refl toggled_attributes w) |].
  split; [reflexivity |]. split; [exists []; symmetry; apply app_nil_r |].
  split; [eexists; reflexivity |].
  split; [reflexivity |]. split; [reflexivity |]. split; [reflexivity | simpl; lia].
Qed.

Lemma keeps_bounded_location h (n : Window -> nat) :
  (forall w, history_length w <= n w) ->
  keeps bounded (modify (fun w => with_location h (n w) w)).
Proof.
  intros Hn w. simpl. split; [apply (frame_refl toggled_attributes w) |].
  split; [reflexivity |]. split; [exists []; symmetry; apply app_nil_r |].
  split; [exists []; symmetry; apply app_nil_r |].
  split; [reflexivity |]. split; [reflexivity |].
  split; [reflexivity | simpl; apply Hn].
Qed.

Lemma keeps_bounded_pushState : keeps bounded history_pushState.
Proof. apply keeps_bounded_location. intros w. lia. Qed.

Lemma keeps_bounded_set_hash v : keeps bounded (set_location_hash v).
Proof.
  intros w. unfold set_location_hash, modify. cbv zeta.
  destruct (String.eqb _ _); [reflexivity |].
  apply (keeps_bounded_location ("#" +:+ fragment v)
           (fun w => S (history_length w))).
  intros w1. lia.
Qed.

Lemma keeps_bounded_focus v : keeps bounded (focus v).
Proof.
  intros w. unfold focus. rewrite run_bind. unfold element_of.
  destruct v as [| | | | | | |n]; try reflexivity.
  destruct (elements w !! n) as [e |]; [| reflexivity].
  cbv beta iota. destruct (attached e); [| reflexivity].
  simpl. split; [apply (frame_refl toggled_attributes w) |].
  split; [reflexivity |]. split; [exists []; symmetry; apply app_nil_r |].
  split; [exists []; symmetry; apply app_nil_r |].
  split; [reflexivity |]. split; [reflexivity |]. split; [reflexivity | simpl; lia].
Qed.

#[local] Hint Resolve keeps_bounded_classList_toggle keeps_bounded_assign
  keeps_bounded_addEventListener keeps_bounded_preventDefault
  keeps_bounded_pushState keeps_bounded_set_hash keeps_bounded_focus : keeps.

Ltac toggled_name := apply (bool_decide_unpack _); reflexivity.

(** One step of a proof of [keeps bounded m], by the shape of [m]. *)
Ltac bounded_step :=
  lazymatch goal with
  | |- keeps _ (setAttribute _ _ _) =>
      apply keeps_bounded_setAttribute; toggled_name
  | |- keeps _ (removeAttribute _ _) =>
      apply keeps_bounded_removeAttribute; toggled_name
  | |- _ => keeps_step
  end.

Lemma keeps_bounded_toggleFocusable this ns :
  keeps bounded (toggleFocusable this ns).
Proof. unfold toggleFocusable. repeat bounded_step. Qed.

Lemma keeps_bounded_jumpTo this element target :
  keeps bounded (jumpTo this element target).
Proof. unfold jumpTo. repeat bounded_step. Qed.

Lemma keeps_bounded_toggle_classes this target :
  keeps bounded (toggle_classes this target).
Proof. unfold toggle_classes. repeat bounded_step. Qed.

Lemma keeps_bounded_toggle_target_aria this :
  keeps bounded (toggle_target_aria this).
Proof.
  unfold toggle_target_aria. cbn [forEach Static.targetAriaRoles].
  repeat bounded_step.
Qed.

Lemma keeps_bounded_toggle_element_aria this :
  keeps bounded (toggle_element_aria this).
Proof.
  unfold toggle_element_aria. cbn [forEach Static.elAriaRoles].
  repeat bounded_step.
Qed.

#[local] Hint Resolve keeps_bounded_toggleFocusable keeps_bounded_jumpTo
  keeps_bounded_toggle_classes keeps_bounded_toggle_target_aria
  keeps_bounded_toggle_element_aria : keeps.

Section Bounds.

Variable callback : HookId -> InstId -> M JSValue.

(** The caller's functions stay within bounds themselves. *)
Hypothesis callback_bounded : forall h this, keeps bounded (callback h this).

Lemma keeps_bounded_call f this : keeps bounded (call callback f this).
Proof. unfold call. destruct f; try (apply keeps_throw; apply _). auto. Qed.

Hint Resolve keeps_bounded_call : keeps.

Lemma keeps_bounded_elementToggle this element target focusable :
  keeps bounded (elementToggle callback this element target focusable).
Proof. unfold elementToggle. repeat bounded_step. Qed.

Hint Resolve keeps_bounded_elementToggle : keeps.

Lemma keeps_bounded_toggle this event :
  keeps bounded (toggle callback this event).
Proof. unfold toggle. repeat bounded_step. Qed.

Hint Resolve keeps_bounded_toggle : keeps.

Lemma keeps_bounded_change this event :
  keeps bounded (change callback this event).
Proof. unfold change. repeat bounded_step. Qed.

Hint Resolve keeps_bounded_change : keeps.

Lemma keeps_bounded_handle h event :
  keeps bounded (handle callback h event).
Proof. unfold handle, click. destruct h; repeat bounded_step. Qed.

End Bounds.


Lemma expand_bounded h this : keeps bounded (expand h this).
Proof. unfold expand. repeat bounded_step. Qed.


(** X13: the undo listener never returns: the transition it runs raises,
    or else the call that was to remove the listener does, for want of its
    second argument.  So the listener stays, with every listener there
    was. *)
Theorem undo_listener_stays
    (callback : HookId -> InstId -> M JSValue)
    (callback_bounded : forall h this, keeps bounded (callback h this))
    (this : InstId) (element target : JSValue) (event : Event) (w : Window) :
  exists x w',
    handle callback (Undo this element target) event w = Throw x w'
    /\ exists added, listeners w' = listeners w ++ added.
Proof.
  pose proof (keeps_bounded_handle callback callback_bounded
                (Undo this element target) event w) as Hb.
  assert (Hraise : exists x w',
    handle callback (Undo this element target) event w = Throw x w').
  { unfold handle. rewrite run_bind. unfold preventDefault at 1.
    unfold modify at 1. cbv beta iota. rewrite run_bind.
    destruct (elementToggle callback this element target [] _)
      as [[] w1 | x w1]; eauto. }
  destruct Hraise as (x & w' & E). rewrite E in Hb.
  exists x, w'. split; [exact E |]. apply Hb.
Qed.

Lemma undo_listener_stays_witness :
  exists x w',
    handle expand (Undo 0 (JElem 0) (JElem 1)) (mkEvent "click" (JElem 0))
           accordion_page
    = Throw x w'
    /\ exists added, listeners w' = listeners accordion_page ++ added.
Proof.
  exact (undo_listener_stays expand expand_bounded 0 (JElem 0) (JElem 1)
           (mkEvent "click" (JElem 0)) accordion_page).
Defined.



(** *** Construction with the element option *)



(** *** A class setting that is not one token *)

Section Tokens.

Variable callback : HookId -> InstId -> M JSValue.

(** X16: when the active class of the settings contains white space, as a
    text with two class names does, a transition that passes the guard
    raises an InvalidCharacterError at the first class it toggles: the
    fields of the object are stored, and no class and no attribute of any
    element has changed. *)
Theorem spaced_class_raises
    (this : InstId) (inst : Instance) (el : NodeId) (target : JSValue)
    (foc : list NodeId) (a : string) (w : Window) :
  toggles w !! this = Some inst -> el < length (elements w) ->
  plain_reference (elements w) el = true ->
  quiet callback this true (valid (settings inst)) ->
  quiet callback this false (before (settings inst)) ->
  truthy (activeClass (settings inst)) = true ->
  ToString (activeClass (settings inst)) = Some a ->
  has_token_space a = true ->
  elementToggle callback this (JElem el) target foc w
  = Throw InvalidCharacterError
          (store this (JElem el) target (sharing (elements w) el) foc inst w).
Proof.
  intros Hinst Hel Hplain Hqv Hqb Htruthy Ha Hspace.
  destruct (node_exists _ _ Hel) as [e He].
  assert (Hlt : this < length (toggles w)) by (eapply lookup_lt_Some; eauto).
  rewrite (elementToggle_stores callback _ _ _ _ inst
             (sharing (elements w) el))
    by (try apply others_of_plain; assumption).
  set (w0 := store this (JElem el) target (sharing (elements w) el) foc inst w).
  set (inst0 := stored (JElem el) target (sharing (elements w) el) foc inst).
  assert (Hinst0 : toggles w0 !! this = Some inst0)
    by (apply list_lookup_insert_eq; exact Hlt).
  rewrite run_bind, (this_settings_runs _ inst0) by exact Hinst0.
  change (settings inst0) with (settings inst).
  rewrite run_bind.
  destruct (guard_runs callback this _ w0 Hqv) as (d & w1 & -> & -> & ->).
  cbv iota.
  rewrite run_bind, (this_settings_runs _ inst0) by exact Hinst0.
  change (settings inst0) with (settings inst).
  rewrite run_bind.
  destruct (hook_runs callback this _ w0 Hqb) as ([] & w1 & -> & ->).
  rewrite run_bind. unfold toggle_classes at 1.
  rewrite !run_bind, (this_settings_runs _ inst0) by exact Hinst0.
  change (settings inst0) with (settings inst).
  rewrite Htruthy. rewrite !run_bind, (self_runs _ inst0) by exact Hinst0.
  change (this_element inst0) with (JElem el).
  assert (Hraise :
    classList_toggle (JElem el) (activeClass (settings inst)) w0
    = Throw InvalidCharacterError w0).
  { unfold classList_toggle.
    rewrite run_bind, (element_of_runs _ e) by exact He.
    cbv beta iota. rewrite run_bind, (toString_runs _ a) by exact Ha.
    destruct a as [| c a]; [discriminate Hspace |].
    simpl String.eqb. cbv iota. rewrite Hspace. reflexivity. }
  rewrite (run_bind_Throw _ _ _ _ _ Hraise). reflexivity.
Qed.

End Tokens.

(** [panel_page] after [new Toggle({activeClass: 'active open'})]. *)
Definition spaced_page : Window :=
  final (constructor (Some {[ "activeClass" := JStr "active open" ]})
                     panel_page).

Lemma spaced_class_raises_witness :
  elementToggle no_callbacks 0 (JElem 0) (JElem 1) [] spaced_page
  = Throw InvalidCharacterError
      (store 0 (JElem 0) (JElem 1) (sharing (elements spaced_page) 0) []
             (created (Some {[ "activeClass" := JStr "active open" ]}))
             spaced_page).
Proof.
  apply (spaced_class_raises no_callbacks 0
           (created (Some {[ "activeClass" := JStr "active open" ]}))
           0 (JElem 1) [] "active open" spaced_page);
    try reflexivity; try (vm_compute; lia); left; reflexivity.
Defined.

(** *** An event on a trigger *)

(** The selector of the focusable children, l. 170-171, as parsed. *)
Definition focusable_selector : list Simple :=
  default [] (parse_selector (join ", " Static.elFocusable)).

Lemma parse_focusable :
  parse_selector (join ", " Static.elFocusable) = Some focusable_selector.
Proof. vm_compute. reflexivity. Qed.

Lemma select_within_below root sel els :
  Forall (fun n => n < length els) (select_within root sel els).
Proof.
  apply Forall_forall. intros n Hn. unfold select_within in Hn.
  apply list_elem_of_filter in Hn as [_ Hn].
  pose proof (indices_from_below 0 (matches_any sel) els) as Hb.
  rewrite Forall_forall in Hb. apply (Hb n Hn).
Qed.

Lemma data_attribute_not_toggled name :
  "data-" +:+ name ∉ toggled_attributes.
Proof.
  intros Hin. change ("data-" +:+ name)
    with (String "d" (String "a" (String "t" (String "a"
            (String "-" name))))) in Hin.
  repeat (apply elem_of_cons in Hin as [Hin | Hin]; [discriminate |]).
  apply elem_of_nil in Hin. exact Hin.
Qed.

Section Events.

Variable callback : HookId -> InstId -> M JSValue.

(** The trigger [el] is set up for the object [this]: [getTarget] resolves
    the element [tgt] for it, a transition on the two runs to its end, and
    the trigger has no undo attribute. *)
Definition armed (this : InstId) (inst : Instance) (el tgt : NodeId)
    (w : Window) : Prop :=
  ready callback this inst el tgt [] w
  /\ target_of (elements w) (JElem el) = inr (JElem tgt)
  /\ exists ns,
       ToString (namespace (settings inst)) = Some ns
       /\ attr w el ("data-" +:+ dataset_name (ns +:+ "Undo")) = None.

(** What [toggle] does for an event on such a trigger. *)
Lemma toggle_runs this inst el tgt ev w :
  ev_target ev = JElem el -> armed this inst el tgt w ->
  runs (toggle callback this ev) w
       (fun _ w' =>
          frame toggled_attributes
                (store this (JElem el) (JElem tgt) (sharing (elements w) el)
                       (select_within tgt focusable_selector (elements w))
                       inst (with_prevented (prevented w ++ [ev]) w)) w'
          /\ classes w'
             = apply_flips
                 (transition_flips
                    (class_token (activeClass (settings inst)))
                    (class_token (inactiveClass (settings inst)))
                    el tgt (sharing (elements w) el))
                 (classes w)
          /\ attr w' tgt "aria-hidden"
             = aria_after (attr w tgt "aria-hidden")).
Proof.
  intros Hev (R & Ht & ns & Hns & Hundo).
  destruct R as (Hinst & Hel & Htg & _ & Hplain & Ha & Hi & Hqv & Hqb & Hqa).
  set (foc := select_within tgt focusable_selector (elements w)).
  set (w0 := with_prevented (prevented w ++ [ev]) w).
  assert (R0 : ready callback this inst el tgt foc w0).
  { split; [exact Hinst |]. split; [exact Hel |]. split; [exact Htg |].
    split; [apply select_within_below |]. repeat split; assumption. }
  destruct (node_exists _ _ Htg) as [t Het].
  assert (Hlt : this < length (toggles w)) by (eapply lookup_lt_Some; eauto).
  unfold toggle. rewrite Hev.
  apply runs_bind. exists tt, w0. split; [reflexivity |].
  apply runs_bind. exists (JElem tgt), w0. split.
  { rewrite getTarget_runs. change (elements w0) with (elements w).
    rewrite Ht. reflexivity. }
  change (truthy (JElem tgt)) with true. cbv iota.
  apply runs_bind. exists foc, w0. split.
  { unfold querySelectorAll.
    rewrite run_bind, (element_of_runs _ t) by exact Het.
    cbv beta iota. rewrite run_bind. unfold parsed.
    rewrite parse_focusable. reflexivity. }
  change (negb true) with false. cbv iota.
  apply runs_bind. eapply runs_weaken;
    [apply (elementToggle_runs callback _ _ _ _ _ _ R0) |].
  intros _ w1 (F & C & A). cbv beta.
  assert (Hinst1 : toggles w1 !! this
                   = Some (stored (JElem el) (JElem tgt)
                             (sharing (elements w) el) foc inst)).
  { rewrite (frame_toggles _ _ _ _ F). apply list_lookup_insert_eq, Hlt. }
  apply runs_bind. eapply runs_this_settings; [exact Hinst1 |].
  apply runs_bind. exists ns, w1. split; [apply toString_runs, Hns |].
  assert (Hel1 : el < length (elements w1))
    by (rewrite (frame_length _ _ _ F); exact Hel).
  destruct (node_exists _ _ Hel1) as [e1 He1].
  apply runs_bind. exists None, w1. split.
  { unfold dataset. rewrite run_bind, (element_of_runs _ e1) by exact He1.
    cbv beta iota. destruct (hyphen_lower _); [reflexivity |].
    rewrite <- (attr_lookup _ _ _ _ He1).
    rewrite (frame_attr _ _ _ el _ F) by apply data_attribute_not_toggled.
    change (Ret (attr w el ("data-" +:+ dataset_name (ns +:+ "Undo"))) w1
            = Ret None w1).
    rewrite Hundo. reflexivity. }
  change (present None) with false. cbv iota.
  apply runs_ret. split; [exact F |]. split; [exact C | exact A].
Qed.


End Events.

(** A required field that reveals a hint, valid and without the active
    class, after [new Toggle()]. *)
Definition field_page : Window :=
  final (constructor None
    (mkWindow
       [ mkElement "INPUT" true None
           {[ "data-js" := "toggle"; "aria-controls" := "hint" ]} []
           (Some true);
         mkElement "P" true None
           {[ "id" := "hint"; "aria-hidden" := "true" ]} ["hidden"] None ]
       [] [] None "/" "" "" 1 None [])).

Lemma field_page_armed : armed no_callbacks 0 (created None) 0 1 field_page.
Proof.
  split; [| split; [reflexivity | exists "toggle"; split; reflexivity]].
  repeat split; try reflexivity; try (vm_compute; lia);
    try (left; reflexivity).
Qed.


(** *** A click that reaches the delegated listener *)

Section Delegation.

Variable callback : HookId -> InstId -> M JSValue.


End Delegation.

(** A button with [data-js="toggle"] and its panel, after
    [new Toggle()]. *)
Definition button_page : Window :=
  final (constructor None
    (mkWindow
       [ mkElement "BUTTON" true None
           {[ "data-js" := "toggle"; "aria-controls" := "panel";
              "aria-expanded" := "false" ]} [] None;
         mkElement "DIV" true None
           {[ "id" := "panel"; "aria-hidden" := "true" ]} ["hidden"] None ]
       [] [] None "/" "" "" 1 None [])).

Lemma button_page_armed : armed no_callbacks 0 (created None) 0 1 button_page.
Proof.
  split; [| split; [reflexivity | exists "toggle"; split; reflexivity]].
  repeat split; try reflexivity; try (vm_compute; lia);
    try (left; reflexivity).
Qed.


(** *** The phases of a transition *)

Section Phases.

Variable callback : HookId -> InstId -> M JSValue.

(** The conditions of [ready] but the one on the [after] hook. *)
Definition prepared (this : InstId) (inst : Instance) (el tgt : NodeId)
    (foc : list NodeId) (w : Window) : Prop :=
  toggles w !! this = Some inst
  /\ el < length (elements w) /\ tgt < length (elements w)
  /\ Forall (fun n => n < length (elements w)) foc
  /\ plain_reference (elements w) el = true
  /\ class_ok (activeClass (settings inst)) = true
  /\ class_ok (inactiveClass (settings inst)) = true
  /\ quiet callback this true (valid (settings inst))
  /\ quiet callback this false (before (settings inst)).

Lemma ready_prepared this inst el tgt foc w :
  ready callback this inst el tgt foc w -> prepared this inst el tgt foc w.
Proof.
  intros (H1 & H2 & H3 & H4 & H5 & H6 & H7 & H8 & H9 & _).
  repeat split; assumption.
Qed.

(** A transition up to its last two steps: in [w4] the classes are
    toggled and only [aria-hidden] and [tabindex] are written; the ARIA
    attributes of the triggers take [w4] to [w5], where the [after] hook
    is called. *)
Lemma elementToggle_phases this inst el tgt foc w :
  prepared this inst el tgt foc w ->
  exists w4 w5,
    frame ["aria-hidden"; "tabindex"]
          (store this (JElem el) (JElem tgt) (sharing (elements w) el) foc
                 inst w) w4
    /\ classes w4
       = apply_flips
           (transition_flips
              (class_token (activeClass (settings inst)))
              (class_token (inactiveClass (settings inst)))
              el tgt (sharing (elements w) el))
           (classes w)
    /\ attr w4 tgt "aria-hidden" = aria_after (attr w tgt "aria-hidden")
    /\ toggle_element_aria this w4 = Ret tt w5
    /\ frame trigger_roles w4 w5 /\ classes w5 = classes w4
    /\ elementToggle callback this (JElem el) (JElem tgt) foc w
       = (s ← this_settings this;
          if truthy (after s) then call callback (after s) this ;; mret tt
          else mret tt) w5.
Proof.
  intros (Hinst & Hel & Htg & Hfoc & Hplain & Ha & Hi & Hqv & Hqb).
  set (os := sharing (elements w) el).
  set (w0 := store this (JElem el) (JElem tgt) os foc inst w).
  set (inst0 := stored (JElem el) (JElem tgt) os foc inst).
  assert (Hlt : this < length (toggles w)) by (eapply lookup_lt_Some; eauto).
  assert (D0 : during this inst0 el tgt os foc w0).
  { split; [apply list_lookup_insert_eq; exact Hlt | repeat split]. }
  assert (Hos : Forall (fun n => n < length (elements w0)) os)
    by apply sharing_below.
  destruct (guard_runs callback this _ w0 Hqv) as (d & wg & Eg & -> & ->).
  destruct (hook_runs callback this _ w0 Hqb) as ([] & wb & Eb & ->).
  (* classes *)
  destruct (toggle_classes_runs this inst0 el tgt os foc w0 D0 Hel Htg Hos
              Ha Hi) as ([] & w1 & E1 & F1 & C1).
  pose proof (during_frame _ _ _ _ _ _ _ _ _ F1 D0) as D1.
  pose proof (frame_length _ _ _ F1) as L1.
  (* aria-hidden *)
  assert (Htg1 : tgt < length (elements w1)) by (rewrite L1; exact Htg).
  destruct (toggle_target_aria_runs this inst0 el tgt os foc w1 D1 Htg1)
    as ([] & w2 & E2 & F2 & C2 & A2).
  pose proof (during_frame _ _ _ _ _ _ _ _ _ F2 D1) as D2.
  pose proof (frame_length _ _ _ F2) as L2.
  (* focusable children *)
  assert (Hfocus :
    runs (if truthy (focusable (settings inst0))
          then i ← self this;
               ns ← the_list (this_focusable i);
               toggleFocusable this ns
          else mret tt) w2
      (fun _ w' => frame ["tabindex"] w2 w' /\ classes w' = classes w2)).
  { destruct (truthy (focusable (settings inst0))).
    - apply runs_bind. eapply runs_self; [apply D2 |].
      apply runs_bind. apply runs_the_list.
      apply toggleFocusable_runs. rewrite L2, L1. exact Hfoc.
    - apply runs_ret. split; [apply frame_refl | reflexivity]. }
  destruct Hfocus as ([] & w3 & E3 & F3 & C3).
  pose proof (during_frame _ _ _ _ _ _ _ _ _ F3 D2) as D3.
  pose proof (frame_length _ _ _ F3) as L3.
  (* jump *)
  assert (Hjump :
    runs (if truthy (jump (settings inst0))
          then i ← self this;
               h ← hasAttribute (this_element i) "href";
               if h : bool
               then i0 ← self this;
                    jumpTo this (this_element i0) (this_target i0)
               else mret tt
          else mret tt) w3
      (fun _ w' => frame ["tabindex"] w3 w' /\ classes w' = classes w3)).
  { destruct (truthy (jump (settings inst0))).
    - apply runs_bind. eapply runs_self; [apply D3 |].
      apply runs_bind.
      eapply (runs_hasAttribute_at el); [rewrite L3, L2, L1; exact Hel |].
      destruct (bool_decide _).
      + apply runs_bind. eapply runs_self; [apply D3 |].
        eapply (jumpTo_runs this inst0 el tgt);
          [apply D3 | rewrite L3, L2, L1; exact Hel
           | rewrite L3, L2, L1; exact Htg | exact Ha].
      + apply runs_ret. split; [apply frame_refl | reflexivity].
    - apply runs_ret. split; [apply frame_refl | reflexivity]. }
  destruct Hjump as ([] & w4 & E4 & F4 & C4).
  pose proof (during_frame _ _ _ _ _ _ _ _ _ F4 D3) as D4.
  pose proof (frame_length _ _ _ F4) as L4.
  (* aria-pressed, aria-expanded *)
  assert (Hel4 : el < length (elements w4))
    by (rewrite L4, L3, L2, L1; exact Hel).
  assert (Hos4 : Forall (fun n => n < length (elements w4)) os)
    by (rewrite L4, L3, L2, L1; exact Hos).
  destruct (toggle_element_aria_runs this inst0 el tgt os foc w4 D4 Hel4 Hos4)
    as ([] & w5 & E5 & F5 & C5).
  exists w4, w5.
  assert (F04 : frame ["aria-hidden"; "tabindex"] w0 w4).
  { eapply frame_trans;
      [eapply frame_mono; [| exact F1]; intros k Hk;
       apply elem_of_nil in Hk; contradiction |].
    eapply frame_trans;
      [eapply frame_mono; [| exact F2]; apply singleton_subseteq;
       repeat constructor |].
    eapply frame_trans;
      [eapply frame_mono; [| exact F3]; apply singleton_subseteq;
       repeat constructor |].
    eapply frame_mono; [| exact F4]. apply singleton_subseteq.
    repeat constructor. }
  split; [exact F04 |].
  split; [rewrite C4, C3, C2, C1; reflexivity |].
  split.
  { rewrite (frame_attr _ _ _ tgt "aria-hidden" F4)
      by (intros Hin; apply list_elem_of_singleton in Hin; discriminate).
    rewrite (frame_attr _ _ _ tgt "aria-hidden" F3)
      by (intros Hin; apply list_elem_of_singleton in Hin; discriminate).
    rewrite A2.
    rewrite (frame_attr _ _ _ tgt "aria-hidden" F1) by (apply not_elem_of_nil).
    reflexivity. }
  split; [exact E5 |]. split; [exact F5 |]. split; [exact C5 |].
  rewrite (elementToggle_stores callback _ _ _ _ inst os)
    by (try apply others_of_plain; assumption).
  fold w0.
  rewrite run_bind, (this_settings_runs _ inst0) by apply D0.
  change (settings inst0) with (settings inst).
  rewrite (run_bind_Ret _ _ _ _ _ Eg). cbv iota.
  rewrite run_bind, (this_settings_runs _ inst0) by apply D0.
  change (settings inst0) with (settings inst).
  rewrite (run_bind_Ret _ _ _ _ _ Eb).
  rewrite (run_bind_Ret _ _ _ _ _ E1).
  rewrite (run_bind_Ret _ _ _ _ _ E2).
  rewrite run_bind, (this_settings_runs _ inst0) by apply D2.
  rewrite (run_bind_Ret _ _ _ _ _ E3).
  rewrite run_bind, (this_settings_runs _ inst0) by apply D3.
  rewrite (run_bind_Ret _ _ _ _ _ E4).
  rewrite (run_bind_Ret _ _ _ _ _ E5).
  reflexivity.
Qed.

End Phases.

(** *** The ARIA attributes of the triggers *)

(** One round of the loop of l. 363-366 on the trigger [o]. *)
Definition others_step (name : string) (value : option string) (el : NodeId)
    (els : list Element) (o : NodeId) : list Element :=
  if bool_decide (o ≠ el) && present (attr_in els o name)
  then alter (fun e => write_attr name (Some (flipped value)) e) o els
  else els.

(** One round of the loop of l. 355-367, for the attribute [name]. *)
Definition role_step (el : NodeId) (os : list NodeId) (els : list Element)
    (name : string) : list Element :=
  foldl (others_step name (attr_in els el name) el)
        (if present (attr_in els el name)
         then alter (fun e =>
                       write_attr name
                         (Some (flipped (attr_in els el name))) e) el els
         else els)
        os.

Lemma others_step_length name value el els o :
  length (others_step name value el els o) = length els.
Proof.
  unfold others_step. destruct (_ && _); [apply length_alter | reflexivity].
Qed.

Lemma aria_others_exact this inst el tgt os foc name value ns w :
  during this inst el tgt os foc w ->
  Forall (fun n => n < length (elements w)) ns ->
  forEach ns (fun other =>
    i ← self this;
    if bool_decide (JElem other ≠ this_element i)
    then
      own ← getAttribute (JElem other) name;
      if present own
      then setAttribute (JElem other) name (flipped value)
      else mret tt
    else mret tt) w
  = Ret tt (with_elements
              (foldl (others_step name value el) (elements w) ns) w).
Proof.
  revert w. induction ns as [| o ns IH]; intros w D Hns.
  - simpl. rewrite with_elements_same. reflexivity.
  - apply Forall_cons in Hns as [Ho Hns].
    pose proof D as (Hinst & He & _).
    destruct (node_exists _ _ Ho) as [e Heo].
    cbn [forEach foldl].
    assert (Hstep :
      (i ← self this;
       if bool_decide (JElem o ≠ this_element i)
       then
         own ← getAttribute (JElem o) name;
         if present own
         then setAttribute (JElem o) name (flipped value)
         else mret tt
       else mret tt) w
      = Ret tt (with_elements (others_step name value el (elements w) o) w)).
    { rewrite run_bind, (self_runs _ inst) by exact Hinst.
      rewrite He. unfold others_step.
      replace (bool_decide (JElem o ≠ JElem el)) with (bool_decide (o ≠ el))
        by (apply bool_decide_ext; split; intros H1 H2; apply H1; congruence).
      destruct (bool_decide (o ≠ el)); simpl andb; cbv iota.
      - rewrite run_bind, (getAttribute_runs _ e) by exact Heo.
        change (attr_in (elements w) o name) with (attr w o name).
        rewrite (attr_lookup _ _ _ _ Heo).
        destruct (present (attributes e !! name)).
        + apply setAttribute_exact, Ho.
        + rewrite with_elements_same. reflexivity.
      - rewrite with_elements_same. reflexivity. }
    rewrite run_bind, Hstep.
    rewrite (IH (with_elements (others_step name value el (elements w) o) w)).
    + reflexivity.
    + exact D.
    + simpl. rewrite others_step_length. exact Hns.
Qed.

Lemma role_step_length el os els name :
  length (role_step el os els name) = length els.
Proof.
  unfold role_step.
  assert (H : forall v ns l,
    length (foldl (others_step name v el) l ns) = length l).
  { intros v ns. induction ns as [| o ns IH]; intros l; simpl;
      [reflexivity |].
    rewrite IH. apply others_step_length. }
  rewrite H. destruct (present _); [apply length_alter | reflexivity].
Qed.

Lemma aria_role_exact this inst el tgt os foc name w :
  during this inst el tgt os foc w ->
  el < length (elements w) ->
  Forall (fun n => n < length (elements w)) os ->
  (i ← self this;
   value ← getAttribute (this_element i) name;
   (if present value
    then i ← self this;
         setAttribute (this_element i) name (flipped value)
    else mret tt) ;;
   i ← self this;
   others ← the_list (this_others i);
   forEach others (fun other =>
     i ← self this;
     if bool_decide (JElem other ≠ this_element i)
     then
       own ← getAttribute (JElem other) name;
       if present own
       then setAttribute (JElem other) name (flipped value)
       else mret tt
     else mret tt)) w
  = Ret tt (with_elements (role_step el os (elements w) name) w).
Proof.
  intros D Hel Hos. pose proof D as (Hinst & He & Ht & Ho & Hf).
  destruct (node_exists _ _ Hel) as [e Hee].
  rewrite run_bind, (self_runs _ inst) by exact Hinst.
  rewrite He.
  rewrite run_bind, (getAttribute_runs _ e) by exact Hee.
  unfold role_step. change (attr_in (elements w) el name) with (attr w el name).
  rewrite (attr_lookup _ _ _ _ Hee).
  set (value := attributes e !! name).
  assert (Hrest : forall els1, length els1 = length (elements w) ->
    (i ← self this;
     others ← the_list (this_others i);
     forEach others (fun other =>
       i ← self this;
       if bool_decide (JElem other ≠ this_element i)
       then
         own ← getAttribute (JElem other) name;
         if present own
         then setAttribute (JElem other) name (flipped value)
         else mret tt
       else mret tt)) (with_elements els1 w)
    = Ret tt (with_elements (foldl (others_step name value el) els1 os) w)).
  { intros els1 L1.
    rewrite run_bind, (self_runs _ inst) by exact Hinst.
    rewrite Ho, run_bind.
    change (the_list (Some os) (with_elements els1 w))
      with (Ret os (with_elements els1 w)).
    cbv beta iota.
    rewrite (aria_others_exact this inst el tgt os foc name value os
               (with_elements els1 w)).
    - reflexivity.
    - exact D.
    - simpl. rewrite L1. exact Hos. }
  rewrite run_bind. destruct (present value).
  - rewrite run_bind, (self_runs _ inst) by exact Hinst.
    rewrite He, setAttribute_exact by exact Hel.
    apply Hrest, length_alter.
  - rewrite run_ret. rewrite <- (with_elements_same w) at 1.
    apply Hrest. reflexivity.
Qed.

Lemma toggle_element_aria_exact this inst el tgt os foc w :
  during this inst el tgt os foc w ->
  el < length (elements w) ->
  Forall (fun n => n < length (elements w)) os ->
  toggle_element_aria this w
  = Ret tt (with_elements
              (role_step el os (role_step el os (elements w) "aria-pressed")
                         "aria-expanded") w).
Proof.
  intros D Hel Hos. unfold toggle_element_aria.
  cbn [forEach Static.elAriaRoles].
  rewrite run_bind, (aria_role_exact this inst el tgt os foc) by assumption.
  rewrite run_bind,
    (aria_role_exact this inst el tgt os foc "aria-expanded"
       (with_elements (role_step el os (elements w) "aria-pressed") w)).
  - reflexivity.
  - exact D.
  - simpl. rewrite role_step_length. exact Hel.
  - simpl. rewrite role_step_length. exact Hos.
Qed.

Lemma attr_in_present_lookup (els : list Element) n name :
  present (attr_in els n name) = true -> exists e, els !! n = Some e.
Proof.
  unfold attr_in. destruct (els !! n) as [e |]; [eauto | discriminate].
Qed.

Lemma attr_in_set (els : list Element) (o : nat) name v n k :
  (exists e, els !! o = Some e) ->
  attr_in (alter (fun e => write_attr name (Some v) e) o els) n k
  = if decide (n = o /\ k = name) then Some v else attr_in els n k.
Proof.
  intros [e He]. rewrite (attr_in_write (fun _ => Some v)).
  rewrite He. reflexivity.
Qed.

Lemma attr_in_others_step name value el els o n k :
  attr_in (others_step name value el els o) n k
  = if decide (n = o /\ o <> el /\ k = name
               /\ present (attr_in els o name) = true)
    then Some (flipped value) else attr_in els n k.
Proof.
  unfold others_step.
  destruct (decide (o = el)) as [-> | Hne].
  - rewrite bool_decide_false by (intros H; apply H; reflexivity).
    rewrite decide_False; [reflexivity |]. intros (_ & H & _). apply H.
    reflexivity.
  - rewrite bool_decide_true by exact Hne. simpl andb.
    destruct (present (attr_in els o name)) eqn:Ep.
    + rewrite attr_in_set by (apply (attr_in_present_lookup _ _ name), Ep).
      destruct (decide (n = o /\ k = name)) as [[-> ->] | Hout].
      * rewrite decide_True by (repeat split; assumption). reflexivity.
      * rewrite decide_False; [reflexivity |].
        intros (? & _ & ? & _). apply Hout. split; assumption.
    + rewrite decide_False; [reflexivity |]. intros (_ & _ & _ & H).
      discriminate.
Qed.

Lemma attr_in_foldl_others name value el ns els n k :
  NoDup ns ->
  attr_in (foldl (others_step name value el) els ns) n k
  = if decide (n ∈ ns /\ n <> el /\ k = name
               /\ present (attr_in els n name) = true)
    then Some (flipped value) else attr_in els n k.
Proof.
  revert els. induction ns as [| o ns IH]; intros els Hnd; cbn [foldl].
  - rewrite decide_False; [reflexivity |]. intros [H _].
    apply elem_of_nil in H. exact H.
  - apply NoDup_cons in Hnd as [Ho Hnd].
    rewrite IH by exact Hnd. rewrite !attr_in_others_step.
    repeat destruct (decide _);
      repeat match goal with H : _ /\ _ |- _ => destruct H end;
      subst; try reflexivity; try contradiction;
      exfalso; rewrite ?elem_of_cons in *; intuition congruence.
Qed.

Lemma attr_in_role_step el os els name n k :
  NoDup os ->
  attr_in (role_step el os els name) n k
  = if decide (k = name)
    then if decide (n = el) then aria_after (attr_in els el name)
         else if decide (n ∈ os)
              then if present (attr_in els n name)
                   then Some (flipped (attr_in els el name))
                   else attr_in els n name
              else attr_in els n name
    else attr_in els n k.
Proof.
  intros Hnd. unfold role_step. rewrite attr_in_foldl_others by exact Hnd.
  set (v := attr_in els el name).
  assert (H1 : forall m j,
    attr_in (if present v
             then alter (fun e => write_attr name (Some (flipped v)) e) el els
             else els) m j
    = if decide (m = el /\ j = name /\ present v = true)
      then Some (flipped v) else attr_in els m j).
  { intros m j. destruct (present v) eqn:Ep.
    - rewrite attr_in_set by (apply (attr_in_present_lookup _ _ name), Ep).
      destruct (decide (m = el /\ j = name)) as [[-> ->] | Hout].
      + rewrite decide_True by (repeat split; reflexivity). reflexivity.
      + rewrite decide_False; [reflexivity |].
        intros (? & ? & _). apply Hout. split; assumption.
    - rewrite decide_False; [reflexivity |]. intros (_ & _ & H).
      discriminate. }
  rewrite !H1. unfold aria_after. fold v.
  destruct (decide (k = name)) as [-> | Hk].
  - destruct (decide (n = el)) as [-> | Hn].
    + rewrite decide_False by (intros (_ & H & _); apply H; reflexivity).
      destruct (present v) eqn:Ep.
      * rewrite decide_True by (repeat split; reflexivity). reflexivity.
      * rewrite decide_False by (intros (_ & _ & H); discriminate).
        reflexivity.
    + rewrite (decide_False (P := n = el /\ _)) by (intros [? _]; contradiction).
      destruct (decide (n ∈ os)) as [Hin | Hout].
      * destruct (present (attr_in els n name)) eqn:Ep.
        -- rewrite decide_True by (repeat split; assumption). reflexivity.
        -- rewrite decide_False by (intros (_ & _ & _ & H); congruence).
           reflexivity.
      * rewrite decide_False by (intros [? _]; contradiction). reflexivity.
  - rewrite decide_False by (intros (_ & _ & ? & _); contradiction).
    rewrite decide_False by (intros (_ & ? & _); contradiction).
    reflexivity.
Qed.

Lemma attr_in_roles el os els role n :
  NoDup os -> role ∈ trigger_roles ->
  attr_in (role_step el os (role_step el os els "aria-pressed")
                     "aria-expanded") n role
  = if decide (n = el) then aria_after (attr_in els el role)
    else if decide (n ∈ os)
         then if present (attr_in els n role)
              then Some (flipped (attr_in els el role))
              else attr_in els n role
         else attr_in els n role.
Proof.
  intros Hnd Hrole. unfold trigger_roles in Hrole.
  apply elem_of_cons in Hrole as [-> | Hrole];
    [| apply list_elem_of_singleton in Hrole as ->].
  - rewrite attr_in_role_step by exact Hnd.
    rewrite (decide_False (P := "aria-pressed" = "aria-expanded"))
      by discriminate.
    rewrite attr_in_role_step by exact Hnd.
    rewrite (decide_True (P := "aria-pressed" = "aria-pressed"))
      by reflexivity.
    reflexivity.
  - rewrite attr_in_role_step by exact Hnd.
    rewrite (decide_True (P := "aria-expanded" = "aria-expanded"))
      by reflexivity.
    rewrite !attr_in_role_step by exact Hnd.
    rewrite !(decide_False (P := "aria-expanded" = "aria-pressed"))
      by discriminate.
    reflexivity.
Qed.

Section Roles.

Variable callback : HookId -> InstId -> M JSValue.


End Roles.

(** Two buttons for one panel; only the first says it is expanded. *)
Definition two_buttons_page : Window :=
  final (constructor None
    (mkWindow
       [ mkElement "BUTTON" true None
           {[ "aria-controls" := "panel"; "aria-expanded" := "true" ]}
           ["active"] None;
         mkElement "BUTTON" true None
           {[ "aria-controls" := "panel"; "aria-expanded" := "false" ]}
           [] None;
         mkElement "DIV" true None {[ "id" := "panel" ]} ["active"] None ]
       [] [] None "/" "" "" 1 None [])).

Lemma two_buttons_page_ready :
  ready no_callbacks 0 (created None) 1 2 [] two_buttons_page.
Proof.
  repeat split; try reflexivity; try (vm_compute; lia);
    try (left; reflexivity).
Qed.


(** On [two_buttons_page] a click on the second button, which is
    collapsed, leaves both buttons expanded: the first one, which was
    expanded, is not flipped but given the state of the second. *)
Example other_trigger_is_not_flipped :
  exists w',
    elementToggle no_callbacks 0 (JElem 1) (JElem 2) [] two_buttons_page
    = Ret tt w'
    /\ attr two_buttons_page 0 "aria-expanded" = Some "true"
    /\ attr w' 0 "aria-expanded" = Some "true"
    /\ attr w' 1 "aria-expanded" = Some "true".
Proof.
  eexists. split; [vm_compute; reflexivity |].
  split; [| split]; reflexivity.
Qed.

(** *** The accordion of the facade *)

(** The [after] hook of [Default.accordion], l. 797-799: it toggles a
    class on the parent of the trigger. *)
Definition expand_parent : HookId -> InstId -> M JSValue :=
  fun _ this =>
    i ← self this;
    '(_, e) ← element_of (this_element i);
    match parentNode e with
    | Some p => classList_toggle (JElem p) (JStr "is-expanded") ;;
                mret JUndefined
    | None => throw TypeError
    end.

Lemma flip_parity_other_token fs n t :
  Forall (fun f => snd f <> t) fs -> flip_parity fs n t = false.
Proof.
  induction fs as [| f fs IH]; intros Hfs; [reflexivity |].
  apply Forall_cons in Hfs as [Hf Hfs]. rewrite flip_parity_cons.
  rewrite bool_decide_false by (intros [_ ->]; apply Hf; reflexivity).
  rewrite IH by exact Hfs. reflexivity.
Qed.

Lemma transition_flips_tokens a i el tgt os t :
  a <> Some t -> i <> Some t ->
  Forall (fun f => snd f <> t) (transition_flips a i el tgt os).
Proof.
  intros Ha Hi. unfold transition_flips. apply Forall_app. split.
  - destruct a as [a |]; [| constructor].
    assert (Hne : a <> t) by congruence.
    repeat (constructor; [exact Hne |]).
    apply Forall_fmap, Forall_forall. intros o _. exact Hne.
  - destruct i as [i |]; [| constructor].
    constructor; [simpl; congruence | constructor].
Qed.


(** An accordion item: the header holds the button, the panel follows;
    after [new Toggle({selector: ..., after: ...})] as in
    [Default.accordion]. *)
Definition accordion_item_page : Window :=
  final (constructor
    (Some {[ "selector" := JStr ("[data-js*=" +:+ quoted "accordion" +:+ "]");
             "after" := JFun 0 ]})
    (mkWindow
       [ mkElement "H3" true None ∅ [] None;
         mkElement "BUTTON" true (Some 0)
           {[ "data-js" := "accordion"; "aria-controls" := "body";
              "aria-expanded" := "false" ]} [] None;
         mkElement "DIV" true None
           {[ "id" := "body"; "aria-hidden" := "true" ]} ["hidden"] None ]
       [] [] None "/" "" "" 1 None [])).

(** [expand_parent] is a hook the transition can attend to, wherever
    the trigger has a parent in the page. *)
Lemma expand_parent_hook_ok (obs : relation Window) this w0 inst el e p h :
  (forall w1 w', frame [] w1 w' -> obs w1 w') ->
  toggles w0 !! this = Some inst -> this_element inst = JElem el ->
  elements w0 !! el = Some e -> parentNode e = Some p ->
  p < length (elements w0) ->
  hook_ok expand_parent obs this w0 false (JFun h).
Proof.
  intros Hobs Hi He Hel Hp Hlt. right. intros w1 F.
  destruct (frame_lookup _ _ _ _ _ F Hel) as (e' & He' & Hf).
  assert (Hp' : parentNode e' = Some p).
  { destruct Hf as (_ & _ & Hpar & _). rewrite Hpar. exact Hp. }
  change (runs (expand_parent h this) w1
            (fun r w' => frame toggled_attributes w1 w' /\ obs w1 w'
                         /\ (false = true -> truthy r = true))).
  unfold expand_parent.
  apply runs_bind. eapply runs_self;
    [rewrite (frame_toggles _ _ _ _ F); exact Hi |].
  rewrite He. apply runs_bind.
  exists (el, e'), w1. split; [apply element_of_runs; exact He' |].
  cbv beta iota. rewrite Hp'. apply runs_bind.
  eapply (runs_classList_toggle_at p (JStr "is-expanded") "is-expanded");
    [rewrite (frame_length _ _ _ F); exact Hlt | reflexivity | reflexivity |].
  intros w' F' _. apply runs_ret.
  split; [| split; [apply Hobs; exact F' | discriminate]].
  eapply frame_mono; [| exact F']. apply subseteq_toggled. constructor.
Qed.



(** *** The undo listener *)

Definition same_listeners (w w' : Window) : Prop := listeners w' = listeners w.

#[local] Instance same_listeners_preorder : PreOrder same_listeners.
Proof.
  split; [intros w; reflexivity |].
  intros a b c Hab Hbc. unfold same_listeners in *. congruence.
Qed.

Lemma keeps_listeners_update_element n e :
  keeps same_listeners (update_element n e).
Proof. intros w. reflexivity. Qed.

Lemma keeps_listeners_assign this f : keeps same_listeners (assign this f).
Proof.
  intros w. unfold assign. rewrite run_bind. unfold self.
  destruct (toggles w !! this); reflexivity.
Qed.

Lemma keeps_listeners_preventDefault ev :
  keeps same_listeners (preventDefault ev).
Proof. intros w. reflexivity. Qed.

Lemma keeps_listeners_pushState : keeps same_listeners history_pushState.
Proof. intros w. reflexivity. Qed.

Lemma keeps_listeners_set_hash v : keeps same_listeners (set_location_hash v).
Proof.
  intros w. unfold set_location_hash, modify. cbv zeta.
  destruct (String.eqb _ _); reflexivity.
Qed.

#[local] Hint Resolve keeps_listeners_update_element keeps_listeners_assign
  keeps_listeners_preventDefault keeps_listeners_pushState
  keeps_listeners_set_hash : keeps.

Lemma keeps_listeners_setAttribute v name value :
  keeps same_listeners (setAttribute v name value).
Proof. unfold setAttribute. repeat keeps_step. Qed.

Lemma keeps_listeners_removeAttribute v name :
  keeps same_listeners (removeAttribute v name).
Proof. unfold removeAttribute. repeat keeps_step. Qed.

Lemma keeps_listeners_classList_toggle v t :
  keeps same_listeners (classList_toggle v t).
Proof. unfold classList_toggle. repeat keeps_step. Qed.

Lemma keeps_listeners_focus v : keeps same_listeners (focus v).
Proof. unfold focus. repeat keeps_step. reflexivity. Qed.

#[local] Hint Resolve keeps_listeners_setAttribute
  keeps_listeners_removeAttribute keeps_listeners_classList_toggle
  keeps_listeners_focus : keeps.

Lemma keeps_listeners_toggleFocusable this ns :
  keeps same_listeners (toggleFocusable this ns).
Proof. unfold toggleFocusable. repeat keeps_step. Qed.

Lemma keeps_listeners_jumpTo this element target :
  keeps same_listeners (jumpTo this element target).
Proof. unfold jumpTo. repeat keeps_step. Qed.

Lemma keeps_listeners_toggle_classes this target :
  keeps same_listeners (toggle_classes this target).
Proof. unfold toggle_classes. repeat keeps_step. Qed.

Lemma keeps_listeners_toggle_target_aria this :
  keeps same_listeners (toggle_target_aria this).
Proof. unfold toggle_target_aria. repeat keeps_step. Qed.

Lemma keeps_listeners_toggle_element_aria this :
  keeps same_listeners (toggle_element_aria this).
Proof. unfold toggle_element_aria. repeat keeps_step. Qed.

#[local] Hint Resolve keeps_listeners_toggleFocusable keeps_listeners_jumpTo
  keeps_listeners_toggle_classes keeps_listeners_toggle_target_aria
  keeps_listeners_toggle_element_aria : keeps.

Lemma select_all_frame_id W i els els' :
  Forall2 (el_frame W) els els' -> "id" ∉ W ->
  select_all [ById i] els' = select_all [ById i] els.
Proof.
  intros HF Hn. unfold select_all. eapply indices_from_ext; [exact HF |].
  intros e e' (_ & Ha & _ & _ & Hattr). rewrite Ha. simpl.
  rewrite (Hattr "id" Hn). reflexivity.
Qed.

Section Undo.

Variable callback : HookId -> InstId -> M JSValue.

(** The caller's functions attach and remove no listener. *)
Hypothesis callback_listeners :
  forall h this, keeps same_listeners (callback h this).

Lemma keeps_listeners_call f this :
  keeps same_listeners (call callback f this).
Proof. unfold call. destruct f; try (apply keeps_throw; apply _). auto. Qed.

Hint Resolve keeps_listeners_call : keeps.

Lemma keeps_listeners_elementToggle this element target focusable :
  keeps same_listeners (elementToggle callback this element target focusable).
Proof. unfold elementToggle. repeat keeps_step. Qed.


End Undo.

(** A button that opens a dialog, and the close button of the dialog,
    which undoes it; after [new Toggle()]. *)
Definition dialog_page : Window :=
  final (constructor None
    (mkWindow
       [ mkElement "BUTTON" true None
           {[ "data-js" := "toggle"; "aria-controls" := "dialog";
              "data-toggle-undo" := "#close" ]} [] None;
         mkElement "DIV" true None
           {[ "id" := "dialog"; "aria-hidden" := "true" ]} ["hidden"] None;
         mkElement "BUTTON" true (Some 1) {[ "id" := "close" ]} [] None ]
       [] [] None "/" "" "" 1 None [])).

Lemma no_callbacks_listeners h this :
  keeps same_listeners (no_callbacks h this).
Proof. intros w. reflexivity. Qed.


End ToggleFacts.

Module AnimationsFacts.
Import Animations.

(** The controller element of the page [p]. *)
Definition shown (p : Page) (c : nat) : option string :=
  innerText <$> nodes p !! c.

Definition has_class (p : Page) (c : nat) (t : string) : Prop :=
  exists n, nodes p !! c = Some n /\ t ∈ classList n.

(** Projections of explicit pages, nodes and timers, and nothing else. *)
Ltac project :=
  cbn [nodes querySelectorAll querySelector now timers due period callback
       innerText classList].

Lemma mod_succ k n :
  0 < n ->
  S k mod n = if Nat.eqb (S (k mod n)) n then 0 else S (k mod n).
Proof.
  intros Hn. pose proof (Nat.div_mod_eq k n) as Hk.
  pose proof (Nat.mod_upper_bound k n ltac:(lia)) as Hr.
  destruct (Nat.eqb (S (k mod n)) n) eqn:E.
  - apply Nat.eqb_eq in E. symmetry.
    apply (Nat.mod_unique (S k) n (S (k / n)) 0); lia.
  - apply Nat.eqb_neq in E. symmetry.
    apply (Nat.mod_unique (S k) n (k / n) (S (k mod n))); lia.
Qed.

Lemma elem_of_add t n : t ∈ classList (add t n).
Proof.
  unfold add. simpl. destruct (bool_decide (t ∈ classList n)) eqn:E.
  - apply bool_decide_eq_true in E. exact E.
  - apply elem_of_app. right. apply list_elem_of_singleton. reflexivity.
Qed.

Lemma elem_of_add_other t u n : u ∈ classList n -> u ∈ classList (add t n).
Proof.
  intros Hu. unfold add. simpl. destruct (bool_decide (t ∈ classList n));
    [exact Hu |]. apply elem_of_app. left. exact Hu.
Qed.

Lemma elem_of_remove t u n :
  u ∈ classList (remove t n) <-> u <> t /\ u ∈ classList n.
Proof. unfold remove. simpl. rewrite list_elem_of_filter. reflexivity. Qed.

(** A turn with a fade-out due before the rotation. *)
Lemma turn_fade p c d t :
  timers p = [mkTimer d None (FadeOut c); t] -> d <= due t ->
  turn p
  = Done (mkPage (alter (fun n => remove "fadeIn" (add "fadeOut" n)) c
                        (nodes p))
                 (querySelectorAll p) (querySelector p) (Nat.max (now p) d)
                 [t]).
Proof.
  intros Ht Hd. unfold turn. rewrite Ht. cbn [pick]. project.
  replace (Nat.ltb (due t) d) with false
    by (symmetry; apply Nat.ltb_ge; exact Hd).
  reflexivity.
Qed.

(** A turn with the rotation alone. *)
Lemma turn_rotate p c d terms i t :
  timers p = [mkTimer d (Some 3000) (Rotate terms i c)] ->
  terms !! (if Nat.eqb i (length terms) then 0 else i) = Some t ->
  turn p
  = Done (mkPage (alter (add "fadeIn")
                        c (alter (set_innerText (trim t)) c (nodes p)))
                 (querySelectorAll p) (querySelector p) (Nat.max (now p) d)
                 [mkTimer (Nat.max (now p) d + 2000) None (FadeOut c);
                  mkTimer (d + 3000) (Some 3000)
                    (Rotate terms
                       (S (if Nat.eqb i (length terms) then 0 else i)) c)]).
Proof.
  intros Ht Hterm. unfold turn. rewrite Ht. cbn [pick]. project.
  unfold call. rewrite Hterm. reflexivity.
Qed.

(** The page after the [k]-th rotation, for a rotation that started at
    the time [t0]. *)
Definition rotated (terms : list string) (c t0 : nat) (p0 : Page) (k : nat)
    (p : Page) : Prop :=
  querySelectorAll p = querySelectorAll p0
  /\ querySelector p = querySelector p0
  /\ now p = t0 + 3000 * k
  /\ timers p
     = [mkTimer (t0 + 3000 * k + 2000) None (FadeOut c);
        mkTimer (t0 + 3000 * S k) (Some 3000)
          (Rotate terms (S (k mod length terms)) c)]
  /\ exists n,
       nodes p !! c = Some n
       /\ Some (innerText n) = trim <$> terms !! (k mod length terms)
       /\ "fadeIn" ∈ classList n
       /\ (0 < k -> "fadeOut" ∈ classList n).

Lemma rotation_starts terms control speed c t n p :
  querySelector p control = Some c -> terms !! 0 = Some t ->
  nodes p !! c = Some n -> timers p = [] ->
  exists p0,
    rotateTerms terms control speed p = Done p0
    /\ rotated terms c (now p) p 0 p0.
Proof.
  intros Hc Ht Hn Htimers. unfold rotateTerms. rewrite Hc, Ht.
  eexists. split; [reflexivity |].
  assert (Hlen : 0 < length terms) by (eapply lookup_lt_Some; eauto).
  unfold rotated, setInterval, fadeInOut, setTimeout, add_timer, update.
  project.
  split; [reflexivity |]. split; [reflexivity |].
  split; [lia |]. split.
  - rewrite Htimers. cbn [app].
    rewrite Nat.Div0.mod_0_l.
    replace (now p + 3000 * 0 + 2000) with (now p + 2000) by lia.
    replace (now p + 3000 * 1) with (now p + 3000) by lia.
    reflexivity.
  - exists (add "fadeIn" (set_innerText (trim t) n)). split.
    + rewrite list_lookup_alter_eq, list_lookup_alter_eq, Hn.
      reflexivity.
    + split; [rewrite Nat.Div0.mod_0_l, Ht; reflexivity |].
      split; [apply elem_of_add | lia].
Qed.

(** From one rotation to the next there are two turns: the fade-out and
    the rotation. *)
Lemma rotation_goes_on terms c t0 p0 k p :
  0 < length terms -> rotated terms c t0 p0 k p ->
  exists p1 p2,
    turn p = Done p1 /\ turn p1 = Done p2
    /\ now p1 = t0 + 3000 * k + 2000
    /\ (exists n, nodes p1 !! c = Some n
                  /\ Some (innerText n) = trim <$> terms !! (k mod length terms)
                  /\ "fadeOut" ∈ classList n /\ "fadeIn" ∉ classList n)
    /\ rotated terms c t0 p0 (S k) p2.
Proof.
  intros Hlen (Ha & Hq & Hnow & Htimers & n & Hn & Htext & Hin & Hout).
  set (i := if Nat.eqb (S (k mod length terms)) (length terms) then 0
            else S (k mod length terms)).
  assert (Hi : i = S k mod length terms)
    by (unfold i; rewrite (mod_succ k _ Hlen); reflexivity).
  assert (Hlt : i < length terms)
    by (rewrite Hi; apply Nat.mod_upper_bound; lia).
  destruct (lookup_lt_is_Some_2 terms i Hlt) as [t Ht].
  eexists _, _.
  split; [apply (turn_fade p c _ _ Htimers); project; lia |].
  split; [eapply (turn_rotate _ c _ terms _ t); [reflexivity | exact Ht] |].
  unfold rotated. project.
  split; [lia |]. split.
  - exists (remove "fadeIn" (add "fadeOut" n)). split.
    + rewrite list_lookup_alter_eq, Hn. reflexivity.
    + split; [exact Htext |]. split.
      * apply elem_of_remove. split; [discriminate | apply elem_of_add].
      * rewrite elem_of_remove. intros [H _]. apply H. reflexivity.
  - split; [exact Ha |]. split; [exact Hq |].
    split; [lia |]. split.
    + fold i. rewrite <- Hi.
      replace (Nat.max (Nat.max (now p) (t0 + 3000 * k + 2000))
                 (t0 + 3000 * S k) + 2000)
        with (t0 + 3000 * S k + 2000) by lia.
      replace (t0 + 3000 * S k + 3000) with (t0 + 3000 * S (S k)) by lia.
      reflexivity.
    + exists (add "fadeIn"
                (set_innerText (trim t) (remove "fadeIn" (add "fadeOut" n)))).
      split.
      * rewrite !list_lookup_alter_eq, Hn. reflexivity.
      * split; [rewrite <- Hi, Ht; reflexivity |].
        split; [apply elem_of_add |]. intros _.
        apply elem_of_add_other. project.
        apply list_elem_of_filter. split; [discriminate |].
        apply (elem_of_add "fadeOut" n).
Qed.

Lemma turns_add m n p p' :
  turns m p = Done p' -> turns (m + n) p = turns n p'.
Proof.
  revert p. induction m as [| m IH]; intros p; simpl.
  - intros [= ->]. reflexivity.
  - destruct (turn p) as [p1 | p1]; [apply IH | discriminate].
Qed.

Lemma rotation_reaches terms c t0 p0 p k :
  0 < length terms -> rotated terms c t0 p0 0 p ->
  exists pk, turns (2 * k) p = Done pk /\ rotated terms c t0 p0 k pk.
Proof.
  intros Hlen H0. induction k as [| k (pk & Ek & Hk)].
  - exists p. split; [reflexivity | exact H0].
  - destruct (rotation_goes_on _ _ _ _ _ _ Hlen Hk)
      as (p1 & p2 & E1 & E2 & _ & _ & H2).
    exists p2. split; [| exact H2].
    replace (2 * S k) with (2 * k + 2) by lia.
    rewrite (turns_add _ 2 _ _ Ek). cbn [turns]. rewrite E1, E2.
    reflexivity.
Qed.

(** X21: with at least one term and a controller on the page,
    [rotateTerms] returns, and whatever the [speed] argument is the
    rotation goes on for ever without an exception: after the [k]-th
    rotation the time is 3000 ms times [k] after the start and the
    controller shows the term at index [k mod terms.length], trimmed; the
    index never leaves the array. *)
Theorem rotation_shows_each_term
    (terms : list string) (control : string) (speed c : nat) (n : Node)
    (p : Page) :
  terms <> [] -> querySelector p control = Some c ->
  nodes p !! c = Some n -> timers p = [] ->
  exists p0,
    rotateTerms terms control speed p = Done p0
    /\ forall k, exists pk t,
         turns (2 * k) p0 = Done pk
         /\ now pk = now p + 3000 * k
         /\ terms !! (k mod length terms) = Some t
         /\ shown pk c = Some (trim t).
Proof.
  intros Hterms Hc Hn Htimers.
  destruct terms as [| t terms]; [contradiction |].
  destruct (rotation_starts (t :: terms) control speed c t n p Hc eq_refl Hn
              Htimers) as (p0 & E0 & H0).
  exists p0. split; [exact E0 |]. intros k.
  assert (Hlen : 0 < length (t :: terms)) by (cbn [length]; lia).
  destruct (rotation_reaches _ _ _ _ _ k Hlen H0)
    as (pk & Ek & _ & _ & Hnow & _ & nk & Hnk & Htext & _).
  assert (Hlt : k mod length (t :: terms) < length (t :: terms))
    by (apply Nat.mod_upper_bound; lia).
  destruct (lookup_lt_is_Some_2 _ _ Hlt) as [tk Htk].
  exists pk, tk. split; [exact Ek |]. split; [exact Hnow |].
  split; [exact Htk |].
  unfold shown. rewrite Hnk. rewrite Htk in Htext. exact Htext.
Qed.

(** A page with a heading whose last word rotates. *)
Definition heading_page : Page :=
  mkPage [mkNode "" ["animated"]; mkNode " anxiety " []; mkNode "grief" []]
         (fun s => if String.eqb s selector then [1; 2] else [])
         (fun s => if String.eqb s controller then Some 0 else None)
         0 [].

Lemma rotation_shows_each_term_witness :
  exists p0,
    rotateTerms [" anxiety "; "grief"] controller speed heading_page = Done p0
    /\ forall k, exists pk t,
         turns (2 * k) p0 = Done pk
         /\ now pk = now heading_page + 3000 * k
         /\ [" anxiety "; "grief"] !! (k mod length [" anxiety "; "grief"])
            = Some t
         /\ shown pk 0 = Some (trim t).
Proof.
  apply (rotation_shows_each_term [" anxiety "; "grief"] controller speed 0
           (mkNode "" ["animated"]) heading_page);
    [discriminate | reflexivity | reflexivity | reflexivity].
Defined.

(** X22: the class [fadeOut] is added two seconds after the start and is
    never removed: after every turn of the event loop the controller has
    it.  At each rotation [fadeIn] is added to it, so that from the second
    rotation on the controller has both classes for two seconds; after each
    fade-out it has [fadeOut] alone. *)
Theorem fade_out_stays
    (terms : list string) (control : string) (speed c : nat) (n : Node)
    (p : Page) :
  terms <> [] -> querySelector p control = Some c ->
  nodes p !! c = Some n -> timers p = [] ->
  exists p0,
    rotateTerms terms control speed p = Done p0
    /\ forall m, 0 < m -> exists pm,
         turns m p0 = Done pm
         /\ has_class pm c "fadeOut"
         /\ (Nat.even m = true -> has_class pm c "fadeIn")
         /\ (Nat.even m = false -> ~ has_class pm c "fadeIn").
Proof.
  intros Hterms Hc Hn Htimers.
  destruct terms as [| t terms]; [contradiction |].
  destruct (rotation_starts (t :: terms) control speed c t n p Hc eq_refl Hn
              Htimers) as (p0 & E0 & H0).
  exists p0. split; [exact E0 |]. intros m Hm.
  assert (Hlen : 0 < length (t :: terms)) by (cbn [length]; lia).
  destruct (Nat.Even_or_Odd m) as [[k ->] | [k ->]].
  - destruct (rotation_reaches _ _ _ _ _ k Hlen H0)
      as (pk & Ek & _ & _ & _ & _ & nk & Hnk & _ & Hin & Hout).
    exists pk. split; [exact Ek |].
    split; [exists nk; split; [exact Hnk | apply Hout; lia] |].
    split; [intros _; exists nk; split; assumption |].
    intros Hodd. rewrite Nat.even_mul in Hodd. discriminate.
  - destruct (rotation_reaches _ _ _ _ _ k Hlen H0) as (pk & Ek & Hk).
    destruct (rotation_goes_on _ _ _ _ _ _ Hlen Hk)
      as (p1 & _ & E1 & _ & _ & (n1 & Hn1 & _ & Hout & Hin) & _).
    exists p1. split.
    { rewrite (turns_add _ 1 _ _ Ek). cbn [turns]. rewrite E1. reflexivity. }
    split; [exists n1; split; assumption |].
    split.
    + intros Heven. rewrite Nat.add_1_r, Nat.even_succ in Heven.
      rewrite <- Nat.negb_even, Nat.even_mul in Heven. discriminate.
    + intros _ (n' & Hn' & Hin'). rewrite Hn1 in Hn'. injection Hn' as <-.
      contradiction.
Qed.

Lemma fade_out_stays_witness :
  exists p0,
    rotateTerms [" anxiety "; "grief"] controller speed heading_page = Done p0
    /\ forall m, 0 < m -> exists pm,
         turns m p0 = Done pm
         /\ has_class pm 0 "fadeOut"
         /\ (Nat.even m = true -> has_class pm 0 "fadeIn")
         /\ (Nat.even m = false -> ~ has_class pm 0 "fadeIn").
Proof.
  apply (fade_out_stays [" anxiety "; "grief"] controller speed 0
           (mkNode "" ["animated"]) heading_page);
    [discriminate | reflexivity | reflexivity | reflexivity].
Defined.

(** The text of a selected element, when it is not blank. *)
Definition term_of (p : Page) (term : nat) : option string :=
  match nodes p !! term with
  | Some n =>
      if negb (String.eqb (trim (innerText n)) "")
      then Some (innerText n) else None
  | None => None
  end.

Lemma omap_nil {A B} (f : A -> option B) (l : list A) :
  omap f l = [] <-> Forall (fun x => f x = None) l.
Proof.
  induction l as [| x l IH]; simpl.
  - split; [constructor | reflexivity].
  - destruct (f x) eqn:E.
    + split; [discriminate |]. intros H. apply Forall_cons in H as [H _].
      congruence.
    + rewrite IH. split; [intros H; constructor; assumption |].
      intros H. apply Forall_cons in H as [_ H]. exact H.
Qed.

(** X23: [new Animations()] raises a TypeError, with nothing written and
    no timer set, exactly when the page has no controller element or every
    rotating element is blank (there may be none); otherwise it returns
    with the first text that is not blank, trimmed, in the controller. *)
Theorem constructor_needs_a_term (p : Page) :
  (constructor p = TypeError p
   <-> querySelector p controller = None
       \/ Forall (fun term => term_of p term = None)
                 (querySelectorAll p selector))
  /\ (forall c t rest,
        querySelector p controller = Some c ->
        omap (term_of p) (querySelectorAll p selector) = t :: rest ->
        exists p0, constructor p = Done p0
                   /\ (c < length (nodes p) -> shown p0 c = Some (trim t))
                   /\ trim t <> "").
Proof.
  unfold constructor. fold (term_of p). unfold rotateTerms. split.
  - rewrite <- omap_nil.
    destruct (querySelector p controller) as [c |]; [| tauto].
    destruct (omap (term_of p) (querySelectorAll p selector)) as [| t ts].
    + cbn [lookup list_lookup]. tauto.
    + cbn [lookup list_lookup]. split; [discriminate |].
      intros [H | H]; discriminate.
  - intros c t rest Hc Hterms. rewrite Hc, Hterms. cbn [lookup list_lookup].
    eexists. split; [reflexivity |]. split.
    + intros Hlt. apply lookup_lt_is_Some in Hlt as [n Hn].
      unfold shown, setInterval, fadeInOut, setTimeout, add_timer, update.
      project. rewrite !list_lookup_alter_eq, Hn. reflexivity.
    + assert (Hin : t ∈ omap (term_of p) (querySelectorAll p selector))
        by (rewrite Hterms; apply elem_of_cons; left; reflexivity).
      apply list_elem_of_omap in Hin as (term & _ & Ht).
      unfold term_of in Ht. destruct (nodes p !! term) as [n |]; [| discriminate].
      destruct (String.eqb (trim (innerText n)) "") eqn:E; [discriminate |].
      cbn [negb] in Ht. injection Ht as <-.
      apply String.eqb_neq in E. exact E.
Qed.

Lemma constructor_needs_a_term_witness :
  exists p0,
    constructor heading_page = Done p0
    /\ shown p0 0 = Some (trim " anxiety ").
Proof.
  destruct (proj2 (constructor_needs_a_term heading_page) 0 " anxiety "
              ["grief"] eq_refl eq_refl) as (p0 & E & Hs & _).
  exists p0. split; [exact E |]. apply Hs. cbn [heading_page nodes length].
  lia.
Defined.

End AnimationsFacts.

Module StaticColumnFacts.
Import StaticColumn.

Lemma positive_spec q :
  positive q = true <-> QArith_base.Qlt (QArith_base.inject_Z 0) q.
Proof. unfold positive, QArith_base.Qlt. simpl. rewrite Z.ltb_lt. lia. Qed.

Lemma past_bottom_spec (a b : Z) (t : Q) :
  positive (QArith_base.Qminus
              (QArith_base.Qminus (QArith_base.inject_Z a)
                                  (QArith_base.inject_Z b)) t) = true
  <-> QArith_base.Qlt t (QArith_base.inject_Z (a - b)).
Proof.
  rewrite positive_spec.
  unfold QArith_base.Qlt, QArith_base.Qminus, QArith_base.Qplus,
    QArith_base.Qopp, QArith_base.inject_Z.
  destruct t as [n d]. simpl. lia.
Qed.

Lemma elem_of_added t u c : u ∈ add t c <-> u = t \/ u ∈ c.
Proof.
  unfold add. destruct (bool_decide (t ∈ c)) eqn:E.
  - apply bool_decide_eq_true in E. split; [auto |].
    intros [-> | H]; assumption.
  - rewrite elem_of_app, list_elem_of_singleton. tauto.
Qed.

Lemma elem_of_removed t u c : u ∈ remove t c <-> u <> t /\ u ∈ c.
Proof. unfold remove. rewrite list_elem_of_filter. reflexivity. Qed.

Lemma add_present t c : t ∈ c -> add t c = c.
Proof. intros H. unfold add. rewrite bool_decide_true by exact H. reflexivity. Qed.

Lemma remove_absent t c : t ∉ c -> remove t c = c.
Proof.
  intros H. unfold remove. induction c as [| x c IH]; [reflexivity |].
  apply not_elem_of_cons in H as [Hne H].
  rewrite filter_cons_True by congruence. rewrite IH by exact H. reflexivity.
Qed.

(** One class set by a condition. *)
Definition set_class (b : bool) (t : string) (c : list string) : list string :=
  if b then add t c else remove t c.

Lemma elem_of_set_class b t u c :
  u ∈ set_class b t c <-> (u = t /\ b = true) \/ (u <> t /\ u ∈ c).
Proof.
  unfold set_class. destruct b.
  - rewrite elem_of_added. destruct (decide (u = t)); intuition congruence.
  - rewrite elem_of_removed. intuition congruence.
Qed.

Lemma set_class_fixed b t c :
  (t ∈ c <-> b = true) -> set_class b t c = c.
Proof.
  intros H. unfold set_class. destruct b.
  - apply add_present, H. reflexivity.
  - apply remove_absent. intros Hin. apply H in Hin. discriminate.
Qed.

(** X24: on an element with a parent, [calcWindowPos] returns and leaves
    the element with [is-not-sticky] exactly when the top of the parent is
    below the top of the window, with [is-bottom] exactly when the bottom
    of the parent is above the bottom of the window, and with every other
    class exactly when it had it: what the two classes were before plays
    no part. *)
Theorem calcWindowPos_classes
    (innerHeight : Z) (parent : Box) (classList : list string) :
  exists after,
    calcWindowPos innerHeight (Some parent) classList = Some after
    /\ (notStickyClass ∈ after
        <-> QArith_base.Qlt (QArith_base.inject_Z 0) (top parent))
    /\ (bottomClass ∈ after
        <-> QArith_base.Qlt (top parent)
              (QArith_base.inject_Z (innerHeight - clientHeight parent)))
    /\ forall t, t <> notStickyClass -> t <> bottomClass ->
                 (t ∈ after <-> t ∈ classList).
Proof.
  eexists. split; [reflexivity |].
  fold (set_class (positive (top parent)) notStickyClass classList).
  match goal with
  | |- context [if ?b then add bottomClass ?c else _] =>
      fold (set_class b bottomClass c)
  end.
  split; [| split].
  - rewrite !elem_of_set_class, <- positive_spec.
    split.
    + intros [[H _] | (_ & [[_ H] | [H _]])];
        [discriminate H | exact H | contradiction].
    + intros H. right. split; [discriminate |]. left. split; [reflexivity |].
      exact H.
  - rewrite elem_of_set_class, <- past_bottom_spec.
    split; [intros [[_ H] | [H _]]; [exact H | contradiction] |].
    intros H. left. split; [reflexivity | exact H].
  - intros t H1 H2. rewrite !elem_of_set_class. intuition congruence.
Qed.

(** X25: a second call with the same layout changes nothing: the class
    list, order included, is the one the first call left. *)
Theorem calcWindowPos_twice
    (innerHeight : Z) (parentElement : option Box)
    (classList after : list string) :
  calcWindowPos innerHeight parentElement classList = Some after ->
  calcWindowPos innerHeight parentElement after = Some after.
Proof.
  destruct parentElement as [parent |]; [| discriminate].
  unfold calcWindowPos. intros [= <-].
  fold (set_class (positive (top parent)) notStickyClass classList).
  set (a := positive (top parent)).
  set (b := positive _).
  fold (set_class b bottomClass (set_class a notStickyClass classList)).
  set (c := set_class b bottomClass (set_class a notStickyClass classList)).
  fold (set_class a notStickyClass c).
  fold (set_class b bottomClass (set_class a notStickyClass c)).
  f_equal.
  rewrite (set_class_fixed a notStickyClass c).
  - apply set_class_fixed. unfold c. rewrite elem_of_set_class.
    split; [intros [[_ H] | [H _]]; [exact H | contradiction] |].
    intros H. left. split; [reflexivity | exact H].
  - unfold c. rewrite !elem_of_set_class. split.
    + intros [[H _] | (_ & [[_ H] | [H _]])];
        [discriminate H | exact H | contradiction].
    + intros H. right. split; [discriminate |]. left. split; [reflexivity |].
      exact H.
Qed.

Lemma calcWindowPos_twice_witness :
  calcWindowPos 800 (Some (mkBox (QArith_base.Qmake 25 2) 600))
                ["js-static"; "is-not-sticky"; "is-bottom"]
  = Some ["js-static"; "is-not-sticky"; "is-bottom"].
Proof.
  apply (calcWindowPos_twice 800 (Some (mkBox (QArith_base.Qmake 25 2) 600))
           ["js-static"; "is-not-sticky"]).
  reflexivity.
Defined.

End StaticColumnFacts.

Module TranslateElementFacts.
Import TranslateElement.

(** X26: on a page that has the select, the list of stylesheets and the
    stylesheet link, a change of [lang] is settled in two deliveries.  The
    first sets
    the select, the direction ([rtl] exactly for [ar] and [ur]), the
    stylesheet (one of [STYLESHEETS] unless neither the language's nor the
    default one is listed) and the click listener of every link (present
    exactly when the language is not a restored one); it queues one record,
    for the attribute the observer wrote itself.  The second delivery hands
    that record to the observer, which ignores it: nothing changes and the
    queue is empty. *)
Theorem lang_change_settles
    (p : Page) (mutations sheets : list string)
    (shown href : option string) :
  records p = mutations -> "lang" ∈ mutations ->
  control_value p = Some shown ->
  STYLESHEETS p = Some sheets -> stylesheet p = Some href ->
  exists value dir sheet,
    deliver p
    = Done (mkPage (lang p) (Some dir) (Some (Some value)) (Some sheets)
              (Some (Some sheet))
              ((fun _ => negb (includes restore (lang p))) <$> anchors p)
              ["direction"])
    /\ deliver (mkPage (lang p) (Some dir) (Some (Some value)) (Some sheets)
                  (Some (Some sheet))
                  ((fun _ => negb (includes restore (lang p))) <$> anchors p)
                  ["direction"])
       = Done (mkPage (lang p) (Some dir) (Some (Some value)) (Some sheets)
                 (Some (Some sheet))
                 ((fun _ => negb (includes restore (lang p))) <$> anchors p)
                 [])
    /\ (dir = "rtl" <-> lang p = "ar" \/ lang p = "ur")
    /\ (dir = "rtl" \/ dir = "ltr")
    /\ (value = "restore"
        <-> lang p = "auto" \/ lang p = "en" \/ lang p = "restore")
    /\ (sheet ∈ sheets
        \/ (sheet = "undefined"
            /\ Forall (fun s => Toggle.contains "style-default" s = false)
                      sheets)).
Proof.
  intros Hrec Hlang Hselect Hsheets Hlink.
  assert (Hlangs : exists m ms,
    List.filter (fun m => String.eqb m "lang") mutations = m :: ms).
  { assert (Hin : List.In "lang"
                    (List.filter (fun m => String.eqb m "lang") mutations))
      by (apply List.filter_In; split;
          [apply list_elem_of_In, Hlang | reflexivity]).
    destruct (List.filter _ mutations) as [| m ms]; [contradiction | eauto]. }
  destruct Hlangs as (m & ms & Hlangs).
  assert (Hne : mutations <> []).
  { intros ->. discriminate Hlangs. }
  exists (if includes restore (lang p) then "restore" else lang p),
         (if includes rtl (lang p) then "rtl" else "ltr").
  eexists. split; [| split; [reflexivity |]].
  - unfold deliver. rewrite Hrec.
    destruct mutations as [| m0 ms0]; [contradiction |].
    unfold observer. rewrite Hlangs.
    cbn [control_value STYLESHEETS stylesheet lang anchors records app].
    rewrite Hselect, Hsheets, Hlink. reflexivity.
  - split; [| split; [| split]].
    + unfold includes, rtl. case_bool_decide as H.
      * split; [intros _ | reflexivity].
        apply elem_of_cons in H as [-> | H]; [left; reflexivity |].
        apply list_elem_of_singleton in H as ->. right. reflexivity.
      * split; [discriminate |]. intros [E | E]; exfalso; apply H;
          rewrite E; [apply elem_of_cons; left; reflexivity |].
        apply elem_of_cons. right. apply list_elem_of_singleton. reflexivity.
    + destruct (includes rtl (lang p)); [left | right]; reflexivity.
    + unfold includes, restore. case_bool_decide as H.
      * split; [intros _ | reflexivity].
        apply elem_of_cons in H as [-> | H]; [left; reflexivity |].
        apply list_elem_of_singleton in H as ->. right. left. reflexivity.
      * split; [intros ->; right; right; reflexivity |].
        intros [E | [E | E]]; [exfalso; apply H; rewrite E .. | exact E].
        -- apply elem_of_cons. left. reflexivity.
        -- apply elem_of_cons. right. apply list_elem_of_singleton.
           reflexivity.
    + set (slang := if String.eqb (lang p) maps_zh_hant then "zh-hant"
                    else lang p).
      destruct (List.filter (Toggle.contains ("style-" +:+ slang)) sheets)
        as [| s found] eqn:Ef.
      * destruct (List.filter (Toggle.contains "style-default") sheets)
          as [| s latin] eqn:El.
        -- right. split; [reflexivity |]. apply Forall_forall. intros s Hs.
           destruct (Toggle.contains "style-default" s) eqn:Ec;
             [| reflexivity].
           assert (Hin : List.In s
                           (List.filter (Toggle.contains "style-default")
                                        sheets))
             by (apply List.filter_In; split;
                 [apply list_elem_of_In, Hs | exact Ec]).
           rewrite El in Hin. contradiction.
        -- left. cbn [head default].
           assert (Hin : List.In s
                           (List.filter (Toggle.contains "style-default")
                                        sheets))
             by (rewrite El; left; reflexivity).
           apply List.filter_In in Hin as [Hin _].
           apply list_elem_of_In, Hin.
      * left. cbn [default].
        assert (Hin : List.In s
                        (List.filter (Toggle.contains ("style-" +:+ slang))
                                     sheets))
          by (rewrite Ef; left; reflexivity).
        apply List.filter_In in Hin as [Hin _].
        apply list_elem_of_In, Hin.
Qed.

(** Google Translate has just switched the page to Arabic. *)
Definition arabic_page : Page :=
  mkPage "ar" None (Some None)
         (Some ["/css/style-default.css"; "/css/style-ar.css"])
         (Some (Some "/css/style-default.css")) [false; false] ["lang"].

Lemma lang_change_settles_witness :
  exists value dir sheet,
    deliver arabic_page
    = Done (mkPage (lang arabic_page) (Some dir) (Some (Some value))
              (Some ["/css/style-default.css"; "/css/style-ar.css"])
              (Some (Some sheet))
              ((fun _ => negb (includes restore (lang arabic_page)))
                 <$> anchors arabic_page)
              ["direction"])
    /\ deliver (mkPage (lang arabic_page) (Some dir) (Some (Some value))
                  (Some ["/css/style-default.css"; "/css/style-ar.css"])
                  (Some (Some sheet))
                  ((fun _ => negb (includes restore (lang arabic_page)))
                     <$> anchors arabic_page)
                  ["direction"])
       = Done (mkPage (lang arabic_page) (Some dir) (Some (Some value))
                 (Some ["/css/style-default.css"; "/css/style-ar.css"])
                 (Some (Some sheet))
                 ((fun _ => negb (includes restore (lang arabic_page)))
                    <$> anchors arabic_page)
                 [])
    /\ (dir = "rtl" <-> lang arabic_page = "ar" \/ lang arabic_page = "ur")
    /\ (dir = "rtl" \/ dir = "ltr")
    /\ (value = "restore"
        <-> lang arabic_page = "auto" \/ lang arabic_page = "en"
            \/ lang arabic_page = "restore")
    /\ (sheet ∈ ["/css/style-default.css"; "/css/style-ar.css"]
        \/ (sheet = "undefined"
            /\ Forall (fun s => Toggle.contains "style-default" s = false)
                      ["/css/style-default.css"; "/css/style-ar.css"])).
Proof.
  apply (lang_change_settles arabic_page ["lang"]
           ["/css/style-default.css"; "/css/style-ar.css"]
           None (Some "/css/style-default.css"));
    [reflexivity | apply (bool_decide_unpack _); reflexivity
     | reflexivity | reflexivity | reflexivity].
Defined.

(** On [arabic_page] the direction becomes [rtl], the stylesheet the
    Arabic one, and both links get the listener. *)
Example arabic_page_switches :
  deliver arabic_page
  = Done (mkPage "ar" (Some "rtl") (Some (Some "ar"))
            (Some ["/css/style-default.css"; "/css/style-ar.css"])
            (Some (Some "/css/style-ar.css")) [true; true] ["direction"]).
Proof. vm_compute. reflexivity. Qed.

(** Without the select the observer raises at l. 544, before it writes
    anything: the record is consumed and the page is as it was. *)
Example no_select_raises :
  deliver (mkPage "ar" None None
             (Some ["/css/style-default.css"; "/css/style-ar.css"])
             (Some (Some "/css/style-default.css")) [false; false] ["lang"])
  = TypeError
      (mkPage "ar" None None
         (Some ["/css/style-default.css"; "/css/style-ar.css"])
         (Some (Some "/css/style-default.css")) [false; false] []).
Proof. reflexivity. Qed.

End TranslateElementFacts.
